(** * Battle-simulation core of the animal RTS: model and verified properties

    A shallow embedding of [src/game/state.ts] (the zustand store with its
    [tick], [moveCommand], [setPatrol], [checkCollision] and
    [checkWinConditions]) and of [utils/SpatialGrid.ts].

    Conventions of the embedding.
    - A JavaScript [number] is an exact rational ([Q]); counters that the
      code only ever resets to 0 and increments by 1 are integers ([Z]).
    - An optional field ([x?: T]) is an [option]; [delete o.x] stores [None].
    - A [Record<string, T>] is a [gmap string T].
    - Objects of the [units] array are shared and mutated in place, so a
      reference to a unit is its index in that array and every read goes
      through the current array.
    - [Math.random()], [Date.now()], [nanoid()] and the module-level
      [distanceCache] live outside the store: they form the [World.t] that
      is threaded through every function that touches them.
    - [Math.sqrt], [Math.cos], [Math.sin], [Math.atan2] and [Math.PI] are
      not rational functions: where the code needs their value they are
      taken from a [MathLib.t]; where it only compares a square root with a
      bound the comparison is decided exactly on the squares. *)

From Stdlib Require Import ZArith QArith Qround Qabs Lia Lra Psatz.
From Stdlib Require Import Reals Qreals FunctionalExtensionality.
From stdpp Require Import base option list gmap strings.

Local Open Scope Q_scope.

(** ** Numbers *)

Definition Qltb (a b : Q) : bool := negb (Qle_bool b a).
Definition Qgeb (a b : Q) : bool := Qle_bool b a.
Definition Qgtb (a b : Q) : bool := negb (Qle_bool a b).

(** [Math.min(a, b)] *)
Definition Math_min (a b : Q) : Q := if Qle_bool a b then a else b.

(** [Math.floor], [Math.ceil] and [Math.round] (half-way cases go up). *)
Definition Math_floor (x : Q) : Z := Qfloor x.
Definition Math_ceil (x : Q) : Z := Qceiling x.
Definition Math_round (x : Q) : Z := Qfloor (x + (1 # 2)).

(** [x % 1] on numbers: the remainder has the sign of the dividend. *)
Definition Qtrunc (x : Q) : Z := if Qle_bool 0 x then Qfloor x else Qceiling x.
Definition rem1 (x : Q) : Q := x - inject_Z (Qtrunc x).

(** [Math.sqrt(s) <= r], [Math.sqrt(s) < r] and [Math.sqrt(s) > r] for a sum
    of squares [s], decided on the squares. *)
Definition sqrt_le (s r : Q) : bool := Qle_bool 0 r && Qle_bool s (r * r).
Definition sqrt_lt (s r : Q) : bool := Qltb 0 r && Qltb s (r * r).
Definition sqrt_gt (s r : Q) : bool := negb (sqrt_le s r).

(** Truthiness of a number, of a string, and of optional fields. *)
Definition truthyQ (x : Q) : bool := negb (Qeq_bool x 0).
Definition truthyZ (x : Z) : bool := negb (x =? 0)%Z.
Definition truthyS (s : string) : bool := negb (String.eqb s "").
Definition truthyOQ (o : option Q) : bool := from_option truthyQ false o.
Definition truthyOZ (o : option Z) : bool := from_option truthyZ false o.
Definition truthyOS (o : option string) : bool := from_option truthyS false o.

(** [for (let d = lo; d <= hi; d++)] *)
Definition zrange (lo hi : Z) : list Z :=
  map (fun k => (lo + Z.of_nat k)%Z) (seq 0 (Z.to_nat (hi - lo + 1))).

(** ** Data model ([game/types.ts]) *)

Module Position3D.
Record t := mk { x : Q; y : Q; z : Q }.
End Position3D.

Inductive AnimalId :=
  | Bee | Bear | Bunny | Chicken | Cat | Dolphin
  | Fox | Frog | Owl | Pig | Turtle | Yetti.

Inductive UnitKind := KBase | KQueen | KKing | KUnit.

Inductive UnitState := idle | moving_to_order | pursuing_enemy.

Definition AnimalId_to_nat (a : AnimalId) : nat :=
  match a with
  | Bee => 0 | Bear => 1 | Bunny => 2 | Chicken => 3 | Cat => 4 | Dolphin => 5
  | Fox => 6 | Frog => 7 | Owl => 8 | Pig => 9 | Turtle => 10 | Yetti => 11
  end%nat.

Definition AnimalId_of_nat (n : nat) : option AnimalId :=
  match n with
  | 0 => Some Bee | 1 => Some Bear | 2 => Some Bunny | 3 => Some Chicken
  | 4 => Some Cat | 5 => Some Dolphin | 6 => Some Fox | 7 => Some Frog
  | 8 => Some Owl | 9 => Some Pig | 10 => Some Turtle | 11 => Some Yetti
  | _ => None
  end%nat.

#[global] Instance AnimalId_eq_dec : EqDecision AnimalId.
Proof. solve_decision. Defined.

#[global] Instance UnitKind_eq_dec : EqDecision UnitKind.
Proof. solve_decision. Defined.

#[global] Instance UnitState_eq_dec : EqDecision UnitState.
Proof. solve_decision. Defined.

#[global] Program Instance AnimalId_countable : Countable AnimalId :=
  inj_countable AnimalId_to_nat AnimalId_of_nat _.
Next Obligation. by intros []. Qed.

(** A unit: the only mutable entity of the simulation. *)
Module Unit.
Record t := mk {
  id : string;
  ownerId : string;
  animal : AnimalId;
  kind : UnitKind;
  position : Position3D.t;
  hp : Q;
  maxHp : Q;
  attackDamage : Q;
  moveSpeed : Q;  (* units per second *)
  attackCooldownMs : Q;
  lastAttackAtMs : Q;
  rotation : Q;  (* radians around the y axis *)
  arrivedAtDestinationMs : option Q;
  collisionAttempts : option Z;  (* consecutive collision attempts *)
  movementPausedUntilMs : option Q;
  hopPhase : option Q;
  isHopping : option bool;
  wingPhase : option Q;
  isFlying : option bool;
  nearDestinationSinceMs : option Q;
  lastCombatTargetId : option string;
  lastCombatEngagementMs : option Q;
  unitState : option UnitState;
  firstBlockedAtMs : option Q;
  currentAttackers : option (list string);
  priorityAttacker : option string
}.
Definition set_position (v : Position3D.t) (r : t) : t :=
  mk (id r) (ownerId r) (animal r) (kind r) v (hp r) (maxHp r) (attackDamage r)
    (moveSpeed r) (attackCooldownMs r) (lastAttackAtMs r) (rotation r)
    (arrivedAtDestinationMs r) (collisionAttempts r) (movementPausedUntilMs r) (hopPhase r)
    (isHopping r) (wingPhase r) (isFlying r) (nearDestinationSinceMs r)
    (lastCombatTargetId r) (lastCombatEngagementMs r) (unitState r) (firstBlockedAtMs r)
    (currentAttackers r) (priorityAttacker r).
Definition set_hp (v : Q) (r : t) : t :=
  mk (id r) (ownerId r) (animal r) (kind r) (position r) v (maxHp r) (attackDamage r)
    (moveSpeed r) (attackCooldownMs r) (lastAttackAtMs r) (rotation r)
    (arrivedAtDestinationMs r) (collisionAttempts r) (movementPausedUntilMs r) (hopPhase r)
    (isHopping r) (wingPhase r) (isFlying r) (nearDestinationSinceMs r)
    (lastCombatTargetId r) (lastCombatEngagementMs r) (unitState r) (firstBlockedAtMs r)
    (currentAttackers r) (priorityAttacker r).
Definition set_lastAttackAtMs (v : Q) (r : t) : t :=
  mk (id r) (ownerId r) (animal r) (kind r) (position r) (hp r) (maxHp r) (attackDamage r)
    (moveSpeed r) (attackCooldownMs r) v (rotation r) (arrivedAtDestinationMs r)
    (collisionAttempts r) (movementPausedUntilMs r) (hopPhase r) (isHopping r) (wingPhase r)
    (isFlying r) (nearDestinationSinceMs r) (lastCombatTargetId r)
    (lastCombatEngagementMs r) (unitState r) (firstBlockedAtMs r) (currentAttackers r)
    (priorityAttacker r).
Definition set_rotation (v : Q) (r : t) : t :=
  mk (id r) (ownerId r) (animal r) (kind r) (position r) (hp r) (maxHp r) (attackDamage r)
    (moveSpeed r) (attackCooldownMs r) (lastAttackAtMs r) v (arrivedAtDestinationMs r)
    (collisionAttempts r) (movementPausedUntilMs r) (hopPhase r) (isHopping r) (wingPhase r)
    (isFlying r) (nearDestinationSinceMs r) (lastCombatTargetId r)
    (lastCombatEngagementMs r) (unitState r) (firstBlockedAtMs r) (currentAttackers r)
    (priorityAttacker r).
Definition set_arrivedAtDestinationMs (v : option Q) (r : t) : t :=
  mk (id r) (ownerId r) (animal r) (kind r) (position r) (hp r) (maxHp r) (attackDamage r)
    (moveSpeed r) (attackCooldownMs r) (lastAttackAtMs r) (rotation r) v
    (collisionAttempts r) (movementPausedUntilMs r) (hopPhase r) (isHopping r) (wingPhase r)
    (isFlying r) (nearDestinationSinceMs r) (lastCombatTargetId r)
    (lastCombatEngagementMs r) (unitState r) (firstBlockedAtMs r) (currentAttackers r)
    (priorityAttacker r).
Definition set_collisionAttempts (v : option Z) (r : t) : t :=
  mk (id r) (ownerId r) (animal r) (kind r) (position r) (hp r) (maxHp r) (attackDamage r)
    (moveSpeed r) (attackCooldownMs r) (lastAttackAtMs r) (rotation r)
    (arrivedAtDestinationMs r) v (movementPausedUntilMs r) (hopPhase r) (isHopping r)
    (wingPhase r) (isFlying r) (nearDestinationSinceMs r) (lastCombatTargetId r)
    (lastCombatEngagementMs r) (unitState r) (firstBlockedAtMs r) (currentAttackers r)
    (priorityAttacker r).
Definition set_movementPausedUntilMs (v : option Q) (r : t) : t :=
  mk (id r) (ownerId r) (animal r) (kind r) (position r) (hp r) (maxHp r) (attackDamage r)
    (moveSpeed r) (attackCooldownMs r) (lastAttackAtMs r) (rotation r)
    (arrivedAtDestinationMs r) (collisionAttempts r) v (hopPhase r) (isHopping r)
    (wingPhase r) (isFlying r) (nearDestinationSinceMs r) (lastCombatTargetId r)
    (lastCombatEngagementMs r) (unitState r) (firstBlockedAtMs r) (currentAttackers r)
    (priorityAttacker r).
Definition set_hopPhase (v : option Q) (r : t) : t :=
  mk (id r) (ownerId r) (animal r) (kind r) (position r) (hp r) (maxHp r) (attackDamage r)
    (moveSpeed r) (attackCooldownMs r) (lastAttackAtMs r) (rotation r)
    (arrivedAtDestinationMs r) (collisionAttempts r) (movementPausedUntilMs r) v
    (isHopping r) (wingPhase r) (isFlying r) (nearDestinationSinceMs r)
    (lastCombatTargetId r) (lastCombatEngagementMs r) (unitState r) (firstBlockedAtMs r)
    (currentAttackers r) (priorityAttacker r).
Definition set_isHopping (v : option bool) (r : t) : t :=
  mk (id r) (ownerId r) (animal r) (kind r) (position r) (hp r) (maxHp r) (attackDamage r)
    (moveSpeed r) (attackCooldownMs r) (lastAttackAtMs r) (rotation r)
    (arrivedAtDestinationMs r) (collisionAttempts r) (movementPausedUntilMs r) (hopPhase r)
    v (wingPhase r) (isFlying r) (nearDestinationSinceMs r) (lastCombatTargetId r)
    (lastCombatEngagementMs r) (unitState r) (firstBlockedAtMs r) (currentAttackers r)
    (priorityAttacker r).
Definition set_lastCombatTargetId (v : option string) (r : t) : t :=
  mk (id r) (ownerId r) (animal r) (kind r) (position r) (hp r) (maxHp r) (attackDamage r)
    (moveSpeed r) (attackCooldownMs r) (lastAttackAtMs r) (rotation r)
    (arrivedAtDestinationMs r) (collisionAttempts r) (movementPausedUntilMs r) (hopPhase r)
    (isHopping r) (wingPhase r) (isFlying r) (nearDestinationSinceMs r) v
    (lastCombatEngagementMs r) (unitState r) (firstBlockedAtMs r) (currentAttackers r)
    (priorityAttacker r).
Definition set_lastCombatEngagementMs (v : option Q) (r : t) : t :=
  mk (id r) (ownerId r) (animal r) (kind r) (position r) (hp r) (maxHp r) (attackDamage r)
    (moveSpeed r) (attackCooldownMs r) (lastAttackAtMs r) (rotation r)
    (arrivedAtDestinationMs r) (collisionAttempts r) (movementPausedUntilMs r) (hopPhase r)
    (isHopping r) (wingPhase r) (isFlying r) (nearDestinationSinceMs r)
    (lastCombatTargetId r) v (unitState r) (firstBlockedAtMs r) (currentAttackers r)
    (priorityAttacker r).
Definition set_unitState (v : option UnitState) (r : t) : t :=
  mk (id r) (ownerId r) (animal r) (kind r) (position r) (hp r) (maxHp r) (attackDamage r)
    (moveSpeed r) (attackCooldownMs r) (lastAttackAtMs r) (rotation r)
    (arrivedAtDestinationMs r) (collisionAttempts r) (movementPausedUntilMs r) (hopPhase r)
    (isHopping r) (wingPhase r) (isFlying r) (nearDestinationSinceMs r)
    (lastCombatTargetId r) (lastCombatEngagementMs r) v (firstBlockedAtMs r)
    (currentAttackers r) (priorityAttacker r).
Definition set_firstBlockedAtMs (v : option Q) (r : t) : t :=
  mk (id r) (ownerId r) (animal r) (kind r) (position r) (hp r) (maxHp r) (attackDamage r)
    (moveSpeed r) (attackCooldownMs r) (lastAttackAtMs r) (rotation r)
    (arrivedAtDestinationMs r) (collisionAttempts r) (movementPausedUntilMs r) (hopPhase r)
    (isHopping r) (wingPhase r) (isFlying r) (nearDestinationSinceMs r)
    (lastCombatTargetId r) (lastCombatEngagementMs r) (unitState r) v (currentAttackers r)
    (priorityAttacker r).
Definition set_currentAttackers (v : option (list string)) (r : t) : t :=
  mk (id r) (ownerId r) (animal r) (kind r) (position r) (hp r) (maxHp r) (attackDamage r)
    (moveSpeed r) (attackCooldownMs r) (lastAttackAtMs r) (rotation r)
    (arrivedAtDestinationMs r) (collisionAttempts r) (movementPausedUntilMs r) (hopPhase r)
    (isHopping r) (wingPhase r) (isFlying r) (nearDestinationSinceMs r)
    (lastCombatTargetId r) (lastCombatEngagementMs r) (unitState r) (firstBlockedAtMs r) v
    (priorityAttacker r).
Definition set_priorityAttacker (v : option string) (r : t) : t :=
  mk (id r) (ownerId r) (animal r) (kind r) (position r) (hp r) (maxHp r) (attackDamage r)
    (moveSpeed r) (attackCooldownMs r) (lastAttackAtMs r) (rotation r)
    (arrivedAtDestinationMs r) (collisionAttempts r) (movementPausedUntilMs r) (hopPhase r)
    (isHopping r) (wingPhase r) (isFlying r) (nearDestinationSinceMs r)
    (lastCombatTargetId r) (lastCombatEngagementMs r) (unitState r) (firstBlockedAtMs r)
    (currentAttackers r) v.
End Unit.

(** ** The spatial grid ([utils/SpatialGrid.ts])

    The buckets of the grid hold references to the unit objects.  A
    reference is the index of the unit in the array the grid was built
    from; the queries read the positions through the current array, as the
    code does through the shared objects.  The key ["${gridX},${gridZ}"] of
    a cell is the pair of its integer coordinates. *)

Definition distanceSquared (a b : Position3D.t) : Q :=
  let dx := Position3D.x a - Position3D.x b in
  let dy := Position3D.y a - Position3D.y b in
  let dz := Position3D.z a - Position3D.z b in
  dx * dx + dy * dy + dz * dz.

(** [distance3D(a, b) <= radius] with the private [distance3D] of the grid. *)
Definition within (a b : Position3D.t) (radius : Q) : bool :=
  sqrt_le (distanceSquared a b) radius.

Definition indexed {A} (l : list A) : list (nat * A) := zip (seq 0 (length l)) l.

Module SpatialGrid.
Record t := mk {
  gridSize : Q;
  cellSize : Q;
  grid : gmap (Z * Z) (list nat)
}.

(** [constructor(worldSize = 1000, cellSize = 50)] *)
Definition new (worldSize cellSize : Q) : t :=
  mk (inject_Z (Math_ceil (worldSize / cellSize))) cellSize ∅.

Definition getGridCoords (g : t) (position : Position3D.t) : Z * Z :=
  (Math_floor ((Position3D.x position + gridSize g * cellSize g / 2) / cellSize g),
   Math_floor ((Position3D.z position + gridSize g * cellSize g / 2) / cellSize g)).

Definition clear (g : t) : t := mk (gridSize g) (cellSize g) ∅.

(** [addUnit]: create the bucket when it is missing, then push. *)
Definition addUnit (g : t) (ref : nat) (unit : Unit.t) : t :=
  let key := getGridCoords g (Unit.position unit) in
  mk (gridSize g) (cellSize g)
     (<[key := default [] (grid g !! key) ++ [ref]]> (grid g)).

Definition buildFromUnits (g : t) (units : list Unit.t) : t :=
  fold_left (fun g iu => addUnit g (fst iu) (snd iu)) (indexed units) (clear g).

Definition refWithin (heap : list Unit.t) (position : Position3D.t) (radius : Q)
    (ref : nat) : bool :=
  match heap !! ref with
  | Some unit => within position (Unit.position unit) radius
  | None => false
  end.

Definition getNearbyUnits (heap : list Unit.t) (g : t) (position : Position3D.t)
    (radius : Q) : list nat :=
  let coords := getGridCoords g position in
  let cellRadius := Math_ceil (radius / cellSize g) in
  flat_map (fun dx =>
    flat_map (fun dz =>
      match grid g !! ((fst coords + dx)%Z, (snd coords + dz)%Z) with
      | Some cellUnits => List.filter (refWithin heap position radius) cellUnits
      | None => []
      end)
      (zrange (- cellRadius) cellRadius))
    (zrange (- cellRadius) cellRadius).

Definition findEnemiesInRange (heap : list Unit.t) (g : t) (unit : Unit.t)
    (range : Q) : list nat :=
  List.filter (fun ref =>
    match heap !! ref with
    | Some otherUnit =>
        if String.eqb (Unit.id otherUnit) (Unit.id unit)
           || String.eqb (Unit.ownerId otherUnit) (Unit.ownerId unit)
        then false
        else within (Unit.position unit) (Unit.position otherUnit) range
    | None => false
    end)
    (getNearbyUnits heap g (Unit.position unit) range).

Definition findNearbyQueens (heap : list Unit.t) (g : t) (unit : Unit.t)
    (radius : Q) : list nat :=
  List.filter (fun ref =>
    match heap !! ref with
    | Some otherUnit =>
        bool_decide (Unit.kind otherUnit = KQueen)
        && String.eqb (Unit.ownerId otherUnit) (Unit.ownerId unit)
        && within (Unit.position unit) (Unit.position otherUnit) radius
    | None => false
    end)
    (getNearbyUnits heap g (Unit.position unit) radius).
End SpatialGrid.

(** The brute-force scan the grid is compared with: every unit of the array
    whose distance from [position] is at most [radius], in array order. *)
Definition bruteForceNearby (units : list Unit.t) (position : Position3D.t)
    (radius : Q) : list Unit.t :=
  List.filter (fun unit => within position (Unit.position unit) radius) units.

(** The objects behind a list of references. *)
Definition deref (heap : list Unit.t) (refs : list nat) : list Unit.t :=
  omap (fun ref => heap !! ref) refs.

(** ** Players, configuration, orders and the store *)

Module Player.
Record t := mk {
  id : string;
  name : string;
  isAI : bool;
  animals : list AnimalId;
  basePositions : list Position3D.t
}.
End Player.

Module GameConfig.
Record t := mk {
  mapSize : Q;
  spawnIntervalMs : Q;
  regenPerSecondNearQueen : Q;
  regenRadius : Q
}.
End GameConfig.

Definition defaultConfig : GameConfig.t := GameConfig.mk 50 10000 5 8.

Inductive PatrolTarget := patrol_start | patrol_end.

Module PatrolRoute.
Record t := mk {
  startPosition : Position3D.t;
  endPosition : Position3D.t;
  currentTarget : PatrolTarget
}.
End PatrolRoute.

Inductive BridgeAnimationState := up | lowering | down | raising.
Inductive BridgeFrame := Fully_Up | Almost_Up | Almost_Down | Fully_Down.

Module BridgeAnimation.
Record t := mk {
  currentState : BridgeAnimationState;
  currentFrame : BridgeFrame;
  animationStartMs : Q;
  frameStartMs : Q;
  triggeredByPlayer : bool
}.
End BridgeAnimation.

Module BridgeState.
Record t := mk {
  rightBridge : BridgeAnimation.t;
  leftBridge : BridgeAnimation.t
}.
End BridgeState.

Inductive GameScreen := menu | lobby | playing | postgame.

Module Optimizations.
Record t := mk {
  aiThrottling : bool;
  combatBatching : bool;
  movementCaching : bool;
  regenThrottling : bool;
  winCheckThrottling : bool;
  deadUnitBatching : bool;
  spawnOptimization : bool
}.
End Optimizations.

Module LightingSettings.
Record t := mk {
  sunBrightness : Q;
  moonBrightness : Q;
  ambientLight : Q;
  dayNightSpeed : Q
}.
End LightingSettings.

(** The data of the zustand store ([Store = GameState & {...}]); its
    functions are the definitions below that take and return a [Store.t]. *)
Module Store.
Record t := mk {
  currentScreen : GameScreen;
  config : GameConfig.t;
  players : list Player.t;
  units : list Unit.t;
  lastSpawnAtMsByQueenId : gmap string Q;
  lastRegenAtMsByUnitId : gmap string Q;
  selectedAnimalPool : list AnimalId;
  localPlayerId : option string;
  matchStarted : bool;
  gameOver : bool;
  winner : option string;
  selectedUnitIds : list string;
  unitOrders : gmap string Position3D.t;
  queenPatrols : gmap string PatrolRoute.t;
  bridgeState : BridgeState.t;
  unitCountCache : gmap string (gmap AnimalId Z);
  spatialGrid : option SpatialGrid.t;
  lastRegenCheckMs : Q;
  tickCounter : Z;
  debugTickCount : option Z;
  aiThinkingOffset : gmap string Z;
  movementDirectionCache : gmap string Position3D.t;
  targetCache : gmap string string;
  lastWinCheckMs : Q;
  deadUnitsToRemove : list string;
  ultraPerformanceMode : bool;
  optimizations : Optimizations.t;
  isPaused : bool;
  lightingSettings : LightingSettings.t
}.
Definition set_units (v : list Unit.t) (r : t) : t :=
  mk (currentScreen r) (config r) (players r) v (lastSpawnAtMsByQueenId r)
    (lastRegenAtMsByUnitId r) (selectedAnimalPool r) (localPlayerId r) (matchStarted r)
    (gameOver r) (winner r) (selectedUnitIds r) (unitOrders r) (queenPatrols r)
    (bridgeState r) (unitCountCache r) (spatialGrid r) (lastRegenCheckMs r) (tickCounter r)
    (debugTickCount r) (aiThinkingOffset r) (movementDirectionCache r) (targetCache r)
    (lastWinCheckMs r) (deadUnitsToRemove r) (ultraPerformanceMode r) (optimizations r)
    (isPaused r) (lightingSettings r).
Definition set_lastSpawnAtMsByQueenId (v : gmap string Q) (r : t) : t :=
  mk (currentScreen r) (config r) (players r) (units r) v (lastRegenAtMsByUnitId r)
    (selectedAnimalPool r) (localPlayerId r) (matchStarted r) (gameOver r) (winner r)
    (selectedUnitIds r) (unitOrders r) (queenPatrols r) (bridgeState r) (unitCountCache r)
    (spatialGrid r) (lastRegenCheckMs r) (tickCounter r) (debugTickCount r)
    (aiThinkingOffset r) (movementDirectionCache r) (targetCache r) (lastWinCheckMs r)
    (deadUnitsToRemove r) (ultraPerformanceMode r) (optimizations r) (isPaused r)
    (lightingSettings r).
Definition set_lastRegenAtMsByUnitId (v : gmap string Q) (r : t) : t :=
  mk (currentScreen r) (config r) (players r) (units r) (lastSpawnAtMsByQueenId r) v
    (selectedAnimalPool r) (localPlayerId r) (matchStarted r) (gameOver r) (winner r)
    (selectedUnitIds r) (unitOrders r) (queenPatrols r) (bridgeState r) (unitCountCache r)
    (spatialGrid r) (lastRegenCheckMs r) (tickCounter r) (debugTickCount r)
    (aiThinkingOffset r) (movementDirectionCache r) (targetCache r) (lastWinCheckMs r)
    (deadUnitsToRemove r) (ultraPerformanceMode r) (optimizations r) (isPaused r)
    (lightingSettings r).
Definition set_gameOver (v : bool) (r : t) : t :=
  mk (currentScreen r) (config r) (players r) (units r) (lastSpawnAtMsByQueenId r)
    (lastRegenAtMsByUnitId r) (selectedAnimalPool r) (localPlayerId r) (matchStarted r) v
    (winner r) (selectedUnitIds r) (unitOrders r) (queenPatrols r) (bridgeState r)
    (unitCountCache r) (spatialGrid r) (lastRegenCheckMs r) (tickCounter r)
    (debugTickCount r) (aiThinkingOffset r) (movementDirectionCache r) (targetCache r)
    (lastWinCheckMs r) (deadUnitsToRemove r) (ultraPerformanceMode r) (optimizations r)
    (isPaused r) (lightingSettings r).
Definition set_winner (v : option string) (r : t) : t :=
  mk (currentScreen r) (config r) (players r) (units r) (lastSpawnAtMsByQueenId r)
    (lastRegenAtMsByUnitId r) (selectedAnimalPool r) (localPlayerId r) (matchStarted r)
    (gameOver r) v (selectedUnitIds r) (unitOrders r) (queenPatrols r) (bridgeState r)
    (unitCountCache r) (spatialGrid r) (lastRegenCheckMs r) (tickCounter r)
    (debugTickCount r) (aiThinkingOffset r) (movementDirectionCache r) (targetCache r)
    (lastWinCheckMs r) (deadUnitsToRemove r) (ultraPerformanceMode r) (optimizations r)
    (isPaused r) (lightingSettings r).
Definition set_unitOrders (v : gmap string Position3D.t) (r : t) : t :=
  mk (currentScreen r) (config r) (players r) (units r) (lastSpawnAtMsByQueenId r)
    (lastRegenAtMsByUnitId r) (selectedAnimalPool r) (localPlayerId r) (matchStarted r)
    (gameOver r) (winner r) (selectedUnitIds r) v (queenPatrols r) (bridgeState r)
    (unitCountCache r) (spatialGrid r) (lastRegenCheckMs r) (tickCounter r)
    (debugTickCount r) (aiThinkingOffset r) (movementDirectionCache r) (targetCache r)
    (lastWinCheckMs r) (deadUnitsToRemove r) (ultraPerformanceMode r) (optimizations r)
    (isPaused r) (lightingSettings r).
Definition set_queenPatrols (v : gmap string PatrolRoute.t) (r : t) : t :=
  mk (currentScreen r) (config r) (players r) (units r) (lastSpawnAtMsByQueenId r)
    (lastRegenAtMsByUnitId r) (selectedAnimalPool r) (localPlayerId r) (matchStarted r)
    (gameOver r) (winner r) (selectedUnitIds r) (unitOrders r) v (bridgeState r)
    (unitCountCache r) (spatialGrid r) (lastRegenCheckMs r) (tickCounter r)
    (debugTickCount r) (aiThinkingOffset r) (movementDirectionCache r) (targetCache r)
    (lastWinCheckMs r) (deadUnitsToRemove r) (ultraPerformanceMode r) (optimizations r)
    (isPaused r) (lightingSettings r).
Definition set_bridgeState (v : BridgeState.t) (r : t) : t :=
  mk (currentScreen r) (config r) (players r) (units r) (lastSpawnAtMsByQueenId r)
    (lastRegenAtMsByUnitId r) (selectedAnimalPool r) (localPlayerId r) (matchStarted r)
    (gameOver r) (winner r) (selectedUnitIds r) (unitOrders r) (queenPatrols r) v
    (unitCountCache r) (spatialGrid r) (lastRegenCheckMs r) (tickCounter r)
    (debugTickCount r) (aiThinkingOffset r) (movementDirectionCache r) (targetCache r)
    (lastWinCheckMs r) (deadUnitsToRemove r) (ultraPerformanceMode r) (optimizations r)
    (isPaused r) (lightingSettings r).
Definition set_unitCountCache (v : gmap string (gmap AnimalId Z)) (r : t) : t :=
  mk (currentScreen r) (config r) (players r) (units r) (lastSpawnAtMsByQueenId r)
    (lastRegenAtMsByUnitId r) (selectedAnimalPool r) (localPlayerId r) (matchStarted r)
    (gameOver r) (winner r) (selectedUnitIds r) (unitOrders r) (queenPatrols r)
    (bridgeState r) v (spatialGrid r) (lastRegenCheckMs r) (tickCounter r)
    (debugTickCount r) (aiThinkingOffset r) (movementDirectionCache r) (targetCache r)
    (lastWinCheckMs r) (deadUnitsToRemove r) (ultraPerformanceMode r) (optimizations r)
    (isPaused r) (lightingSettings r).
Definition set_spatialGrid (v : option SpatialGrid.t) (r : t) : t :=
  mk (currentScreen r) (config r) (players r) (units r) (lastSpawnAtMsByQueenId r)
    (lastRegenAtMsByUnitId r) (selectedAnimalPool r) (localPlayerId r) (matchStarted r)
    (gameOver r) (winner r) (selectedUnitIds r) (unitOrders r) (queenPatrols r)
    (bridgeState r) (unitCountCache r) v (lastRegenCheckMs r) (tickCounter r)
    (debugTickCount r) (aiThinkingOffset r) (movementDirectionCache r) (targetCache r)
    (lastWinCheckMs r) (deadUnitsToRemove r) (ultraPerformanceMode r) (optimizations r)
    (isPaused r) (lightingSettings r).
Definition set_tickCounter (v : Z) (r : t) : t :=
  mk (currentScreen r) (config r) (players r) (units r) (lastSpawnAtMsByQueenId r)
    (lastRegenAtMsByUnitId r) (selectedAnimalPool r) (localPlayerId r) (matchStarted r)
    (gameOver r) (winner r) (selectedUnitIds r) (unitOrders r) (queenPatrols r)
    (bridgeState r) (unitCountCache r) (spatialGrid r) (lastRegenCheckMs r) v
    (debugTickCount r) (aiThinkingOffset r) (movementDirectionCache r) (targetCache r)
    (lastWinCheckMs r) (deadUnitsToRemove r) (ultraPerformanceMode r) (optimizations r)
    (isPaused r) (lightingSettings r).
Definition set_debugTickCount (v : option Z) (r : t) : t :=
  mk (currentScreen r) (config r) (players r) (units r) (lastSpawnAtMsByQueenId r)
    (lastRegenAtMsByUnitId r) (selectedAnimalPool r) (localPlayerId r) (matchStarted r)
    (gameOver r) (winner r) (selectedUnitIds r) (unitOrders r) (queenPatrols r)
    (bridgeState r) (unitCountCache r) (spatialGrid r) (lastRegenCheckMs r) (tickCounter r)
    v (aiThinkingOffset r) (movementDirectionCache r) (targetCache r) (lastWinCheckMs r)
    (deadUnitsToRemove r) (ultraPerformanceMode r) (optimizations r) (isPaused r)
    (lightingSettings r).
Definition set_aiThinkingOffset (v : gmap string Z) (r : t) : t :=
  mk (currentScreen r) (config r) (players r) (units r) (lastSpawnAtMsByQueenId r)
    (lastRegenAtMsByUnitId r) (selectedAnimalPool r) (localPlayerId r) (matchStarted r)
    (gameOver r) (winner r) (selectedUnitIds r) (unitOrders r) (queenPatrols r)
    (bridgeState r) (unitCountCache r) (spatialGrid r) (lastRegenCheckMs r) (tickCounter r)
    (debugTickCount r) v (movementDirectionCache r) (targetCache r) (lastWinCheckMs r)
    (deadUnitsToRemove r) (ultraPerformanceMode r) (optimizations r) (isPaused r)
    (lightingSettings r).
Definition set_targetCache (v : gmap string string) (r : t) : t :=
  mk (currentScreen r) (config r) (players r) (units r) (lastSpawnAtMsByQueenId r)
    (lastRegenAtMsByUnitId r) (selectedAnimalPool r) (localPlayerId r) (matchStarted r)
    (gameOver r) (winner r) (selectedUnitIds r) (unitOrders r) (queenPatrols r)
    (bridgeState r) (unitCountCache r) (spatialGrid r) (lastRegenCheckMs r) (tickCounter r)
    (debugTickCount r) (aiThinkingOffset r) (movementDirectionCache r) v (lastWinCheckMs r)
    (deadUnitsToRemove r) (ultraPerformanceMode r) (optimizations r) (isPaused r)
    (lightingSettings r).
Definition set_lastWinCheckMs (v : Q) (r : t) : t :=
  mk (currentScreen r) (config r) (players r) (units r) (lastSpawnAtMsByQueenId r)
    (lastRegenAtMsByUnitId r) (selectedAnimalPool r) (localPlayerId r) (matchStarted r)
    (gameOver r) (winner r) (selectedUnitIds r) (unitOrders r) (queenPatrols r)
    (bridgeState r) (unitCountCache r) (spatialGrid r) (lastRegenCheckMs r) (tickCounter r)
    (debugTickCount r) (aiThinkingOffset r) (movementDirectionCache r) (targetCache r) v
    (deadUnitsToRemove r) (ultraPerformanceMode r) (optimizations r) (isPaused r)
    (lightingSettings r).
Definition set_deadUnitsToRemove (v : list string) (r : t) : t :=
  mk (currentScreen r) (config r) (players r) (units r) (lastSpawnAtMsByQueenId r)
    (lastRegenAtMsByUnitId r) (selectedAnimalPool r) (localPlayerId r) (matchStarted r)
    (gameOver r) (winner r) (selectedUnitIds r) (unitOrders r) (queenPatrols r)
    (bridgeState r) (unitCountCache r) (spatialGrid r) (lastRegenCheckMs r) (tickCounter r)
    (debugTickCount r) (aiThinkingOffset r) (movementDirectionCache r) (targetCache r)
    (lastWinCheckMs r) v (ultraPerformanceMode r) (optimizations r) (isPaused r)
    (lightingSettings r).
Definition set_selectedUnitIds (v : list string) (r : t) : t :=
  mk (currentScreen r) (config r) (players r) (units r) (lastSpawnAtMsByQueenId r)
    (lastRegenAtMsByUnitId r) (selectedAnimalPool r) (localPlayerId r) (matchStarted r)
    (gameOver r) (winner r) v (unitOrders r) (queenPatrols r) (bridgeState r)
    (unitCountCache r) (spatialGrid r) (lastRegenCheckMs r) (tickCounter r)
    (debugTickCount r) (aiThinkingOffset r) (movementDirectionCache r) (targetCache r)
    (lastWinCheckMs r) (deadUnitsToRemove r) (ultraPerformanceMode r) (optimizations r)
    (isPaused r) (lightingSettings r).
End Store.

(** ** What lies outside the store *)

(** [Math.sqrt], [Math.cos], [Math.sin], [Math.atan2], [Math.PI]. *)
Module MathLib.
Record t := mk {
  sqrt : Q → Q;
  cos : Q → Q;
  sin : Q → Q;
  atan2 : Q → Q → Q;
  PI : Q
}.
End MathLib.

(** The key of the module-level [distanceCache]: the six coordinates
    rounded to one decimal, [Math.round(c * 10) / 10], kept as the integers
    [Math.round(c * 10)]. *)
Definition CacheKey : Type := Z * Z * Z * Z * Z * Z.

(** The sources [Math.random()], [Date.now()] and [nanoid()] read as
    streams (the next call returns the value at index 0), and the
    module-level [distanceCache]. *)
Module World.
Record t := mk {
  random : nat → Q;
  now : nat → Q;
  nanoid : nat → string;
  distanceCache : gmap CacheKey Q
}.
Definition nextRandom (w : t) : Q * t :=
  (random w 0%nat, mk (fun n => random w (S n)) (now w) (nanoid w) (distanceCache w)).
Definition nextNow (w : t) : Q * t :=
  (now w 0%nat, mk (random w) (fun n => now w (S n)) (nanoid w) (distanceCache w)).
Definition nextId (w : t) : string * t :=
  (nanoid w 0%nat, mk (random w) (now w) (fun n => nanoid w (S n)) (distanceCache w)).
Definition set_distanceCache (v : gmap CacheKey Q) (w : t) : t :=
  mk (random w) (now w) (nanoid w) v.
End World.

(** ** Species table and unit constructors *)

Module Stats.
Record t := mk { baseHp : Q; dmg : Q; speed : Q }.
End Stats.

Definition ANIMALS (animal : AnimalId) : Stats.t :=
  match animal with
  | Bee => Stats.mk 60 10 (204 # 10)
  | Bear => Stats.mk 220 40 (816 # 100)
  | Bunny => Stats.mk 75 9 (1836 # 100)
  | Chicken => Stats.mk 70 8 (1904 # 100)
  | Cat => Stats.mk 90 12 (1632 # 100)
  | Dolphin => Stats.mk 110 18 (136 # 10)
  | Fox => Stats.mk 140 20 (1428 # 100)
  | Frog => Stats.mk 80 10 (1768 # 100)
  | Owl => Stats.mk 100 16 (1496 # 100)
  | Pig => Stats.mk 160 18 (1224 # 100)
  | Turtle => Stats.mk 240 24 (68 # 10)
  | Yetti => Stats.mk 260 30 (748 # 100)
  end.

Definition baseStats (animal : AnimalId) : Stats.t := ANIMALS animal.

(** The object literal shared by the four constructors: the optional
    fields are absent. *)
Definition newUnit (id ownerId : string) (animal : AnimalId) (kind : UnitKind)
    (position : Position3D.t) (hp attackDamage moveSpeed rotation : Q) : Unit.t :=
  Unit.mk id ownerId animal kind position hp hp attackDamage moveSpeed 1500 0 rotation
    None None None None None None None None None None None None None None.

Definition createBase (ownerId : string) (animal : AnimalId) (position : Position3D.t)
    (rotation : Q) (w : World.t) : Unit.t * World.t :=
  let stats := baseStats animal in
  let '(id, w) := World.nextId w in
  (newUnit id ownerId animal KBase position (Stats.baseHp stats * 8) 0 0 rotation, w).

Definition createQueen (ownerId : string) (animal : AnimalId) (position : Position3D.t)
    (rotation : Q) (w : World.t) : Unit.t * World.t :=
  let stats := baseStats animal in
  let '(id, w) := World.nextId w in
  (newUnit id ownerId animal KQueen position (Stats.baseHp stats * 2) (Stats.dmg stats)
     (Stats.speed stats * (153 # 100)) rotation, w).

Definition createKing (ownerId : string) (animal : AnimalId) (position : Position3D.t)
    (rotation : Q) (w : World.t) : Unit.t * World.t :=
  let stats := baseStats animal in
  let '(id, w) := World.nextId w in
  (newUnit id ownerId animal KKing position (Stats.baseHp stats * 3) (Stats.dmg stats * 3)
     (Stats.speed stats * (85 # 100)) rotation, w).

Definition createUnit (ownerId : string) (animal : AnimalId) (position : Position3D.t)
    (rotation : Q) (w : World.t) : Unit.t * World.t :=
  let stats := baseStats animal in
  let '(id, w) := World.nextId w in
  (newUnit id ownerId animal KUnit position (Stats.baseHp stats) (Stats.dmg stats)
     (Stats.speed stats) rotation, w).

(** ** Vector helpers *)

Definition distanceSquared3D (a b : Position3D.t) : Q := distanceSquared a b.

Definition subtract3D (a b : Position3D.t) : Position3D.t :=
  Position3D.mk (Position3D.x a - Position3D.x b) (Position3D.y a - Position3D.y b)
    (Position3D.z a - Position3D.z b).

Definition getCacheKey (a b : Position3D.t) : CacheKey :=
  (Math_round (Position3D.x a * 10), Math_round (Position3D.y a * 10),
   Math_round (Position3D.z a * 10), Math_round (Position3D.x b * 10),
   Math_round (Position3D.y b * 10), Math_round (Position3D.z b * 10)).

Definition CACHE_SIZE_LIMIT : nat := 1000.

(** [findClosestEnemy(unit, all)] of [state.ts]: the first unit of another
    owner at the least squared distance. *)
Definition findClosestEnemy (unit : Unit.t) (all : list Unit.t) : option nat :=
  fst <$> fold_left (fun best io =>
      let other := snd io in
      if String.eqb (Unit.ownerId other) (Unit.ownerId unit) then best
      else
        let dSq := distanceSquared3D (Unit.position unit) (Unit.position other) in
        match best with
        | Some (_, bestDistSq) => if Qltb dSq bestDistSq then Some (fst io, dSq) else best
        | None => Some (fst io, dSq)
        end)
    (indexed all) None.

(** [refs.reduce((closest, enemy) => dist(enemy) < dist(closest) ? enemy : closest)]
    on a non-empty list of references. *)
Definition closestRef (heap : list Unit.t) (from : Position3D.t) (refs : list nat)
    : option nat :=
  let dist ref :=
    from_option (fun u => distanceSquared3D from (Unit.position u)) 0 (heap !! ref) in
  match refs with
  | [] => None
  | first :: rest =>
      Some (fold_left (fun closest enemy =>
              if Qltb (dist enemy) (dist closest) then enemy else closest) rest first)
  end.

(** [units.find(u => u.id === id)] as a reference. *)
Definition findById (units : list Unit.t) (id : string) : option nat :=
  fst <$> List.find (fun iu => String.eqb (Unit.id (snd iu)) id) (indexed units).

Definition findPlayer (players : list Player.t) (id : string) : option Player.t :=
  List.find (fun p => String.eqb (Player.id p) id) players.

(** ** The separation resolver, the win check and the bridges *)

(** The state of the loop of [checkCollision] over [nearbyUnits]. *)
Module Push.
Record t := mk {
  adjustedPosition : Position3D.t;
  hasCollision : bool;
  world : World.t
}.
End Push.

Section Resolver.
Variable M : MathLib.t.

Definition normalize3D (vec : Position3D.t) : Position3D.t :=
  let length :=
    MathLib.sqrt M (Position3D.x vec * Position3D.x vec + Position3D.y vec * Position3D.y vec
                    + Position3D.z vec * Position3D.z vec) in
  if Qeq_bool length 0 then Position3D.mk 0 0 0
  else Position3D.mk (Position3D.x vec / length) (Position3D.y vec / length)
         (Position3D.z vec / length).

(** The memoized [distance3D] of [state.ts]: a hit returns the stored
    distance of the rounded positions; a miss computes, clears a full
    cache, and stores. *)
Definition distance3D (a b : Position3D.t) (w : World.t) : Q * World.t :=
  let cacheKey := getCacheKey a b in
  match World.distanceCache w !! cacheKey with
  | Some distance => (distance, w)
  | None =>
      let distance := MathLib.sqrt M (distanceSquared a b) in
      let cache :=
        if (CACHE_SIZE_LIMIT <=? size (World.distanceCache w))%nat then ∅
        else World.distanceCache w in
      (distance, World.set_distanceCache (<[cacheKey := distance]> cache) w)
  end.

Definition minimumDistance : Q := 5 # 2.

(** One iteration of the loop of [checkCollision]. *)
Definition pushAway (currentUnit : Unit.t) (selectedUnitIds : list string)
    (localPlayerId : option string) (st : Push.t) (other : Unit.t) : Push.t :=
  let adjustedPosition := Push.adjustedPosition st in
  let isCurrentUnitSelected := bool_decide (Unit.id currentUnit ∈ selectedUnitIds) in
  let isCurrentUnitPlayer := bool_decide (Some (Unit.ownerId currentUnit) = localPlayerId) in
  let isOtherUnitPlayer := bool_decide (Some (Unit.ownerId other) = localPlayerId) in
  let isOtherUnitSelected := bool_decide (Unit.id other ∈ selectedUnitIds) in
  let shouldReduceCollision :=
    isCurrentUnitSelected && isCurrentUnitPlayer && isOtherUnitPlayer
    && negb isOtherUnitSelected in
  let dx := Position3D.x adjustedPosition - Position3D.x (Unit.position other) in
  let dz := Position3D.z adjustedPosition - Position3D.z (Unit.position other) in
  let distanceSquared := dx * dx + dz * dz in
  let isEnemy := negb (String.eqb (Unit.ownerId currentUnit) (Unit.ownerId other)) in
  let isFriendly := String.eqb (Unit.ownerId currentUnit) (Unit.ownerId other) in
  if isEnemy && Qle_bool distanceSquared 4 then st
  else
    let minimumDistanceSquared := minimumDistance * minimumDistance in
    if Qltb distanceSquared minimumDistanceSquared then
      let distance := MathLib.sqrt M distanceSquared in
      let '(pushDirectionX, pushDirectionZ, w) :=
        if Qltb distance (1 # 1000) then
          let '(r, w) := World.nextRandom (Push.world st) in
          let randomAngle := r * MathLib.PI M * 2 in
          (MathLib.cos M randomAngle, MathLib.sin M randomAngle, w)
        else
          let invDistance := 1 / distance in
          (dx * invDistance, dz * invDistance, Push.world st) in
      if isFriendly then
        let pushStrength := if shouldReduceCollision then 1 # 5 else 1 # 2 in
        let pushDistance := (minimumDistance - distance) * pushStrength in
        Push.mk
          (Position3D.mk (Position3D.x adjustedPosition + pushDirectionX * pushDistance)
             (Position3D.y adjustedPosition)
             (Position3D.z adjustedPosition + pushDirectionZ * pushDistance))
          (Push.hasCollision st) w
      else
        let pushDistance := minimumDistance - distance + (1 # 5) in
        Push.mk
          (Position3D.mk (Position3D.x adjustedPosition + pushDirectionX * pushDistance)
             (Position3D.y adjustedPosition)
             (Position3D.z adjustedPosition + pushDirectionZ * pushDistance))
          true w
    else st.

(** [nearbyUnits]: the other non-Base units, restricted to a square
    distance of [(3 * collisionRadius)^2] from the tentative position when
    the array holds more than 50 units. *)
Definition nearbyUnits (newPosition : Position3D.t) (currentUnit : Unit.t)
    (allUnits : list Unit.t) (collisionRadius : Q) : list Unit.t :=
  if (50 <? length allUnits)%nat then
    let checkRadius := collisionRadius * 3 in
    List.filter (fun other =>
      if String.eqb (Unit.id other) (Unit.id currentUnit)
         || bool_decide (Unit.kind other = KBase) then false
      else
        let dx := Position3D.x (Unit.position other) - Position3D.x newPosition in
        let dz := Position3D.z (Unit.position other) - Position3D.z newPosition in
        Qle_bool (dx * dx + dz * dz) (checkRadius * checkRadius)) allUnits
  else
    List.filter (fun other =>
      negb (String.eqb (Unit.id other) (Unit.id currentUnit))
      && negb (bool_decide (Unit.kind other = KBase))) allUnits.

(** [checkCollision]: the adjusted position, the current unit with its
    collision bookkeeping updated, and the world. *)
Definition checkCollision (newPosition : Position3D.t) (currentUnit : Unit.t)
    (allUnits : list Unit.t) (collisionRadius : Q) (selectedUnitIds : list string)
    (localPlayerId : option string) (unitOrders : gmap string Position3D.t)
    (w : World.t) : Position3D.t * Unit.t * World.t :=
  let isCurrentUnitPlayer := bool_decide (Some (Unit.ownerId currentUnit) = localPlayerId) in
  let st :=
    fold_left (pushAway currentUnit selectedUnitIds localPlayerId)
      (nearbyUnits newPosition currentUnit allUnits collisionRadius)
      (Push.mk newPosition false w) in
  let w := Push.world st in
  if Push.hasCollision st then
    let attempts := (default 0 (Unit.collisionAttempts currentUnit) + 1)%Z in
    let hasActiveOrder := bool_decide (is_Some (unitOrders !! Unit.id currentUnit)) in
    let isPlayerWithOrder := isCurrentUnitPlayer && hasActiveOrder in
    let pauseThreshold := if isPlayerWithOrder then 8%Z else 5%Z in
    let pauseDuration : Q := if isPlayerWithOrder then 100 else 200 in
    if (pauseThreshold <=? attempts)%Z then
      let '(dateNow, w) := World.nextNow w in
      (Push.adjustedPosition st,
       Unit.set_collisionAttempts (Some 0%Z)
         (Unit.set_movementPausedUntilMs (Some (dateNow + pauseDuration)) currentUnit),
       w)
    else
      (Push.adjustedPosition st, Unit.set_collisionAttempts (Some attempts) currentUnit, w)
  else
    (Push.adjustedPosition st, Unit.set_collisionAttempts (Some 0%Z) currentUnit, w).

End Resolver.

(** [checkWinConditions]: the two loops with their [break]s. *)

Definition holdsKind (units : list Unit.t) (ownerId : string) (kind : UnitKind)
    : list Unit.t :=
  List.filter (fun u => String.eqb (Unit.ownerId u) ownerId
                        && bool_decide (Unit.kind u = kind)) units.

Fixpoint allEnemiesDefeated (units : list Unit.t) (enemyIds : list string) : bool :=
  match enemyIds with
  | [] => true
  | enemyId :: rest =>
      let enemyBases := holdsKind units enemyId KBase in
      let enemyKings := holdsKind units enemyId KKing in
      let enemyQueens := holdsKind units enemyId KQueen in
      if (0 <? length enemyBases)%nat || (0 <? length enemyKings)%nat
         || (0 <? length enemyQueens)%nat
      then false
      else allEnemiesDefeated units rest
  end.

Definition enemiesOf (playerIds : list string) (playerId : string) : list string :=
  List.filter (fun id => negb (String.eqb id playerId)) playerIds.

Fixpoint findWinner (units : list Unit.t) (playerIds : list string)
    (remaining : list string) : option string :=
  match remaining with
  | [] => None
  | playerId :: rest =>
      if allEnemiesDefeated units (enemiesOf playerIds playerId) then Some playerId
      else findWinner units playerIds rest
  end.

Definition checkWinConditions (draft : Store.t) : Store.t :=
  let playerIds := map Player.id (Store.players draft) in
  match findWinner (Store.units draft) playerIds playerIds with
  | Some playerId => Store.set_winner (Some playerId) (Store.set_gameOver true draft)
  | None => draft
  end.

(** The bridges ([updateBridgeAnimations]). *)

Definition FRAME_DURATION : Q := 1000.

Definition updateSingleBridgeAnimation (bridge : BridgeAnimation.t) (isPlayerInZone : bool)
    (nowMs : Q) : BridgeAnimation.t :=
  match BridgeAnimation.currentState bridge with
  | up =>
      if isPlayerInZone && negb (BridgeAnimation.triggeredByPlayer bridge)
      then BridgeAnimation.mk lowering (BridgeAnimation.currentFrame bridge) nowMs nowMs true
      else bridge
  | lowering =>
      let loweringElapsed := nowMs - BridgeAnimation.frameStartMs bridge in
      if Qgeb loweringElapsed FRAME_DURATION then
        match BridgeAnimation.currentFrame bridge with
        | Fully_Up =>
            BridgeAnimation.mk lowering Almost_Up (BridgeAnimation.animationStartMs bridge)
              nowMs (BridgeAnimation.triggeredByPlayer bridge)
        | Almost_Up =>
            BridgeAnimation.mk lowering Almost_Down (BridgeAnimation.animationStartMs bridge)
              nowMs (BridgeAnimation.triggeredByPlayer bridge)
        | Almost_Down =>
            BridgeAnimation.mk down Fully_Down (BridgeAnimation.animationStartMs bridge)
              nowMs (BridgeAnimation.triggeredByPlayer bridge)
        | Fully_Down => bridge
        end
      else bridge
  | down =>
      if negb isPlayerInZone
      then BridgeAnimation.mk raising (BridgeAnimation.currentFrame bridge) nowMs nowMs false
      else bridge
  | raising =>
      let raisingElapsed := nowMs - BridgeAnimation.frameStartMs bridge in
      if Qgeb raisingElapsed FRAME_DURATION then
        match BridgeAnimation.currentFrame bridge with
        | Fully_Down =>
            BridgeAnimation.mk raising Almost_Down (BridgeAnimation.animationStartMs bridge)
              nowMs (BridgeAnimation.triggeredByPlayer bridge)
        | Almost_Down =>
            BridgeAnimation.mk raising Almost_Up (BridgeAnimation.animationStartMs bridge)
              nowMs (BridgeAnimation.triggeredByPlayer bridge)
        | Almost_Up =>
            BridgeAnimation.mk up Fully_Up (BridgeAnimation.animationStartMs bridge)
              nowMs (BridgeAnimation.triggeredByPlayer bridge)
        | Fully_Up => bridge
        end
      else bridge
  end.

Definition TRIGGER_RADIUS : Q := 10.

(** [Math.sqrt(Math.pow(x - zx, 2) + Math.pow(z - zz, 2)) <= TRIGGER_RADIUS] *)
Definition inTriggerZone (zoneX zoneZ : Q) (unit : Unit.t) : bool :=
  let dx := Position3D.x (Unit.position unit) - zoneX in
  let dz := Position3D.z (Unit.position unit) - zoneZ in
  sqrt_le (dx * dx + dz * dz) TRIGGER_RADIUS.

Definition updateBridgeAnimations (draft : Store.t) (nowMs : Q) : Store.t :=
  let playerUnits :=
    List.filter (fun unit =>
      bool_decide (Some (Unit.ownerId unit) = Store.localPlayerId draft)
      && (bool_decide (Unit.kind unit = KKing) || bool_decide (Unit.kind unit = KQueen)))
      (Store.units draft) in
  let isPlayerInRightZone := existsb (inTriggerZone 15 0) playerUnits in
  let isPlayerInLeftZone := existsb (inTriggerZone (-15) 0) playerUnits in
  Store.set_bridgeState
    (BridgeState.mk
       (updateSingleBridgeAnimation (BridgeState.rightBridge (Store.bridgeState draft))
          isPlayerInRightZone nowMs)
       (updateSingleBridgeAnimation (BridgeState.leftBridge (Store.bridgeState draft))
          isPlayerInLeftZone nowMs))
    draft.

(** ** Commands *)

Module CommandMoveUnits.
Record t := mk { unitIds : list string; target : Position3D.t }.
End CommandMoveUnits.

Module CommandSetPatrol.
Record t := mk {
  queenId : string;
  startPosition : Position3D.t;
  endPosition : Position3D.t
}.
End CommandSetPatrol.

(** In-place update of the unit behind a reference. *)
Definition modUnit (ref : nat) (f : Unit.t → Unit.t) (draft : Store.t) : Store.t :=
  Store.set_units (alter f ref (Store.units draft)) draft.

(** The body of the loop of [moveCommand] for one id. *)
Definition moveCommandOne (target : Position3D.t) (draft : Store.t) (id : string)
    : Store.t :=
  match findById (Store.units draft) id with
  | None => draft
  | Some ref =>
      match Store.units draft !! ref with
      | None => draft
      | Some u =>
          if negb (bool_decide (Some (Unit.ownerId u) = Store.localPlayerId draft))
          then draft
          else
            let draft := Store.set_unitOrders (<[id := target]> (Store.unitOrders draft)) draft in
            modUnit ref (fun u =>
              Unit.set_firstBlockedAtMs None
                (Unit.set_movementPausedUntilMs None
                   (Unit.set_collisionAttempts (Some 0%Z)
                      (Unit.set_priorityAttacker None
                         (Unit.set_lastCombatEngagementMs None
                            (Unit.set_lastCombatTargetId None
                               (Unit.set_arrivedAtDestinationMs None
                                  (Unit.set_unitState (Some moving_to_order) u))))))))
              draft
      end
  end.

Definition moveCommand (cmd : CommandMoveUnits.t) (prev : Store.t) : Store.t :=
  fold_left (moveCommandOne (CommandMoveUnits.target cmd)) (CommandMoveUnits.unitIds cmd) prev.

Definition setPatrol (cmd : CommandSetPatrol.t) (prev : Store.t) : Store.t :=
  match findById (Store.units prev) (CommandSetPatrol.queenId cmd) with
  | None => prev
  | Some ref =>
      match Store.units prev !! ref with
      | None => prev
      | Some queen =>
          if negb (bool_decide (Some (Unit.ownerId queen) = Store.localPlayerId prev))
             || negb (bool_decide (Unit.kind queen = KQueen))
          then prev
          else
            let draft :=
              Store.set_queenPatrols
                (<[CommandSetPatrol.queenId cmd :=
                     PatrolRoute.mk (CommandSetPatrol.startPosition cmd)
                       (CommandSetPatrol.endPosition cmd) patrol_end]>
                   (Store.queenPatrols prev)) prev in
            Store.set_unitOrders
              (delete (CommandSetPatrol.queenId cmd) (Store.unitOrders draft)) draft
      end
  end.

Definition selectUnits (unitIds : list string) (prev : Store.t) : Store.t :=
  Store.set_selectedUnitIds unitIds prev.

Definition clearSelection (prev : Store.t) : Store.t :=
  Store.set_selectedUnitIds [] prev.

(** ** The tick *)

(** An entry of [combatPairs]: references to the attacker and the target,
    and the damage read from the attacker when the pair was queued. *)
Module CombatPair.
Record t := mk { attacker : nat; target : nat; damage : Q }.
End CombatPair.

(** What the body of [tick] works on: the immer draft, the world outside
    the store and the local [combatPairs].  (The local set
    [unitsUnderAttack] and the [playerUnits]/[aiUnits] categories are only
    written, never read, and [console.log] has no effect on the state:
    they are left out.) *)
Module Ctx.
Record t := mk {
  draft : Store.t;
  world : World.t;
  combatPairs : list CombatPair.t
}.
Definition mapDraft (f : Store.t → Store.t) (c : t) : t :=
  mk (f (draft c)) (world c) (combatPairs c).
Definition set_world (w : World.t) (c : t) : t := mk (draft c) w (combatPairs c).
Definition pushPair (pair : CombatPair.t) (c : t) : t :=
  mk (draft c) (world c) (combatPairs c ++ [pair]).
Definition units (c : t) : list Unit.t := Store.units (draft c).
End Ctx.

(** [unit.f = v] on the unit behind [ref]. *)
Definition setU (ref : nat) (f : Unit.t → Unit.t) (c : Ctx.t) : Ctx.t :=
  Ctx.mapDraft (modUnit ref f) c.

(** The current value of the unit behind [ref] ([fallback] is never used:
    the references of a tick stay valid until the dead are removed). *)
Definition unitOf (c : Ctx.t) (ref : nat) (fallback : Unit.t) : Unit.t :=
  default fallback (Ctx.units c !! ref).

(** The categories of the single pass over the units. *)
Module Categories.
Record t := mk {
  queens : list nat;
  unitsNeedingHealing : list nat;
  movableUnits : list nat
}.
End Categories.

Definition categorize (units : list Unit.t) : Categories.t :=
  let refsWhere (p : Unit.t → bool) :=
    map fst (List.filter (fun iu => p (snd iu)) (indexed units)) in
  Categories.mk
    (refsWhere (fun unit => bool_decide (Unit.kind unit = KQueen)))
    (refsWhere (fun unit => Qltb (Unit.hp unit) (Unit.maxHp unit)))
    (refsWhere (fun unit => negb (bool_decide (Unit.kind unit = KBase)))).

(** [newUnitCountCache]: per owner and species, the number of units of
    kind ['Unit']. *)
Definition countUnit (cache : gmap string (gmap AnimalId Z)) (unit : Unit.t)
    : gmap string (gmap AnimalId Z) :=
  if bool_decide (Unit.kind unit = KUnit) then
    let perOwner := default ∅ (cache !! Unit.ownerId unit) in
    <[Unit.ownerId unit :=
        <[Unit.animal unit := (default 0 (perOwner !! Unit.animal unit) + 1)%Z]> perOwner]>
      cache
  else cache.

Definition newUnitCountCache (units : list Unit.t) : gmap string (gmap AnimalId Z) :=
  fold_left countUnit units ∅.

Definition REGEN_INTERVAL_MS : Q := 3000.
Definition REGEN_AMOUNT : Q := 1.
Definition REGEN_CHECK_FREQUENCY : Z := 3.

(** The body of the regeneration loop for one unit. *)
Definition regenOne (nowMs : Q) (draft : Store.t) (ref : nat) : Store.t :=
  match Store.units draft !! ref, Store.spatialGrid draft with
  | Some unit, Some grid =>
      if Qle_bool (Unit.hp unit) 0 then draft
      else
        let lastRegenTime := default 0 (Store.lastRegenAtMsByUnitId draft !! Unit.id unit) in
        if Qltb (nowMs - lastRegenTime) REGEN_INTERVAL_MS then draft
        else
          let nearbyQueens :=
            SpatialGrid.findNearbyQueens (Store.units draft) grid unit
              (GameConfig.regenRadius (Store.config draft)) in
          if (0 <? length nearbyQueens)%nat then
            Store.set_lastRegenAtMsByUnitId
              (<[Unit.id unit := nowMs]> (Store.lastRegenAtMsByUnitId draft))
              (modUnit ref
                 (Unit.set_hp (Math_min (Unit.maxHp unit) (Unit.hp unit + REGEN_AMOUNT)))
                 draft)
          else draft
  | _, _ => draft
  end.

Definition regenerate (nowMs : Q) (unitsNeedingHealing : list nat) (draft : Store.t)
    : Store.t :=
  if negb (Optimizations.regenThrottling (Store.optimizations draft))
     || (Z.rem (Store.tickCounter draft) REGEN_CHECK_FREQUENCY =? 0)%Z
  then fold_left (regenOne nowMs) (take 30 unitsNeedingHealing) draft
  else draft.

Section Tick.
Variable M : MathLib.t.
Variables (dtSec nowMs : Q).

(** *** Production *)

Definition presetAngles : list Q :=
  let PI := MathLib.PI M in
  [0; PI / 4; PI / 2; 3 * PI / 4; PI; 5 * PI / 4; 3 * PI / 2; 7 * PI / 4].

(** The body of the spawn loop for one Queen. *)
Definition spawnOne (c : Ctx.t) (ref : nat) : Ctx.t :=
  match Ctx.units c !! ref with
  | None => c
  | Some q =>
      let draft := Ctx.draft c in
      let last := default 0 (Store.lastSpawnAtMsByQueenId draft !! Unit.id q) in
      if Qgeb (nowMs - last) (GameConfig.spawnIntervalMs (Store.config draft)) then
        let existingCount :=
          default 0%Z (default ∅ (Store.unitCountCache draft !! Unit.ownerId q)
                         !! Unit.animal q) in
        let c :=
          if (existingCount <? 20)%Z then
            let spawnIndex := Z.rem existingCount 8 in
            let angle := default 0 (presetAngles !! Z.to_nat spawnIndex) in
            let distance : Q := 5 # 2 in
            let tentativeSpawnPos :=
              Position3D.mk (Position3D.x (Unit.position q) + MathLib.cos M angle * distance)
                0 (Position3D.z (Unit.position q) + MathLib.sin M angle * distance) in
            let isPlayerUnit := bool_decide (Some (Unit.ownerId q) = Store.localPlayerId draft) in
            let initialRotation := if isPlayerUnit then MathLib.PI M else 0 in
            let '(tempUnit, w) :=
              createUnit (Unit.ownerId q) (Unit.animal q) tentativeSpawnPos initialRotation
                (Ctx.world c) in
            let '(finalSpawnPos, tempUnit, w) :=
              checkCollision M tentativeSpawnPos tempUnit (Store.units draft) (5 # 2)
                (Store.selectedUnitIds draft) (Store.localPlayerId draft)
                (Store.unitOrders draft) w in
            let tempUnit := Unit.set_position finalSpawnPos tempUnit in
            Ctx.mk (Store.set_units (Store.units draft ++ [tempUnit]) draft) w
              (Ctx.combatPairs c)
          else c in
        Ctx.mapDraft (fun draft =>
          Store.set_lastSpawnAtMsByQueenId
            (<[Unit.id q := nowMs]> (Store.lastSpawnAtMsByQueenId draft)) draft) c
      else c
  end.

Definition spawn (queens : list nat) (c : Ctx.t) : Ctx.t := fold_left spawnOne queens c.

(** *** Movement helpers of the behavior pass *)

(** [{ x: unit.x + direction.x * moveDistance, y: unit.y, z: unit.z + direction.z * moveDistance }] *)
Definition stepFrom (position direction : Position3D.t) (moveDistance : Q) : Position3D.t :=
  Position3D.mk (Position3D.x position + Position3D.x direction * moveDistance)
    (Position3D.y position)
    (Position3D.z position + Position3D.z direction * moveDistance).

(** [unit.position = checkCollision(newPosition, unit, draft.units, 2.5, ...)] *)
Definition moveResolved (ref : nat) (newPosition : Position3D.t) (c : Ctx.t) : Ctx.t :=
  match Ctx.units c !! ref with
  | None => c
  | Some unit =>
      let draft := Ctx.draft c in
      let '(position, unit, w) :=
        checkCollision M newPosition unit (Store.units draft) (5 # 2)
          (Store.selectedUnitIds draft) (Store.localPlayerId draft)
          (Store.unitOrders draft) (Ctx.world c) in
      Ctx.set_world w (setU ref (fun _ => Unit.set_position position unit) c)
  end.

(** The hop animation of Frogs and Bunnies while moving. *)
Definition hop (unit : Unit.t) : Unit.t :=
  if bool_decide (Unit.animal unit = Frog) || bool_decide (Unit.animal unit = Bunny) then
    let hopSpeed := Unit.moveSpeed unit / 5 in
    Unit.set_hopPhase (Some (rem1 (default 0 (Unit.hopPhase unit) + hopSpeed * dtSec)))
      (Unit.set_isHopping (Some true) unit)
  else Unit.set_isHopping (Some false) unit.

(** [o && nowMs - o < bound] for an optional timestamp. *)
Definition recentlyQ (o : option Q) (bound : Q) : bool :=
  match o with
  | Some t => truthyQ t && Qltb (nowMs - t) bound
  | None => false
  end.

(** [unit.movementPausedUntilMs && nowMs < unit.movementPausedUntilMs && !isInRecentCombat] *)
Definition movementPaused (unit : Unit.t) : bool :=
  let isInRecentCombat := recentlyQ (Unit.lastCombatEngagementMs unit) 2000 in
  match Unit.movementPausedUntilMs unit with
  | Some t => truthyQ t && Qltb nowMs t && negb isInRecentCombat
  | None => false
  end.

(** Re-engaging the last combat target: same id still present, of another
    owner, alive and within squared distance 100. *)
Definition lastTargetInReach (units : list Unit.t) (unit : Unit.t) : option nat :=
  match Unit.lastCombatTargetId unit with
  | Some id =>
      match findById units id with
      | Some ref =>
          match units !! ref with
          | Some lastTarget =>
              if negb (String.eqb (Unit.ownerId lastTarget) (Unit.ownerId unit))
                 && Qgtb (Unit.hp lastTarget) 0
                 && Qle_bool (distanceSquared3D (Unit.position unit)
                                (Unit.position lastTarget)) 100
              then Some ref else None
          | None => None
          end
      | None => None
      end
  | None => None
  end.

(** The focus target of an AI unit: the last combat target while it is of
    another owner, alive and at most 50 away. *)
Definition focusTarget (units : list Unit.t) (unit : Unit.t) : option nat :=
  match Unit.lastCombatTargetId unit with
  | Some id =>
      if truthyS id then
        match findById units id with
        | Some ref =>
            match units !! ref with
            | Some focus =>
                if negb (String.eqb (Unit.ownerId focus) (Unit.ownerId unit))
                   && Qgtb (Unit.hp focus) 0
                   && sqrt_le (distanceSquared3D (Unit.position unit) (Unit.position focus)) 50
                then Some ref else None
            | None => None
            end
        | None => None
        end
      else None
  | None => None
  end.

(** The closest enemy the grid reports within [range]. *)
Definition closestEnemyInRange (draft : Store.t) (unit : Unit.t) (range : Q) : option nat :=
  match Store.spatialGrid draft with
  | Some grid =>
      closestRef (Store.units draft) (Unit.position unit)
        (SpatialGrid.findEnemiesInRange (Store.units draft) grid unit range)
  | None => None
  end.

(** *** Behavior of a unit of a human player *)

(** Priority 1: the unit has a movement order. *)
Definition playerOrder (ref : nat) (unit0 : Unit.t) (order : Position3D.t) (c : Ctx.t)
    : Ctx.t * option nat :=
  let id := Unit.id unit0 in
  let c := setU ref (Unit.set_unitState (Some moving_to_order)) c in
  let unit := unitOf c ref unit0 in
  let '(distanceToOrder, w) := distance3D M (Unit.position unit) order (Ctx.world c) in
  let c := Ctx.set_world w c in
  let isMovementPaused := movementPaused unit in
  let isCurrentlyBlocked :=
    isMovementPaused
    || match Unit.collisionAttempts unit with
       | Some n => truthyZ n && (3 <=? n)%Z
       | None => false
       end in
  let c :=
    if isCurrentlyBlocked then
      let c :=
        if negb (truthyOQ (Unit.firstBlockedAtMs unit))
        then setU ref (Unit.set_firstBlockedAtMs (Some nowMs)) c else c in
      let blockedDuration :=
        nowMs - default 0 (Unit.firstBlockedAtMs (unitOf c ref unit0)) in
      if Qgeb blockedDuration 2000 then
        let c := Ctx.mapDraft (fun draft =>
                   Store.set_unitOrders (delete id (Store.unitOrders draft)) draft) c in
        setU ref (fun u =>
          Unit.set_firstBlockedAtMs None
            (Unit.set_movementPausedUntilMs None
               (Unit.set_collisionAttempts (Some 0%Z)
                  (Unit.set_unitState (Some idle)
                     (Unit.set_arrivedAtDestinationMs None u))))) c
      else c
    else setU ref (Unit.set_firstBlockedAtMs None) c in
  let nearbyEnemy := closestEnemyInRange (Ctx.draft c) (unitOf c ref unit0) 8 in
  let enemyPosition (enemy : nat) :=
    Unit.position (unitOf c enemy unit0) in
  let c :=
    if Qgtb distanceToOrder (1 # 2) && negb isMovementPaused then
      let unit := unitOf c ref unit0 in
      let direction := normalize3D M (subtract3D order (Unit.position unit)) in
      let moveDistance := Unit.moveSpeed unit * dtSec in
      let c :=
        if match nearbyEnemy with
           | None => true
           | Some enemy =>
               Qgtb (distanceSquared3D (Unit.position unit) (enemyPosition enemy)) 900
           end
        then setU ref (Unit.set_rotation
                         (MathLib.atan2 M (Position3D.x direction) (Position3D.z direction))) c
        else c in
      let c := setU ref hop c in
      moveResolved ref (stepFrom (Unit.position unit) direction moveDistance) c
    else c in
  let target :=
    match nearbyEnemy with
    | Some enemy =>
        if Qle_bool (distanceSquared3D (Unit.position (unitOf c ref unit0))
                       (Unit.position (unitOf c enemy unit0))) 64
        then Some enemy else None
    | None => None
    end in
  let c :=
    if Qle_bool distanceToOrder (1 # 2) then
      let c := Ctx.mapDraft (fun draft =>
                 Store.set_unitOrders (delete id (Store.unitOrders draft)) draft) c in
      setU ref (fun u => Unit.set_unitState (Some idle)
                           (Unit.set_arrivedAtDestinationMs None u)) c
    else c in
  (c, target).

(** Priorities 2 and 3: no movement order. *)
Definition playerIdle (ref : nat) (unit0 : Unit.t) (c : Ctx.t) : Ctx.t * option nat :=
  let unit := unitOf c ref unit0 in
  let units := Ctx.units c in
  let attackerIds := default [] (Unit.currentAttackers unit) in
  if (0 <? length attackerIds)%nat then
    (* attack response *)
    let current :=
      match Unit.priorityAttacker unit with
      | Some pid =>
          if truthyS pid && bool_decide (pid ∈ attackerIds) then findById units pid else None
      | None => None
      end in
    (* without a current priority attacker: the closest living attacker *)
    let chosen :=
      match current with
      | Some _ => None
      | None =>
          closestRef units (Unit.position unit)
            (List.filter (fun r => Qgtb (Unit.hp (unitOf c r unit0)) 0)
               (omap (findById units) attackerIds))
      end in
    let c :=
      match chosen with
      | Some r => setU ref (Unit.set_priorityAttacker (Some (Unit.id (unitOf c r unit0)))) c
      | None => c
      end in
    let priorityAttacker :=
      match current with
      | Some r => Some r
      | None => chosen
      end in
    match priorityAttacker with
    | Some r => (setU ref (Unit.set_unitState (Some pursuing_enemy)) c, Some r)
    | None => (c, None)
    end
  else if truthyOS (Unit.priorityAttacker unit) then
    (setU ref (fun u => Unit.set_unitState (Some idle) (Unit.set_priorityAttacker None u)) c,
     None)
  else if bool_decide (Unit.unitState unit = Some idle)
          || bool_decide (Unit.unitState unit = Some pursuing_enemy) then
    (* autonomous detection *)
    let c :=
      match Unit.priorityAttacker unit with
      | Some pid =>
          if truthyS pid then
            match findById units pid with
            | Some r =>
                if Qle_bool (Unit.hp (unitOf c r unit0)) 0
                then setU ref (Unit.set_priorityAttacker None) c else c
            | None => setU ref (Unit.set_priorityAttacker None) c
            end
          else c
      | None => c
      end in
    let unit := unitOf c ref unit0 in
    let enemyTarget :=
      if truthyOS (Unit.lastCombatTargetId unit)
         && recentlyQ (Unit.lastCombatEngagementMs unit) 3000
         && negb (bool_decide (Unit.lastCombatTargetId unit = Unit.priorityAttacker unit))
      then lastTargetInReach units unit else None in
    let enemyTarget :=
      match enemyTarget with
      | Some _ => enemyTarget
      | None => closestEnemyInRange (Ctx.draft c) unit 10
      end in
    match enemyTarget with
    | Some r => (setU ref (Unit.set_unitState (Some pursuing_enemy)) c, Some r)
    | None => (setU ref (Unit.set_unitState (Some idle)) c, None)
    end
  else (c, None).

(** *** Behavior of the other units *)

(** A unit of another owner with a movement order. *)
Definition aiOrder (ref : nat) (unit0 : Unit.t) (order : Position3D.t) (c : Ctx.t) : Ctx.t :=
  let unit := unitOf c ref unit0 in
  let '(distanceToOrder, w) := distance3D M (Unit.position unit) order (Ctx.world c) in
  let c := Ctx.set_world w c in
  let isMovementPaused := movementPaused unit in
  let c :=
    if Qgtb distanceToOrder (1 # 2) && negb isMovementPaused then
      let direction := normalize3D M (subtract3D order (Unit.position unit)) in
      let moveDistance := Unit.moveSpeed unit * dtSec in
      let c := setU ref (Unit.set_rotation
                 (MathLib.atan2 M (Position3D.x direction) (Position3D.z direction))) c in
      moveResolved ref (stepFrom (Unit.position unit) direction moveDistance) c
    else c in
  if Qle_bool distanceToOrder (1 # 2) then
    let c := Ctx.mapDraft (fun draft =>
               Store.set_unitOrders (delete (Unit.id unit0) (Store.unitOrders draft)) draft) c in
    setU ref (Unit.set_arrivedAtDestinationMs None) c
  else c.

(** A Queen on patrol. *)
Definition queenPatrol (ref : nat) (unit0 : Unit.t) (patrol : PatrolRoute.t) (c : Ctx.t)
    : Ctx.t :=
  let unit := unitOf c ref unit0 in
  let targetPos :=
    match PatrolRoute.currentTarget patrol with
    | patrol_end => PatrolRoute.endPosition patrol
    | patrol_start => PatrolRoute.startPosition patrol
    end in
  let '(dist, w) := distance3D M (Unit.position unit) targetPos (Ctx.world c) in
  let c := Ctx.set_world w c in
  if Qgtb dist 1 then
    let direction := normalize3D M (subtract3D targetPos (Unit.position unit)) in
    let moveDistance := Unit.moveSpeed unit * dtSec in
    let c := setU ref (Unit.set_rotation
               (MathLib.atan2 M (Position3D.x direction) (Position3D.z direction))) c in
    moveResolved ref (stepFrom (Unit.position unit) direction moveDistance) c
  else
    Ctx.mapDraft (fun draft =>
      Store.set_queenPatrols
        (alter (fun p =>
                  PatrolRoute.mk (PatrolRoute.startPosition p) (PatrolRoute.endPosition p)
                    match PatrolRoute.currentTarget patrol with
                    | patrol_end => patrol_start
                    | patrol_start => patrol_end
                    end)
           (Unit.id unit0) (Store.queenPatrols draft)) draft) c.

(** Combat persistence: [lastCombatTargetId && lastCombatEngagementMs &&
    nowMs - lastCombatEngagementMs < 3000], then the reach test. *)
Definition persistentTarget (units : list Unit.t) (unit : Unit.t) : option nat :=
  if truthyOS (Unit.lastCombatTargetId unit)
     && recentlyQ (Unit.lastCombatEngagementMs unit) 3000
  then lastTargetInReach units unit else None.

(** Neither order nor patrol: enemy detection. *)
Definition detectEnemy (ref : nat) (unit0 : Unit.t) (isPlayerUnit shouldThinkThisTick : bool)
    (c : Ctx.t) : Ctx.t * option nat :=
  let unit := unitOf c ref unit0 in
  let units := Ctx.units c in
  if isPlayerUnit then
    match persistentTarget units unit with
    | Some r => (c, Some r)
    | None => (c, closestEnemyInRange (Ctx.draft c) unit 8)
    end
  else if shouldThinkThisTick then
    let currentTarget :=
      match focusTarget units unit with
      | Some r => Some r
      | None => findClosestEnemy unit units
      end in
    match currentTarget with
    | Some r =>
        let targetId := Unit.id (unitOf c r unit0) in
        (Ctx.mapDraft (fun draft =>
           Store.set_targetCache
             (<[String.append (Unit.id unit) "-target-persistence" := targetId]>
                (<[String.append (Unit.id unit) "-target" := targetId]>
                   (Store.targetCache draft))) draft) c,
         Some r)
    | None => (c, None)
    end
  else
    match persistentTarget units unit with
    | Some r => (c, Some r)
    | None =>
        match focusTarget units unit with
        | Some r => (c, Some r)
        | None =>
            let cacheKey := String.append (Unit.id unit) "-target" in
            match Store.targetCache (Ctx.draft c) !! cacheKey with
            | Some cachedTargetId =>
                if truthyS cachedTargetId then
                  match
                    List.find (fun iu =>
                        String.eqb (Unit.id (snd iu)) cachedTargetId
                        && Qgtb (Unit.hp (snd iu)) 0) (indexed units)
                  with
                  | Some iu => (c, Some (fst iu))
                  | None =>
                      (Ctx.mapDraft (fun draft =>
                         Store.set_targetCache (delete cacheKey (Store.targetCache draft))
                           draft) c,
                       None)
                  end
                else (c, None)
            | None => (c, None)
            end
        end
    end.

(** *** Combat execution for a unit with a target *)

Definition ATTACK_RANGE_SQUARED : Q := 16.

Definition engage (ref : nat) (target : nat) (c : Ctx.t) : Ctx.t :=
  match Ctx.units c !! ref, Ctx.units c !! target with
  | Some unit, Some targetUnit =>
      let distSquared := distanceSquared3D (Unit.position unit) (Unit.position targetUnit) in
      let direction :=
        normalize3D M (subtract3D (Unit.position targetUnit) (Unit.position unit)) in
      let c := setU ref (Unit.set_rotation
                 (MathLib.atan2 M (Position3D.x direction) (Position3D.z direction))) c in
      let c :=
        if Qle_bool distSquared ATTACK_RANGE_SQUARED
           && Qgeb (nowMs - Unit.lastAttackAtMs unit) (Unit.attackCooldownMs unit)
        then
          let c := Ctx.pushPair (CombatPair.mk ref target (Unit.attackDamage unit)) c in
          let c :=
            setU ref (fun u =>
              Unit.set_lastCombatEngagementMs (Some nowMs)
                (Unit.set_lastCombatTargetId (Some (Unit.id targetUnit))
                   (Unit.set_lastAttackAtMs nowMs u))) c in
          setU target (fun t =>
            Unit.set_currentAttackers
              (Some (default [] (Unit.currentAttackers t) ++ [Unit.id unit])) t) c
        else c in
      if Qgtb distSquared ATTACK_RANGE_SQUARED then
        let moveDistance := Unit.moveSpeed unit * dtSec in
        let c := moveResolved ref (stepFrom (Unit.position unit) direction moveDistance) c in
        setU ref hop c
      else c
  | _, _ => c
  end.

(** *** One iteration of the behavior loop *)

Definition behave (c : Ctx.t) (ref : nat) : Ctx.t :=
  match Ctx.units c !! ref with
  | None => c
  | Some unit0 =>
      let draft := Ctx.draft c in
      let id := Unit.id unit0 in
      let ownerPlayer := findPlayer (Store.players draft) (Unit.ownerId unit0) in
      let isPlayerUnit := from_option (fun p => negb (Player.isAI p)) false ownerPlayer in
      let shouldThinkThisTick :=
        isPlayerUnit
        || negb (Optimizations.aiThrottling (Store.optimizations draft))
        || (Z.rem (Store.tickCounter draft + default 0 (Store.aiThinkingOffset draft !! id)) 2
            =? 0)%Z in
      let c :=
        if negb (truthyOZ (Store.aiThinkingOffset draft !! id)) then
          let '(r, w) := World.nextRandom (Ctx.world c) in
          Ctx.set_world w
            (Ctx.mapDraft
               (Store.set_aiThinkingOffset
                  (<[id := Math_floor (r * 2)]> (Store.aiThinkingOffset draft))) c)
        else c in
      let order := Store.unitOrders draft !! id in
      let patrol := Store.queenPatrols draft !! id in
      let '(c, target) :=
        if isPlayerUnit then
          let c :=
            if bool_decide (Unit.unitState unit0 = None)
            then setU ref (Unit.set_unitState (Some idle)) c else c in
          match order with
          | Some order => playerOrder ref unit0 order c
          | None => playerIdle ref unit0 c
          end
        else
          match order, patrol with
          | Some order, _ => (aiOrder ref unit0 order c, None)
          | None, Some patrol =>
              if bool_decide (Unit.kind unit0 = KQueen)
              then (queenPatrol ref unit0 patrol c, None)
              else (c, None)
          | None, None => detectEnemy ref unit0 isPlayerUnit shouldThinkThisTick c
          end in
      match target with
      | Some target => engage ref target c
      | None => c
      end
  end.

Definition behaviorPass (movableUnits : list nat) (c : Ctx.t) : Ctx.t :=
  fold_left behave movableUnits c.

(** *** Applying the queued combat pairs *)

Definition knockbackDistance : Q := 4 # 5.

Definition applyPair (c : Ctx.t) (pair : CombatPair.t) : Ctx.t :=
  let attacker := CombatPair.attacker pair in
  let target := CombatPair.target pair in
  match Ctx.units c !! attacker, Ctx.units c !! target with
  | Some _, Some target0 =>
      let c := setU target (fun t => Unit.set_hp (Unit.hp t - CombatPair.damage pair) t) c in
      let targetUnit := unitOf c target target0 in
      let c :=
        if Qle_bool (Unit.hp targetUnit) 0 then
          Ctx.mapDraft (fun draft =>
            Store.set_deadUnitsToRemove
              (Store.deadUnitsToRemove draft ++ [Unit.id targetUnit]) draft) c
        else c in
      let attackerUnit := unitOf c attacker target0 in
      let direction :=
        normalize3D M (subtract3D (Unit.position targetUnit) (Unit.position attackerUnit)) in
      if Qgtb (Unit.hp targetUnit) 0
         && (negb (Qeq_bool (Position3D.x direction) 0)
             || negb (Qeq_bool (Position3D.z direction) 0))
      then moveResolved target (stepFrom (Unit.position targetUnit) direction knockbackDistance) c
      else c
  | _, _ => c
  end.

Definition applyCombat (c : Ctx.t) : Ctx.t := fold_left applyPair (Ctx.combatPairs c) c.

(** *** Removing the dead *)

(** The references to [deadUnitId] that a unit drops. *)
Definition forgetDead (deadUnitId : string) (unit : Unit.t) : Unit.t :=
  let unit :=
    if bool_decide (Unit.priorityAttacker unit = Some deadUnitId)
    then Unit.set_priorityAttacker None unit else unit in
  let unit :=
    if bool_decide (Unit.lastCombatTargetId unit = Some deadUnitId)
    then Unit.set_lastCombatEngagementMs None (Unit.set_lastCombatTargetId None unit)
    else unit in
  match Unit.currentAttackers unit with
  | Some attackers =>
      Unit.set_currentAttackers
        (Some (List.filter (fun id => negb (String.eqb id deadUnitId)) attackers)) unit
  | None => unit
  end.

Definition forgetDeadEverywhere (draft : Store.t) (deadUnitId : string) : Store.t :=
  Store.set_targetCache
    (filter (fun kv => snd kv ≠ deadUnitId) (Store.targetCache draft))
    (Store.set_units (map (forgetDead deadUnitId) (Store.units draft)) draft).

Definition removeDead (draft : Store.t) : Store.t :=
  let dead := Store.deadUnitsToRemove draft in
  if (0 <? length dead)%nat then
    let draft := fold_left forgetDeadEverywhere dead draft in
    let draft :=
      Store.set_units
        (List.filter (fun u => Qgtb (Unit.hp u) 0 && negb (bool_decide (Unit.id u ∈ dead)))
           (Store.units draft)) draft in
    let draft := Store.set_deadUnitsToRemove [] draft in
    match Store.spatialGrid draft with
    | Some grid =>
        Store.set_spatialGrid (Some (SpatialGrid.buildFromUnits grid (Store.units draft))) draft
    | None => draft
    end
  else draft.

(** *** Pruning the attacker lists *)

Definition stillAttacking (units : list Unit.t) (unit : Unit.t) (attackerId : string) : bool :=
  match List.find (fun u => String.eqb (Unit.id u) attackerId) units with
  | Some attacker =>
      if Qle_bool (Unit.hp attacker) 0 then false
      else sqrt_le (distanceSquared3D (Unit.position unit) (Unit.position attacker)) 50
  | None => false
  end.

Definition pruneAttackers (units : list Unit.t) (unit : Unit.t) : Unit.t :=
  match Unit.currentAttackers unit with
  | Some (a :: rest) =>
      match List.filter (stillAttacking units unit) (a :: rest) with
      | [] => Unit.set_currentAttackers None unit
      | attackers => Unit.set_currentAttackers (Some attackers) unit
      end
  | _ => unit
  end.

Definition cleanUpAttackers (draft : Store.t) : Store.t :=
  Store.set_units (map (pruneAttackers (Store.units draft)) (Store.units draft)) draft.

(** *** The throttled win check *)

Definition WIN_CHECK_INTERVAL : Q := 5000.

Definition winCheck (draft : Store.t) : Store.t :=
  let throttled := Optimizations.winCheckThrottling (Store.optimizations draft) in
  if negb (Store.gameOver draft)
     && (negb throttled || Qgeb (nowMs - Store.lastWinCheckMs draft) WIN_CHECK_INTERVAL)
  then
    let draft := checkWinConditions draft in
    if throttled then Store.set_lastWinCheckMs nowMs draft else draft
  else draft.

(** *** [tick(dtSec, nowMs)] *)

(** The prologue: counters, grid rebuild and unit count cache. *)
Definition beginTick (draft : Store.t) : Store.t :=
  let draft :=
    Store.set_debugTickCount (Some (default 0 (Store.debugTickCount draft) + 1)%Z) draft in
  let draft := Store.set_tickCounter (Store.tickCounter draft + 1)%Z draft in
  let grid := default (SpatialGrid.new 1000 50) (Store.spatialGrid draft) in
  let draft :=
    Store.set_spatialGrid (Some (SpatialGrid.buildFromUnits grid (Store.units draft))) draft in
  Store.set_unitCountCache (newUnitCountCache (Store.units draft)) draft.

(** The draft after the prologue and the regeneration. *)
Definition afterRegen (prev : Store.t) : Store.t :=
  let draft := beginTick prev in
  let categories := categorize (Store.units draft) in
  regenerate nowMs (Categories.unitsNeedingHealing categories) draft.

(** The context after production, with no pair queued yet. *)
Definition afterSpawn (prev : Store.t) (w : World.t) : Ctx.t :=
  let categories := categorize (Store.units (beginTick prev)) in
  spawn (Categories.queens categories) (Ctx.mk (afterRegen prev) w []).

(** The context after the behavior pass, before any queued damage is applied. *)
Definition afterBehavior (prev : Store.t) (w : World.t) : Ctx.t :=
  let categories := categorize (Store.units (beginTick prev)) in
  behaviorPass (Categories.movableUnits categories) (afterSpawn prev w).

(** The state once every queued pair is applied, before the dead are removed. *)
Definition afterCombat (prev : Store.t) (w : World.t) : Ctx.t :=
  applyCombat (afterBehavior prev w).

Definition tick (prev : Store.t) (w : World.t) : Store.t * World.t :=
  if negb (Store.matchStarted prev) || Store.isPaused prev then (prev, w)
  else
    let c := afterCombat prev w in
    let draft := removeDead (Ctx.draft c) in
    let draft := cleanUpAttackers draft in
    let draft := updateBridgeAnimations draft nowMs in
    (winCheck draft, Ctx.world c).

End Tick.

(** ** The initial store and concrete surroundings for running the model *)

Definition upBridge : BridgeAnimation.t := BridgeAnimation.mk up Fully_Up 0 0 false.

(** The state [create<Store>] starts from. *)
Definition initialStore : Store.t :=
  Store.mk menu defaultConfig [] [] ∅ ∅ [Bee; Bear; Fox] None false false None [] ∅ ∅
    (BridgeState.mk upBridge upBridge) ∅ None 0 0%Z None ∅ ∅ ∅ 0 []
    true (Optimizations.mk true true true true true true true) false
    (LightingSettings.mk 5 (96 # 10) (16 # 10) 120).

(** A stand-in for the [Math] functions, used only to run the model on
    concrete inputs: the square root is exact on squares of rationals and
    truncated to six decimals otherwise; the trigonometric functions are
    short rational approximations. *)
Definition sqrtQ (q : Q) : Q :=
  Qred (Z.sqrt (Qnum q * Zpos (Qden q) * 1000000000000) # (Qden q * 1000000)).

Definition PIQ : Q := 355 # 113.

Definition sinQ (a : Q) : Q := a - a * a * a / 6 + a * a * a * a * a / 120.
Definition cosQ (a : Q) : Q := 1 - a * a / 2 + a * a * a * a / 24.

Definition atanQ (t : Q) : Q := t / (1 + (28 # 100) * t * t).

Definition atan2Q (y x : Q) : Q :=
  if Qeq_bool x 0 then
    if Qltb 0 y then PIQ / 2 else if Qltb y 0 then - (PIQ / 2) else 0
  else if Qltb 0 x then atanQ (y / x)
  else if Qle_bool 0 y then atanQ (y / x) + PIQ else atanQ (y / x) - PIQ.

Definition refMath : MathLib.t := MathLib.mk sqrtQ cosQ sinQ atan2Q PIQ.

(** A world whose sources return constants. *)
Definition constWorld (r : Q) (clock : Q) (id : string) : World.t :=
  World.mk (fun _ => r) (fun _ => clock) (fun _ => id) ∅.

(** ** Vocabulary of the properties *)

(** [ownerId] holds no Base, no King and no Queen among [units]. *)
Definition eliminated (units : list Unit.t) (ownerId : string) : Prop :=
  ∀ u, u ∈ units → Unit.ownerId u = ownerId →
    Unit.kind u ≠ KBase ∧ Unit.kind u ≠ KKing ∧ Unit.kind u ≠ KQueen.

(** Every player other than [playerId] is eliminated. *)
Definition allOpponentsEliminated (units : list Unit.t) (playerIds : list string)
    (playerId : string) : Prop :=
  ∀ enemyId, enemyId ∈ playerIds → enemyId ≠ playerId → eliminated units enemyId.

(** A unit has both a movement order and a patrol. *)
Definition orderAndPatrolActive (st : Store.t) (id : string) : Prop :=
  is_Some (Store.unitOrders st !! id) ∧ is_Some (Store.queenPatrols st !! id).

(** The references [buildFromUnits] puts in cell [k], the test that a unit's
    cell is among [K], and the cells visited by [getNearbyUnits]. *)
Definition cellRefs (g : SpatialGrid.t) (k : Z * Z) (ius : list (nat * Unit.t)) : list nat :=
  map fst (List.filter
    (fun iu => bool_decide (SpatialGrid.getGridCoords g (Unit.position (snd iu)) = k)) ius).

Definition inCells (g : SpatialGrid.t) (K : list (Z * Z)) (iu : nat * Unit.t) : bool :=
  bool_decide (SpatialGrid.getGridCoords g (Unit.position (snd iu)) ∈ K).

(** The cells visited by [getNearbyUnits]. *)
Definition scannedCells (coords : Z * Z) (cellRadius : Z) : list (Z * Z) :=
  flat_map (fun dx =>
    map (fun dz => ((fst coords + dx)%Z, (snd coords + dz)%Z))
        (zrange (- cellRadius) cellRadius))
    (zrange (- cellRadius) cellRadius).

(** ** Concrete stores used by the examples *)

Definition origin : Position3D.t := Position3D.mk 0 0 0.

Definition withUnits (localPlayerId : string) (players : list Player.t)
    (units : list Unit.t) (st : Store.t) : Store.t :=
  Store.mk (Store.currentScreen st) (Store.config st) players units
    (Store.lastSpawnAtMsByQueenId st) (Store.lastRegenAtMsByUnitId st)
    (Store.selectedAnimalPool st) (Some localPlayerId) true (Store.gameOver st)
    (Store.winner st) (Store.selectedUnitIds st) (Store.unitOrders st)
    (Store.queenPatrols st) (Store.bridgeState st) (Store.unitCountCache st)
    (Store.spatialGrid st) (Store.lastRegenCheckMs st) (Store.tickCounter st)
    (Store.debugTickCount st) (Store.aiThinkingOffset st)
    (Store.movementDirectionCache st) (Store.targetCache st) (Store.lastWinCheckMs st)
    (Store.deadUnitsToRemove st) (Store.ultraPerformanceMode st) (Store.optimizations st)
    (Store.isPaused st) (Store.lightingSettings st).

Definition human : Player.t := Player.mk "p1" "You" false [Bee; Bear; Fox] [].
Definition computer : Player.t := Player.mk "p2" "AI" true [Owl; Pig; Turtle] [].

(** A started match in which the local player's Bee Queen ["q1"] patrols
    between two points. *)
Definition patrolStore : Store.t :=
  Store.set_queenPatrols
    {[ "q1" := PatrolRoute.mk origin (Position3D.mk 10 0 0) patrol_end ]}
    (withUnits "p1" [human; computer]
       [newUnit "q1" "p1" Bee KQueen origin 120 10 (3121 # 100) 0] initialStore).

Definition moveQueen : CommandMoveUnits.t :=
  CommandMoveUnits.mk ["q1"] (Position3D.mk 5 0 5).

(** What neither the behavior pass nor any setter but [set_hp] changes in
    a unit, and the same with the hit points. *)
Definition traits (u : Unit.t) : string * string * AnimalId * UnitKind * Q * Q * Q :=
  (Unit.id u, Unit.ownerId u, Unit.animal u, Unit.kind u, Unit.maxHp u,
   Unit.attackDamage u, Unit.attackCooldownMs u).

Definition essence (u : Unit.t) : string * string * AnimalId * UnitKind * Q * Q * Q * Q :=
  (traits u, Unit.hp u).

(** A queued pair refers to two units of [units] and carries the attack
    damage of its attacker. *)
Definition pairOK (units : list Unit.t) (pair : CombatPair.t) : Prop :=
  ∃ attacker target,
    units !! CombatPair.attacker pair = Some attacker ∧
    units !! CombatPair.target pair = Some target ∧
    CombatPair.damage pair = Unit.attackDamage attacker.

(** The invariant of the behavior pass started on [units]: same units up to
    the fields the pass may write, and only well-formed pairs queued. *)
Definition passInv (units : list Unit.t) (c : Ctx.t) : Prop :=
  map essence (Ctx.units c) = map essence units ∧
  Forall (pairOK units) (Ctx.combatPairs c).

(** The damage the queued [pairs] hold for the unit behind [ref]. *)
Definition damageTo (ref : nat) (pairs : list CombatPair.t) : Q :=
  fold_right (fun pair acc =>
    if decide (CombatPair.target pair = ref) then CombatPair.damage pair + acc else acc)
    0 pairs.

(** A function on units that only writes behavioral fields. *)
Definition keepsEssence (f : Unit.t → Unit.t) : Prop := ∀ u, essence (f u) = essence u.

(** The same invariant on a result paired with the chosen target. *)
Definition passInv2 (units : list Unit.t) (x : Ctx.t * option nat) : Prop :=
  passInv units (fst x).

(** Units at or below 0 hit points are listed for removal. *)
Definition deadListed (c : Ctx.t) : Prop :=
  ∀ j u, Ctx.units c !! j = Some u → Unit.hp u <= 0 →
    Unit.id u ∈ Store.deadUnitsToRemove (Ctx.draft c).

(** Both references of a pair are below [n]. *)
Definition pairInRange (n : nat) (pair : CombatPair.t) : Prop :=
  (CombatPair.attacker pair < n)%nat ∧ (CombatPair.target pair < n)%nat.

(** Regeneration: a Queen of the owner of [unit] stands within [radius] of
    it (the unit itself counts when it is a Queen). *)
Definition friendlyQueenNear (units : list Unit.t) (unit : Unit.t) (radius : Q) : Prop :=
  ∃ queen, queen ∈ units ∧ Unit.kind queen = KQueen ∧
    Unit.ownerId queen = Unit.ownerId unit ∧
    0 <= radius ∧
    distanceSquared (Unit.position unit) (Unit.position queen) <= radius * radius.

(** The number of units below their maximum hit points that precede index
    [i] in the array. *)
Definition woundedBefore (units : list Unit.t) (i : nat) : nat :=
  length (List.filter (fun u => Qltb (Unit.hp u) (Unit.maxHp u)) (take i units)).

(** The unit [u] at index [i] is healed by this tick's regeneration. *)
Definition regenDue (nowMs : Q) (prev : Store.t) (i : nat) (u : Unit.t) : Prop :=
  Unit.hp u < Unit.maxHp u ∧ 0 < Unit.hp u ∧
  3000 <= nowMs - default 0 (Store.lastRegenAtMsByUnitId prev !! Unit.id u) ∧
  friendlyQueenNear (Store.units prev) u 8 ∧
  (woundedBefore (Store.units prev) i < 30)%nat.

(** The tick about to run is a regeneration tick: its counter is a
    multiple of 3, or the throttle is switched off. *)
Definition regenQualifying (prev : Store.t) : Prop :=
  Optimizations.regenThrottling (Store.optimizations prev) = false
  ∨ Z.rem (Store.tickCounter prev + 1) 3 = 0%Z.

(** A grid kept in the store has a positive cell size (the one [tick]
    creates has 50). *)
Definition gridUsable (prev : Store.t) : Prop :=
  match Store.spatialGrid prev with
  | Some grid => 0 < SpatialGrid.cellSize grid
  | None => True
  end.

(** The position, kind and owner of a unit: what the Queen test reads. *)
Definition geo (u : Unit.t) : Position3D.t * UnitKind * string :=
  (Unit.position u, Unit.kind u, Unit.ownerId u).

(** The decision of the regeneration loop for [u], read in the draft [d0]
    the loop starts from, and the unit it leaves. *)
Definition heals (nowMs : Q) (d0 : Store.t) (grid : SpatialGrid.t) (u : Unit.t) : bool :=
  negb (Qle_bool (Unit.hp u) 0)
  && negb (Qltb (nowMs - default 0 (Store.lastRegenAtMsByUnitId d0 !! Unit.id u))
             REGEN_INTERVAL_MS)
  && (0 <? length (SpatialGrid.findNearbyQueens (Store.units d0) grid u
                     (GameConfig.regenRadius (Store.config d0))))%nat.

Definition healed (u : Unit.t) : Unit.t :=
  Unit.set_hp (Math_min (Unit.maxHp u) (Unit.hp u + REGEN_AMOUNT)) u.

(** The draft [d] after the loop has visited the references [L]. *)
Definition regenInv (nowMs : Q) (d0 : Store.t) (grid : SpatialGrid.t) (L : list nat)
    (d : Store.t) : Prop :=
  Store.spatialGrid d = Some grid ∧
  Store.config d = Store.config d0 ∧
  (∀ i, Store.units d !! i =
        (fun u => if bool_decide (i ∈ L) && heals nowMs d0 grid u then healed u else u)
          <$> (Store.units d0 !! i)) ∧
  (∀ i u, i ∈ L → Store.units d0 !! i = Some u → heals nowMs d0 grid u = true →
          Store.lastRegenAtMsByUnitId d !! Unit.id u = Some nowMs) ∧
  (∀ id, (∀ i u, i ∈ L → Store.units d0 !! i = Some u → heals nowMs d0 grid u = true →
                 Unit.id u ≠ id) →
         Store.lastRegenAtMsByUnitId d !! id = Store.lastRegenAtMsByUnitId d0 !! id).

(** Production: the units of kind [kind], owner [ownerId] and species
    [animal], and their number. *)
Definition isOf (kind : UnitKind) (ownerId : string) (animal : AnimalId) (u : Unit.t)
    : bool :=
  bool_decide (Unit.kind u = kind) && String.eqb (Unit.ownerId u) ownerId
  && bool_decide (Unit.animal u = animal).

Definition countOf (kind : UnitKind) (ownerId : string) (animal : AnimalId)
    (units : list Unit.t) : nat :=
  length (List.filter (isOf kind ownerId animal) units).

(** No player holds more than 20 units of kind ['Unit'] of one species. *)
Definition withinCap (units : list Unit.t) : Prop :=
  ∀ ownerId animal, (countOf KUnit ownerId animal units ≤ 20)%nat.

(** No player holds two Queens of one species. *)
Definition oneQueenPerSpecies (units : list Unit.t) : Prop :=
  ∀ ownerId animal, (countOf KQueen ownerId animal units ≤ 1)%nat.

(** The entry of the unit count cache for an owner and a species
    ([cache[ownerId]?.[animal] || 0]). *)
Definition cachedCount (cache : gmap string (gmap AnimalId Z)) (ownerId : string)
    (animal : AnimalId) : Z :=
  default 0%Z (default ∅ (cache !! ownerId) !! animal).

(** The tentative spawn position for the preset angle [angle], and the unit
    a Queen spawns before the resolver places it. *)
Definition spawnPosition (M : MathLib.t) (q : Unit.t) (angle : Q) : Position3D.t :=
  Position3D.mk (Position3D.x (Unit.position q) + MathLib.cos M angle * (5 # 2)) 0
    (Position3D.z (Unit.position q) + MathLib.sin M angle * (5 # 2)).

Definition spawnedUnit (M : MathLib.t) (draft : Store.t) (q : Unit.t) (angle : Q)
    (w : World.t) : Unit.t :=
  fst (createUnit (Unit.ownerId q) (Unit.animal q) (spawnPosition M q angle)
         (if bool_decide (Some (Unit.ownerId q) = Store.localPlayerId draft)
          then MathLib.PI M else 0) w).

(** The number of the references [refs] that point to a Queen of the given
    owner and species in [units]. *)
Definition queensAmong (units : list Unit.t) (ownerId : string) (animal : AnimalId)
    (refs : list nat) : nat :=
  length (List.filter (fun r => from_option (isOf KQueen ownerId animal) false (units !! r))
            refs).

(** The context [c] of the spawn loop started on [units] once the Queens
    behind [refs] had their turn. *)
Definition spawnInv (units : list Unit.t) (cache : gmap string (gmap AnimalId Z))
    (refs : list nat) (c : Ctx.t) : Prop :=
  Store.unitCountCache (Ctx.draft c) = cache ∧
  ∃ new, Ctx.units c = units ++ new ∧
    Forall (fun v => Unit.kind v = KUnit ∧ Unit.hp v = Unit.maxHp v ∧ 0 < Unit.hp v
                     ∧ 0 <= Unit.attackDamage v) new ∧
    ∀ ownerId animal,
      (countOf KUnit ownerId animal new
       ≤ if (cachedCount cache ownerId animal <? 20)%Z
         then queensAmong units ownerId animal refs else 0)%nat.

(** Hit points in range; a unit that is in range and deals no negative
    damage; and a unit [u'] that a phase of the tick made of [u]: the same
    traits, and hit points in range if they were. *)
Definition hpInRange (u : Unit.t) : Prop := 0 < Unit.hp u ∧ Unit.hp u <= Unit.maxHp u.

Definition sound (u : Unit.t) : Prop := hpInRange u ∧ 0 <= Unit.attackDamage u.

Definition evolves (u' u : Unit.t) : Prop :=
  traits u' = traits u ∧ (hpInRange u → hpInRange u').

(** The test of the filter that removes the dead. *)
Definition survives (dead : list string) (u : Unit.t) : bool :=
  Qgtb (Unit.hp u) 0 && negb (bool_decide (Unit.id u ∈ dead)).

(** Determinism of [tick] in its arguments and the store alone: whatever
    the sources outside the store return, the resulting store is the same. *)
Definition tickDeterministic (M : MathLib.t) : Prop :=
  ∀ (dtSec nowMs : Q) (prev : Store.t) (w1 w2 : World.t),
    fst (tick M dtSec nowMs prev w1) = fst (tick M dtSec nowMs prev w2).

(** Two worlds return the same values on every call and hold the same
    distance cache. *)
Definition sameSources (w1 w2 : World.t) : Prop :=
  (∀ n, World.random w1 n = World.random w2 n) ∧
  (∀ n, World.now w1 n = World.now w2 n) ∧
  (∀ n, World.nanoid w1 n = World.nanoid w2 n) ∧
  World.distanceCache w1 = World.distanceCache w2.

(** The ground-plane squared distance the resolver works with. *)
Definition planarDistanceSquared (a b : Position3D.t) : Q :=
  let dx := Position3D.x a - Position3D.x b in
  let dz := Position3D.z a - Position3D.z b in
  dx * dx + dz * dz.

(** The separation invariant as the specification words it: at the adjusted
    position every other non-Base unit is at least 2.5 away, except an
    enemy within the 2-unit melee exemption. *)
Definition separationHolds (adjusted : Position3D.t) (currentUnit : Unit.t)
    (allUnits : list Unit.t) : Prop :=
  ∀ other, other ∈ allUnits →
    Unit.id other ≠ Unit.id currentUnit → Unit.kind other ≠ KBase →
    (Unit.ownerId other ≠ Unit.ownerId currentUnit
     ∧ planarDistanceSquared adjusted (Unit.position other) <= 4)
    ∨ minimumDistance * minimumDistance
      <= planarDistanceSquared adjusted (Unit.position other).

(** The position [checkCollision] returns for the radius 2.5 every caller passes. *)
Definition resolved (M : MathLib.t) (newPosition : Position3D.t) (currentUnit : Unit.t)
    (allUnits : list Unit.t) (selectedUnitIds : list string) (localPlayerId : option string)
    (unitOrders : gmap string Position3D.t) (w : World.t) : Position3D.t :=
  fst (fst (checkCollision M newPosition currentUnit allUnits (5 # 2) selectedUnitIds
              localPlayerId unitOrders w)).

(** Two Bee workers of the local player, the second standing at the
    origin, and the tentative position of the first, one unit east of it. *)
Definition workerA : Unit.t := newUnit "a" "p1" Bee KUnit (Position3D.mk 0 0 3) 60 10 (204 # 10) 0.
Definition workerB : Unit.t := newUnit "b" "p1" Bee KUnit origin 60 10 (204 # 10) 0.
Definition oneEast : Position3D.t := Position3D.mk 1 0 0.

(** A started match whose next tick is the third, with a wounded Queen of
    the local player. *)
Definition woundedQueenStore : Store.t :=
  Store.set_tickCounter 2%Z
    (withUnits "p1" [human; computer]
       [Unit.set_hp 100 (newUnit "q1" "p1" Bee KQueen origin 120 10 (3121 # 100) 0)]
       initialStore).

(** An Owl worker of the computer player three units east of [workerB],
    and a started match holding the two. *)
Definition owlC : Unit.t := newUnit "c" "p2" Owl KUnit (Position3D.mk 3 0 0) 100 16 (1496 # 100) 0.

Definition duelStore : Store.t :=
  withUnits "p1" [human; computer] [workerB; owlC] initialStore.

(** A started match holding a single King of the computer player. *)
Definition loneKingStore : Store.t :=
  withUnits "p1" [human; computer]
    [newUnit "k1" "p2" Owl KKing (Position3D.mk 0 (1 # 4) (-245)) 300 48 (12716 # 1000) 0]
    initialStore.

(** * Verified properties *)

(** ** Comparisons on numbers *)

Lemma Qltb_true a b : Qltb a b = true ↔ a < b.
Proof.
  unfold Qltb. rewrite negb_true_iff. split.
  - intros H. apply Qnot_le_lt. intros Hle. apply Qle_bool_iff in Hle. congruence.
  - intros H. destruct (Qle_bool b a) eqn:E; [|done].
    apply Qle_bool_iff in E. lra.
Qed.

Lemma Qltb_false a b : Qltb a b = false ↔ b <= a.
Proof.
  unfold Qltb. rewrite negb_false_iff. apply Qle_bool_iff.
Qed.

Lemma Qgtb_true a b : Qgtb a b = true ↔ b < a.
Proof. apply (Qltb_true b a). Qed.

Lemma Qgtb_false a b : Qgtb a b = false ↔ a <= b.
Proof. apply (Qltb_false b a). Qed.

Lemma Qgeb_true a b : Qgeb a b = true ↔ b <= a.
Proof. apply Qle_bool_iff. Qed.

Lemma Qgeb_false a b : Qgeb a b = false ↔ a < b.
Proof.
  unfold Qgeb. split.
  - intros H. apply Qnot_le_lt. intros Hle. apply Qle_bool_iff in Hle. congruence.
  - intros H. destruct (Qle_bool b a) eqn:E; [|done]. apply Qle_bool_iff in E. lra.
Qed.

Lemma Qle_bool_false a b : Qle_bool a b = false ↔ b < a.
Proof. apply (Qgeb_false b a). Qed.

Lemma Math_min_le_l a b : Math_min a b <= a.
Proof.
  unfold Math_min. destruct (Qle_bool a b) eqn:E; [lra|].
  apply Qle_bool_false in E. lra.
Qed.

Lemma Math_min_le_r a b : Math_min a b <= b.
Proof.
  unfold Math_min. destruct (Qle_bool a b) eqn:E; [by apply Qle_bool_iff|lra].
Qed.

Lemma Math_min_cases a b : Math_min a b = a ∨ Math_min a b = b.
Proof. unfold Math_min. destruct (Qle_bool a b); tauto. Qed.

Lemma sqrt_le_spec s r : sqrt_le s r = true ↔ 0 <= r ∧ s <= r * r.
Proof.
  unfold sqrt_le. rewrite andb_true_iff, !Qle_bool_iff. tauto.
Qed.

(** *** The comparisons on squares and the real square root *)

Lemma Q2R_zero : Q2R 0 = 0%R.
Proof. unfold Q2R. simpl. lra. Qed.

(** [sqrt_le s r] decides [Math.sqrt(s) <= r] as the real numbers have it. *)
Lemma sqrt_le_real s r : 0 <= s → sqrt_le s r = true ↔ (sqrt (Q2R s) <= Q2R r)%R.
Proof.
  intros Hs. apply Qle_Rle in Hs. rewrite Q2R_zero in Hs. rewrite sqrt_le_spec. split.
  - intros [Hr Hsq]. apply Qle_Rle in Hr, Hsq. rewrite Q2R_zero in Hr. rewrite Q2R_mult in Hsq.
    rewrite <- (sqrt_square (Q2R r)) by done. by apply sqrt_le_1_alt.
  - intros Hle. pose proof (sqrt_pos (Q2R s)) as Hpos.
    pose proof (sqrt_sqrt (Q2R s) Hs) as Hsq. split.
    + apply Rle_Qle. rewrite Q2R_zero. lra.
    + apply Rle_Qle. rewrite Q2R_mult, <- Hsq. apply Rmult_le_compat; lra.
Qed.

(** [sqrt_lt s r] decides [Math.sqrt(s) < r] likewise. *)
Lemma sqrt_lt_real s r : 0 <= s → sqrt_lt s r = true ↔ (sqrt (Q2R s) < Q2R r)%R.
Proof.
  intros Hs. apply Qle_Rle in Hs. rewrite Q2R_zero in Hs.
  unfold sqrt_lt. rewrite andb_true_iff, !Qltb_true. split.
  - intros [Hr Hsq]. apply Qlt_Rlt in Hr, Hsq. rewrite Q2R_zero in Hr. rewrite Q2R_mult in Hsq.
    rewrite <- (sqrt_square (Q2R r)) by lra. by apply sqrt_lt_1_alt.
  - intros Hlt. pose proof (sqrt_pos (Q2R s)) as Hpos.
    pose proof (sqrt_sqrt (Q2R s) Hs) as Hsq. split.
    + apply Rlt_Qlt. rewrite Q2R_zero. lra.
    + apply Rlt_Qlt. rewrite Q2R_mult, <- Hsq. apply Rmult_le_0_lt_compat; lra.
Qed.

(** ** The spatial grid against a brute-force scan *)

Lemma zrange_elem lo hi k : k ∈ zrange lo hi ↔ (lo ≤ k ≤ hi)%Z.
Proof.
  unfold zrange. rewrite list_elem_of_fmap. split.
  - intros (n & -> & Hn). apply elem_of_seq in Hn. lia.
  - intros H. exists (Z.to_nat (k - lo)). split; [lia|]. apply elem_of_seq. lia.
Qed.

Lemma zrange_NoDup lo hi : NoDup (zrange lo hi).
Proof.
  unfold zrange. apply NoDup_fmap_2; [|apply NoDup_seq].
  intros a b H. lia.
Qed.

Lemma square_le_abs (d r : Q) : 0 <= r → d * d <= r * r → - r <= d ∧ d <= r.
Proof.
  intros Hr H. split.
  - destruct (Qlt_le_dec d (- r)) as [Hlt|]; [|done]. exfalso.
    assert (r * r < d * d) by nra. lra.
  - destruct (Qlt_le_dec r d) as [Hlt|]; [|done]. exfalso.
    assert (r * r < d * d) by nra. lra.
Qed.

Lemma within_x a b r :
  within a b r = true →
  0 <= r ∧ - r <= Position3D.x a - Position3D.x b ∧ Position3D.x a - Position3D.x b <= r.
Proof.
  unfold within, distanceSquared. rewrite sqrt_le_spec. cbv zeta.
  intros [Hr H]. split; [done|]. apply square_le_abs; [done|].
  set (dx := Position3D.x a - Position3D.x b) in *.
  set (dy := Position3D.y a - Position3D.y b) in *.
  set (dz := Position3D.z a - Position3D.z b) in *.
  assert (0 <= dy * dy) by nra. assert (0 <= dz * dz) by nra. lra.
Qed.

Lemma within_z a b r :
  within a b r = true →
  0 <= r ∧ - r <= Position3D.z a - Position3D.z b ∧ Position3D.z a - Position3D.z b <= r.
Proof.
  unfold within, distanceSquared. rewrite sqrt_le_spec. cbv zeta.
  intros [Hr H]. split; [done|]. apply square_le_abs; [done|].
  set (dx := Position3D.x a - Position3D.x b) in *.
  set (dy := Position3D.y a - Position3D.y b) in *.
  set (dz := Position3D.z a - Position3D.z b) in *.
  assert (0 <= dy * dy) by nra. assert (0 <= dx * dx) by nra. lra.
Qed.

(** Two coordinates at most [r] apart fall in cells at most [ceil (r / s)] apart. *)
Lemma cell_close (s c a b r : Q) :
  0 < s → - r <= a - b → a - b <= r →
  (- Qceiling (r / s) ≤ Qfloor ((b + c) / s) - Qfloor ((a + c) / s) ≤ Qceiling (r / s))%Z.
Proof.
  intros Hs Hlo Hhi.
  pose proof (Qle_ceiling (r / s)) as Hn.
  set (n := Qceiling (r / s)) in *.
  pose proof (Qfloor_le ((a + c) / s)) as Ha1.
  pose proof (Qlt_floor ((a + c) / s)) as Ha2.
  pose proof (Qfloor_le ((b + c) / s)) as Hb1.
  pose proof (Qlt_floor ((b + c) / s)) as Hb2.
  set (fa := Qfloor ((a + c) / s)) in *.
  set (fb := Qfloor ((b + c) / s)) in *.
  assert (Hd : (a + c) / s - (b + c) / s == (a - b) / s) by (field; lra).
  assert (Hd1 : (a - b) / s <= r / s).
  { apply Qmult_le_r; [apply Qinv_lt_0_compat; done|done]. }
  assert (Hd2 : (- r) / s <= (a - b) / s).
  { apply Qmult_le_r; [apply Qinv_lt_0_compat; done|done]. }
  assert (Hd3 : (- r) / s == - (r / s)) by (field; lra).
  rewrite Hd3 in Hd2. clear Hd3.
  set (qa := (a + c) / s) in *. set (qb := (b + c) / s) in *.
  set (qr := r / s) in *. set (qd := (a - b) / s) in *.
  rewrite !inject_Z_plus in *.
  clearbody qa qb qr qd fa fb n. change (inject_Z 1) with 1 in *.
  assert (H1 : inject_Z fb < inject_Z fa + inject_Z n + 1) by lra.
  assert (H2 : inject_Z fa < inject_Z fb + inject_Z n + 1) by lra.
  change 1 with (inject_Z 1) in H1, H2.
  rewrite <- !inject_Z_plus in H1, H2. rewrite <- Zlt_Qlt in H1, H2. lia.
Qed.

(** *** What [buildFromUnits] stores in a cell *)


Lemma getGridCoords_addUnit g i u p :
  SpatialGrid.getGridCoords (SpatialGrid.addUnit g i u) p = SpatialGrid.getGridCoords g p.
Proof. reflexivity. Qed.

Lemma fold_addUnit_params ius g :
  let g' := fold_left (fun g iu => SpatialGrid.addUnit g (fst iu) (snd iu)) ius g in
  SpatialGrid.gridSize g' = SpatialGrid.gridSize g ∧
  SpatialGrid.cellSize g' = SpatialGrid.cellSize g.
Proof.
  revert g. induction ius as [|[i u] ius IH]; intros g; simpl; [done|].
  destruct (IH (SpatialGrid.addUnit g i u)) as [-> ->]. done.
Qed.

Lemma cellRefs_params g g' k ius :
  SpatialGrid.gridSize g' = SpatialGrid.gridSize g →
  SpatialGrid.cellSize g' = SpatialGrid.cellSize g →
  cellRefs g' k ius = cellRefs g k ius.
Proof.
  intros Hs Hc. unfold cellRefs, SpatialGrid.getGridCoords. by rewrite Hs, Hc.
Qed.

Lemma cellRefs_cons g k i u ius :
  cellRefs g k ((i, u) :: ius) =
  if bool_decide (SpatialGrid.getGridCoords g (Unit.position u) = k)
  then i :: cellRefs g k ius else cellRefs g k ius.
Proof. unfold cellRefs. simpl. by case_bool_decide. Qed.

Lemma fold_addUnit_lookup ius g k :
  SpatialGrid.grid
    (fold_left (fun g iu => SpatialGrid.addUnit g (fst iu) (snd iu)) ius g) !! k =
  match cellRefs g k ius with
  | [] => SpatialGrid.grid g !! k
  | refs => Some (default [] (SpatialGrid.grid g !! k) ++ refs)
  end.
Proof.
  revert g. induction ius as [|[i u] ius IH]; intros g; [done|].
  simpl fold_left. rewrite IH, cellRefs_cons.
  rewrite (cellRefs_params g (SpatialGrid.addUnit g i u)) by done.
  unfold SpatialGrid.addUnit. simpl SpatialGrid.grid.
  case_bool_decide as Hk.
  - rewrite Hk, lookup_insert_eq. simpl.
    destruct (cellRefs g k ius) as [|r refs]; simpl; [done|].
    by rewrite <- app_assoc.
  - by rewrite lookup_insert_ne.
Qed.

Lemma build_cell heap g pos r k units :
  from_option (List.filter (SpatialGrid.refWithin heap pos r)) []
    (SpatialGrid.grid (SpatialGrid.buildFromUnits g units) !! k) =
  List.filter (SpatialGrid.refWithin heap pos r) (cellRefs g k (indexed units)).
Proof.
  unfold SpatialGrid.buildFromUnits. rewrite fold_addUnit_lookup.
  rewrite (cellRefs_params g (SpatialGrid.clear g)) by done.
  simpl. rewrite lookup_empty.
  destruct (cellRefs g k (indexed units)); done.
Qed.

Lemma build_params g units :
  SpatialGrid.gridSize (SpatialGrid.buildFromUnits g units) = SpatialGrid.gridSize g ∧
  SpatialGrid.cellSize (SpatialGrid.buildFromUnits g units) = SpatialGrid.cellSize g.
Proof.
  unfold SpatialGrid.buildFromUnits.
  destruct (fold_addUnit_params (indexed units) (SpatialGrid.clear g)) as [-> ->]. done.
Qed.

(** *** Scanning a duplicate-free list of cells visits every bucketed reference once *)

Lemma cellRefs_app g k l1 l2 :
  cellRefs g k (l1 ++ l2) = cellRefs g k l1 ++ cellRefs g k l2.
Proof. unfold cellRefs. by rewrite List.filter_app, map_app. Qed.


Lemma scan_cells_perm g (W : nat → bool) K ius :
  NoDup K →
  flat_map (fun k => List.filter W (cellRefs g k ius)) K ≡ₚ
  List.filter W (map fst (List.filter (inCells g K) ius)).
Proof.
  intros HK. induction ius as [|[i u] ius IH].
  - simpl. induction K as [|k K IHK]; [done|]. simpl. apply IHK. by inversion HK.
  - assert (Hsplit : flat_map (fun k => List.filter W (cellRefs g k ((i, u) :: ius))) K ≡ₚ
        flat_map (fun k => List.filter W (cellRefs g k [(i, u)])) K ++
        flat_map (fun k => List.filter W (cellRefs g k ius)) K).
    { clear. induction K as [|k K IHK]; [done|]. simpl flat_map.
      rewrite IHK. change ((i, u) :: ius) with ([(i, u)] ++ ius).
      rewrite cellRefs_app, List.filter_app.
      rewrite <- !app_assoc. apply Permutation_app_head.
      rewrite !app_assoc. apply Permutation_app_tail. apply Permutation_app_comm. }
    rewrite Hsplit, IH. clear Hsplit IH.
    set (c := SpatialGrid.getGridCoords g (Unit.position u)).
    assert (Hcons : List.filter (inCells g K) ((i, u) :: ius) =
                    if bool_decide (c ∈ K) then (i, u) :: List.filter (inCells g K) ius
                    else List.filter (inCells g K) ius) by done.
    rewrite Hcons. clear Hcons.
    assert (Hone : flat_map (fun k => List.filter W (cellRefs g k [(i, u)])) K =
                   if bool_decide (c ∈ K) then List.filter W [i] else []).
    { induction HK as [|k K Hk HK IHK]; [done|].
      simpl flat_map. rewrite cellRefs_cons. fold c.
      rewrite IHK. change (cellRefs g k []) with (@nil nat).
      destruct (decide (c = k)) as [->|Hne].
      - rewrite (bool_decide_true (k = k)) by done.
        rewrite (bool_decide_false (k ∈ K)) by done.
        rewrite (bool_decide_true (k ∈ k :: K)) by (apply elem_of_cons; tauto).
        by rewrite app_nil_r.
      - rewrite (bool_decide_false (c = k)) by done. simpl.
        destruct (decide (c ∈ K)).
        + rewrite (bool_decide_true (c ∈ K)) by done.
          rewrite (bool_decide_true (c ∈ k :: K)) by (apply elem_of_cons; tauto). done.
        + rewrite (bool_decide_false (c ∈ K)) by done.
          rewrite (bool_decide_false (c ∈ k :: K)); [done|].
          rewrite elem_of_cons. tauto. }
    rewrite Hone. case_bool_decide; simpl; [|done].
    destruct (W i); done.
Qed.

Lemma flat_map_nested {A B C} (F : B → list C) (G : A → list B) (l : list A) :
  flat_map F (flat_map G l) = flat_map (fun a => flat_map F (G a)) l.
Proof.
  induction l as [|a l IH]; simpl; [done|]. by rewrite flat_map_app, IH.
Qed.

Lemma flat_map_map {A B C} (F : B → list C) (h : A → B) (l : list A) :
  flat_map F (map h l) = flat_map (fun a => F (h a)) l.
Proof. induction l as [|a l IH]; simpl; [done|]. by rewrite IH. Qed.


Lemma scannedCells_elem coords n k :
  k ∈ scannedCells coords n ↔
  (- n ≤ fst k - fst coords ≤ n)%Z ∧ (- n ≤ snd k - snd coords ≤ n)%Z.
Proof.
  unfold scannedCells. rewrite list_elem_of_In, in_flat_map. split.
  - intros (dx & Hdx & Hin). apply in_map_iff in Hin as (dz & <- & Hdz).
    apply list_elem_of_In, zrange_elem in Hdx. apply list_elem_of_In, zrange_elem in Hdz.
    simpl. lia.
  - intros [Hx Hz]. exists (fst k - fst coords)%Z. split.
    + apply list_elem_of_In, zrange_elem. lia.
    + apply in_map_iff. exists (snd k - snd coords)%Z. split.
      * destruct k; simpl. f_equal; lia.
      * apply list_elem_of_In, zrange_elem. lia.
Qed.

Lemma scannedCells_NoDup coords n : NoDup (scannedCells coords n).
Proof.
  unfold scannedCells.
  assert (H : ∀ l, NoDup l → NoDup (flat_map (fun dx =>
    map (fun dz => ((fst coords + dx)%Z, (snd coords + dz)%Z)) (zrange (- n) n)) l)).
  { induction 1 as [|dx l Hdx Hl IH]; simpl; [constructor|].
    apply NoDup_app. split_and!; [|..|done].
    - apply NoDup_fmap_2; [|apply zrange_NoDup]. intros a b E. injection E. lia.
    - intros k Hk1 Hk2. apply list_elem_of_fmap in Hk1 as (dz & -> & _).
      apply list_elem_of_In, in_flat_map in Hk2 as (dx' & Hdx' & Hin).
      apply in_map_iff in Hin as (dz' & E & _). injection E as E1 E2.
      apply Hdx. apply list_elem_of_In in Hdx'. by replace dx with dx' by lia. }
  apply H, zrange_NoDup.
Qed.

Lemma indexed_lookup {A} (l : list A) i x :
  (i, x) ∈ indexed l ↔ l !! i = Some x.
Proof.
  unfold indexed. rewrite list_elem_of_lookup. split.
  - intros (j & Hj). apply lookup_zip_with_Some in Hj as (a & b & E & Ha & Hb).
    injection E as -> ->. apply lookup_seq in Ha as [-> _]. done.
  - intros H. exists i. apply lookup_zip_with_Some. exists i, x. split_and!; [done| |done].
    apply lookup_seq. split; [done|]. by apply lookup_lt_Some in H.
Qed.

Lemma indexed_fst {A} (l : list A) : map fst (indexed l) = seq 0 (length l).
Proof. unfold indexed. apply fst_zip. by rewrite length_seq. Qed.

Lemma filter_map_fst_ext {A} (W : nat → bool) (P : nat * A → bool) (l : list (nat * A)) :
  (∀ iu, iu ∈ l → W (fst iu) = true → P iu = true) →
  List.filter W (map fst (List.filter P l)) = List.filter W (map fst l).
Proof.
  induction l as [|iu l IH]; intros H; [done|]. simpl.
  destruct (P iu) eqn:EP; simpl.
  - rewrite IH; [done|]. intros ? ?. apply H. by right.
  - destruct (W iu.1) eqn:EW.
    + rewrite H in EP; [done|by left|done].
    + apply IH. intros ? ?. apply H. by right.
Qed.

(** A reference within the radius lies in a scanned cell. *)
Lemma within_scanned g pos r p :
  0 < SpatialGrid.cellSize g →
  within pos p r = true →
  SpatialGrid.getGridCoords g p ∈
    scannedCells (SpatialGrid.getGridCoords g pos) (Math_ceil (r / SpatialGrid.cellSize g)).
Proof.
  intros Hs Hw. apply scannedCells_elem.
  destruct (within_x _ _ _ Hw) as (_ & Hx1 & Hx2).
  destruct (within_z _ _ _ Hw) as (_ & Hz1 & Hz2).
  unfold SpatialGrid.getGridCoords, Math_ceil, Math_floor. cbn [fst snd]. split.
  - apply cell_close; done.
  - apply cell_close; done.
Qed.

Lemma getNearbyUnits_build heap g units pos r :
  SpatialGrid.getNearbyUnits heap (SpatialGrid.buildFromUnits g units) pos r =
  flat_map (fun k => List.filter (SpatialGrid.refWithin heap pos r) (cellRefs g k (indexed units)))
    (scannedCells (SpatialGrid.getGridCoords g pos) (Math_ceil (r / SpatialGrid.cellSize g))).
Proof.
  unfold SpatialGrid.getNearbyUnits, scannedCells.
  destruct (build_params g units) as [Hgs Hcs].
  assert (Hc : SpatialGrid.getGridCoords (SpatialGrid.buildFromUnits g units) pos =
               SpatialGrid.getGridCoords g pos).
  { unfold SpatialGrid.getGridCoords. by rewrite Hgs, Hcs. }
  rewrite Hc, Hcs. cbv zeta. rewrite flat_map_nested.
  apply flat_map_ext. intros dx. rewrite flat_map_map.
  apply flat_map_ext. intros dz.
  rewrite <- (build_cell heap g pos r). 
  by destruct (SpatialGrid.grid (SpatialGrid.buildFromUnits g units) !! _).
Qed.

(** The references returned by a query on a freshly built grid are, up to
    order, the indices of the units within the radius. *)
Lemma getNearbyUnits_refs g units pos r :
  0 < SpatialGrid.cellSize g →
  SpatialGrid.getNearbyUnits units (SpatialGrid.buildFromUnits g units) pos r ≡ₚ
  List.filter (SpatialGrid.refWithin units pos r) (seq 0 (length units)).
Proof.
  intros Hs. rewrite getNearbyUnits_build.
  rewrite scan_cells_perm by apply scannedCells_NoDup.
  rewrite filter_map_fst_ext, indexed_fst; [done|].
  intros [i u] Hin Hw. apply indexed_lookup in Hin. simpl in Hw.
  unfold SpatialGrid.refWithin in Hw. rewrite Hin in Hw.
  unfold inCells. apply bool_decide_eq_true. simpl. by apply within_scanned.
Qed.

Lemma deref_filter_seq (pre units : list Unit.t) pos r :
  deref (pre ++ units)
    (List.filter (SpatialGrid.refWithin (pre ++ units) pos r) (seq (length pre) (length units))) =
  bruteForceNearby units pos r.
Proof.
  revert pre. induction units as [|u units IH]; intros pre; [done|].
  simpl seq. simpl List.filter. unfold SpatialGrid.refWithin at 1.
  rewrite lookup_app_r, Nat.sub_diag by lia. simpl.
  specialize (IH (pre ++ [u])). rewrite <- app_assoc, length_app in IH. simpl in IH.
  rewrite Nat.add_1_r in IH.
  destruct (within pos (Unit.position u) r).
  - unfold deref. simpl. rewrite lookup_app_r, Nat.sub_diag by lia. simpl.
    f_equal. apply IH.
  - apply IH.
Qed.



(** ** A tick of a match that is not running changes nothing *)

(** C10. If [matchStarted] is false or [isPaused] is true, [tick(dtSec,
    nowMs)] returns the store it was given, field for field, and consumes
    nothing of the world outside it. *)
Theorem tick_not_running_is_identity (M : MathLib.t) (dtSec nowMs : Q)
    (prev : Store.t) (w : World.t) :
  Store.matchStarted prev = false ∨ Store.isPaused prev = true →
  tick M dtSec nowMs prev w = (prev, w).
Proof.
  intros H. unfold tick.
  destruct H as [-> | ->]; [done|]. by rewrite orb_true_r.
Qed.

Lemma tick_not_running_is_identity_witness :
  (Store.matchStarted initialStore = false ∨ Store.isPaused initialStore = true) ∧
  tick refMath (1 # 60) 16 initialStore (constWorld 0 0 "id") =
    (initialStore, constWorld 0 0 "id").
Proof.
  split; [by left|].
  apply (tick_not_running_is_identity refMath (1 # 60) 16 initialStore). by left.
Defined.

(** ** The win-condition check *)

Lemma String_eqb_true (a b : string) : String.eqb a b = true ↔ a = b.
Proof. apply String.eqb_eq. Qed.

Lemma holdsKind_nil units ownerId kind :
  (0 <? length (holdsKind units ownerId kind))%nat = false ↔
  ∀ u, u ∈ units → Unit.ownerId u = ownerId → Unit.kind u ≠ kind.
Proof.
  unfold holdsKind. rewrite Nat.ltb_ge. split.
  - intros Hlen u Hu Ho Hk.
    assert (Hin : In u (List.filter (fun u => String.eqb (Unit.ownerId u) ownerId
                        && bool_decide (Unit.kind u = kind)) units)).
    { apply filter_In. split; [by apply list_elem_of_In|].
      apply andb_true_iff. split; [by apply String.eqb_eq|by apply bool_decide_eq_true]. }
    destruct (List.filter _ units); [done|simpl in Hlen; lia].
  - intros H.
    destruct (List.filter _ units) as [|u l] eqn:E; [simpl; lia|]. exfalso.
    assert (Hin : In u (u :: l)) by (by left). rewrite <- E in Hin.
    apply filter_In in Hin as [Hu Hp]. apply andb_true_iff in Hp as [Ho Hk].
    apply (H u); [by apply list_elem_of_In|by apply String.eqb_eq|by apply bool_decide_eq_true in Hk].
Qed.

Lemma allEnemiesDefeated_spec units enemyIds :
  allEnemiesDefeated units enemyIds = true ↔
  ∀ enemyId, enemyId ∈ enemyIds → eliminated units enemyId.
Proof.
  induction enemyIds as [|e rest IH]; simpl.
  - split; [|done]. intros _ ? H. by apply elem_of_nil in H.
  - destruct (0 <? length (holdsKind units e KBase))%nat eqn:EB; simpl.
    { split; [done|]. intros H. exfalso.
      assert (He : eliminated units e) by (apply H; by left).
      assert ((0 <? length (holdsKind units e KBase))%nat = false); [|congruence].
      apply holdsKind_nil. intros u Hu Ho. by apply He. }
    destruct (0 <? length (holdsKind units e KKing))%nat eqn:EK; simpl.
    { split; [done|]. intros H. exfalso.
      assert (He : eliminated units e) by (apply H; by left).
      assert ((0 <? length (holdsKind units e KKing))%nat = false); [|congruence].
      apply holdsKind_nil. intros u Hu Ho. by apply He. }
    destruct (0 <? length (holdsKind units e KQueen))%nat eqn:EQ; simpl.
    { split; [done|]. intros H. exfalso.
      assert (He : eliminated units e) by (apply H; by left).
      assert ((0 <? length (holdsKind units e KQueen))%nat = false); [|congruence].
      apply holdsKind_nil. intros u Hu Ho. by apply He. }
    rewrite IH. split.
    + intros H e' He'. apply elem_of_cons in He' as [->|He']; [|by apply H].
      intros u Hu Ho. split_and!.
      * by apply (proj1 (holdsKind_nil units e KBase) EB).
      * by apply (proj1 (holdsKind_nil units e KKing) EK).
      * by apply (proj1 (holdsKind_nil units e KQueen) EQ).
    + intros H e' He'. apply H. by right.
Qed.

Lemma enemiesOf_elem playerIds playerId enemyId :
  enemyId ∈ enemiesOf playerIds playerId ↔ enemyId ∈ playerIds ∧ enemyId ≠ playerId.
Proof.
  unfold enemiesOf. rewrite list_elem_of_In, filter_In, <- list_elem_of_In.
  rewrite negb_true_iff. split; intros [H1 H2]; split; try done.
  - intros ->. by rewrite String.eqb_refl in H2.
  - by apply String.eqb_neq.
Qed.

Lemma allEnemiesDefeated_opponents units playerIds playerId :
  allEnemiesDefeated units (enemiesOf playerIds playerId) = true ↔
  allOpponentsEliminated units playerIds playerId.
Proof.
  rewrite allEnemiesDefeated_spec. unfold allOpponentsEliminated. split.
  - intros H e He Hne. apply H. by apply enemiesOf_elem.
  - intros H e He. apply enemiesOf_elem in He as [He Hne]. by apply H.
Qed.

Lemma findWinner_spec units playerIds remaining :
  match findWinner units playerIds remaining with
  | Some p =>
      ∃ before after, remaining = before ++ p :: after ∧
        allOpponentsEliminated units playerIds p ∧
        ∀ q, q ∈ before → ¬ allOpponentsEliminated units playerIds q
  | None => ∀ q, q ∈ remaining → ¬ allOpponentsEliminated units playerIds q
  end.
Proof.
  induction remaining as [|p rest IH]; simpl.
  - intros q Hq. by apply elem_of_nil in Hq.
  - destruct (allEnemiesDefeated units (enemiesOf playerIds p)) eqn:E.
    + exists [], rest. split_and!; [done| |].
      * by apply allEnemiesDefeated_opponents.
      * intros q Hq. by apply elem_of_nil in Hq.
    + assert (Hp : ¬ allOpponentsEliminated units playerIds p).
      { intros H. apply allEnemiesDefeated_opponents in H. congruence. }
      destruct (findWinner units playerIds rest) as [w|].
      * destruct IH as (before & after & -> & Hw & Hb).
        exists (p :: before), after. split_and!; [done|done|].
        intros q Hq. apply elem_of_cons in Hq as [->|Hq]; [done|by apply Hb].
      * intros q Hq. apply elem_of_cons in Hq as [->|Hq]; [done|by apply IH].
Qed.

(** C1. When the win-condition check runs, either some player has every
    opposing player down to zero Bases, zero Kings and zero Queens, and then
    the first such player in player order is recorded as winner and the
    match is marked over (nothing else changes); or no player is in that
    position, and then the store is left as it was, so no winner is declared
    while an opposing Base, King or Queen is still among the units. *)
Theorem checkWinConditions_first_winner (draft : Store.t) :
  let playerIds := map Player.id (Store.players draft) in
  let units := Store.units draft in
  (∃ before winner after,
      playerIds = before ++ winner :: after ∧
      allOpponentsEliminated units playerIds winner ∧
      (∀ q, q ∈ before → ¬ allOpponentsEliminated units playerIds q) ∧
      checkWinConditions draft = Store.set_winner (Some winner) (Store.set_gameOver true draft) ∧
      Store.gameOver (checkWinConditions draft) = true ∧
      Store.winner (checkWinConditions draft) = Some winner)
  ∨ ((∀ q, q ∈ playerIds → ¬ allOpponentsEliminated units playerIds q) ∧
     checkWinConditions draft = draft).
Proof.
  intros playerIds units. unfold checkWinConditions. fold playerIds. fold units.
  pose proof (findWinner_spec units playerIds playerIds) as H.
  destruct (findWinner units playerIds playerIds) as [p|].
  - left. destruct H as (before & after & E & Hw & Hb).
    exists before, p, after. by split_and!.
  - right. done.
Qed.

(** ** Orders and patrols *)

Lemma modUnit_queenPatrols ref f st :
  Store.queenPatrols (modUnit ref f st) = Store.queenPatrols st.
Proof. done. Qed.

Lemma moveCommandOne_queenPatrols target st id :
  Store.queenPatrols (moveCommandOne target st id) = Store.queenPatrols st.
Proof.
  unfold moveCommandOne.
  destruct (findById (Store.units st) id); [|done].
  destruct (Store.units st !! n); [|done].
  by destruct (negb _).
Qed.

(** [moveCommand] never touches the patrols. *)
Lemma moveCommand_queenPatrols cmd st :
  Store.queenPatrols (moveCommand cmd st) = Store.queenPatrols st.
Proof.
  unfold moveCommand. generalize (CommandMoveUnits.unitIds cmd). intros ids.
  revert st. induction ids as [|id ids IH]; intros st; [done|].
  simpl. by rewrite IH, moveCommandOne_queenPatrols.
Qed.

(** [setPatrol] on a Queen of the local player installs the patrol and
    clears her movement order. *)
Lemma setPatrol_clears_order cmd st ref queen :
  findById (Store.units st) (CommandSetPatrol.queenId cmd) = Some ref →
  Store.units st !! ref = Some queen →
  Some (Unit.ownerId queen) = Store.localPlayerId st →
  Unit.kind queen = KQueen →
  Store.unitOrders (setPatrol cmd st) !! CommandSetPatrol.queenId cmd = None ∧
  is_Some (Store.queenPatrols (setPatrol cmd st) !! CommandSetPatrol.queenId cmd).
Proof.
  intros Hf Hu Ho Hk. unfold setPatrol. rewrite Hf, Hu.
  rewrite !bool_decide_true by done. simpl. split.
  - apply lookup_delete_eq.
  - rewrite lookup_insert_eq. by eexists.
Qed.

(** C5 (the code departs from the claim). A move order issued to the
    local player's patrolling Queen leaves her patrol in place: after
    [moveCommand] both an order and a patrol are active for her. *)
Theorem moveCommand_leaves_patrol_active :
  orderAndPatrolActive (moveCommand moveQueen patrolStore) "q1".
Proof. split; vm_compute; by eexists. Qed.

(** ** The separation resolver *)

Lemma resolved_fold M newPosition cur allUnits sel loc orders w :
  resolved M newPosition cur allUnits sel loc orders w =
  Push.adjustedPosition
    (fold_left (pushAway M cur sel loc) (nearbyUnits newPosition cur allUnits (5 # 2))
       (Push.mk newPosition false w)).
Proof.
  unfold resolved, checkCollision. cbv zeta.
  destruct (Push.hasCollision _); [|done].
  destruct (_ <=? _)%Z; [|done].
  by destruct (World.nextNow _).
Qed.

(** The friendly pair of the example ends 1.75 apart. *)
Lemma resolved_example :
  Position3D.x (resolved refMath oneEast workerA [workerA; workerB] [] (Some "p1") ∅
                  (constWorld 0 0 "id")) == 7 # 4 ∧
  Position3D.z (resolved refMath oneEast workerA [workerA; workerB] [] (Some "p1") ∅
                  (constWorld 0 0 "id")) == 0.
Proof. split; vm_compute; reflexivity. Qed.


(** What one push does to the ground-plane distance from [other], when the
    root of the squared distance is the rational [s]. *)
Section OnePush.
Variable M : MathLib.t.
Variables (cur other : Unit.t) (sel : list string) (loc : option string).
Variables (p : Position3D.t) (w : World.t) (s : Q).

Let d2 := planarDistanceSquared p (Unit.position other).
Let st := pushAway M cur sel loc (Push.mk p false w) other.

Hypothesis Hsqrt : MathLib.sqrt M d2 = s.
Hypothesis Hs2 : s * s == d2.
Hypothesis Hs : 1 # 1000 <= s.
Hypothesis Hclose : d2 < minimumDistance * minimumDistance.

Lemma s_below_minimum : s < 5 # 2.
Proof.
  unfold minimumDistance in Hclose.
  destruct (Qlt_le_dec s (5 # 2)) as [|Hge]; [done|]. exfalso.
  assert ((5 # 2) * (5 # 2) <= s * s) by nra. lra.
Qed.

Lemma pushAway_enemy :
  Unit.ownerId cur ≠ Unit.ownerId other → 4 < d2 →
  planarDistanceSquared (Push.adjustedPosition st) (Unit.position other)
    == (27 # 10) * (27 # 10) ∧ Push.hasCollision st = true.
Proof.
  intros Hne Hfar. subst st. unfold pushAway. cbv zeta.
  cbn [Push.adjustedPosition Push.world Push.hasCollision].
  change (_ * _ + _ * _) with d2.
  assert (Eeq : String.eqb (Unit.ownerId cur) (Unit.ownerId other) = false)
    by (by apply String.eqb_neq).
  rewrite Eeq. simpl negb.
  rewrite (proj2 (Qle_bool_false d2 4)) by done. simpl andb.
  rewrite (proj2 (Qltb_true d2 _)) by done.
  rewrite Hsqrt. rewrite (proj2 (Qltb_false s (1 # 1000))) by done.
  cbn [Push.adjustedPosition Push.hasCollision]. split; [|done].
  unfold planarDistanceSquared, minimumDistance. cbn [Position3D.x Position3D.z].
  set (dx := Position3D.x p - Position3D.x (Unit.position other)).
  set (dz := Position3D.z p - Position3D.z (Unit.position other)).
  assert (Hd : dx * dx + dz * dz == s * s) by (by rewrite Hs2).
  assert (Hs0 : ~ s == 0) by lra.
  transitivity ((dx * dx + dz * dz) * ((1 + ((5 # 2) - s + (1 # 5)) / s)
                                        * (1 + ((5 # 2) - s + (1 # 5)) / s))).
  - subst dx dz. field. done.
  - rewrite Hd. field. done.
Qed.

Lemma pushAway_enemy_exempt :
  Unit.ownerId cur ≠ Unit.ownerId other → d2 <= 4 →
  st = Push.mk p false w.
Proof.
  intros Hne Hnear. subst st. unfold pushAway. cbv zeta.
  cbn [Push.adjustedPosition Push.world Push.hasCollision].
  change (_ * _ + _ * _) with d2.
  assert (Eeq : String.eqb (Unit.ownerId cur) (Unit.ownerId other) = false)
    by (by apply String.eqb_neq).
  rewrite Eeq. simpl negb. by rewrite (proj2 (Qle_bool_iff d2 4)).
Qed.

Lemma pushAway_friendly :
  Unit.ownerId cur = Unit.ownerId other →
  ∃ pushStrength,
    (pushStrength = 1 # 2 ∨ pushStrength = 1 # 5) ∧
    planarDistanceSquared (Push.adjustedPosition st) (Unit.position other)
      == (s + ((5 # 2) - s) * pushStrength) * (s + ((5 # 2) - s) * pushStrength) ∧
    d2 < planarDistanceSquared (Push.adjustedPosition st) (Unit.position other) ∧
    planarDistanceSquared (Push.adjustedPosition st) (Unit.position other)
      < minimumDistance * minimumDistance ∧
    Push.hasCollision st = false.
Proof.
  intros Heq. pose proof s_below_minimum as Hlt.
  subst st. unfold pushAway. cbv zeta.
  cbn [Push.adjustedPosition Push.world Push.hasCollision].
  change (_ * _ + _ * _) with d2.
  assert (Eeq : String.eqb (Unit.ownerId cur) (Unit.ownerId other) = true)
    by (by apply String.eqb_eq).
  rewrite Eeq. simpl negb. simpl andb.
  rewrite (proj2 (Qltb_true d2 _)) by done.
  rewrite Hsqrt. rewrite (proj2 (Qltb_false s (1 # 1000))) by done.
  set (k := if _ && _ && _ && negb _ then 1 # 5 else 1 # 2).
  assert (Hk : k = 1 # 2 ∨ k = 1 # 5) by (subst k; destruct (_ && _ && _ && negb _); tauto).
  assert (Hk01 : 0 < k ∧ k < 1) by (destruct Hk as [-> | ->]; split; reflexivity).
  clearbody k. exists k. split; [done|].
  cbn [Push.adjustedPosition Push.hasCollision].
  unfold planarDistanceSquared at 1 2 3. unfold minimumDistance.
  cbn [Position3D.x Position3D.z].
  set (dx := Position3D.x p - Position3D.x (Unit.position other)).
  set (dz := Position3D.z p - Position3D.z (Unit.position other)).
  assert (Hd : dx * dx + dz * dz == s * s) by (by rewrite Hs2).
  assert (Hs0 : ~ s == 0) by lra.
  assert (Hmain :
    (Position3D.x p + dx * (1 / s) * (((5 # 2) - s) * k) - Position3D.x (Unit.position other))
    * (Position3D.x p + dx * (1 / s) * (((5 # 2) - s) * k) - Position3D.x (Unit.position other))
    + (Position3D.z p + dz * (1 / s) * (((5 # 2) - s) * k) - Position3D.z (Unit.position other))
      * (Position3D.z p + dz * (1 / s) * (((5 # 2) - s) * k) - Position3D.z (Unit.position other))
    == (s + ((5 # 2) - s) * k) * (s + ((5 # 2) - s) * k)).
  { transitivity ((dx * dx + dz * dz) * ((1 + ((5 # 2) - s) * k / s)
                                          * (1 + ((5 # 2) - s) * k / s))).
    - subst dx dz. field. done.
    - rewrite Hd. field. done. }
  split_and!; [done| | |done].
  - rewrite Hmain. rewrite <- Hs2. destruct Hk01 as [Hk0 Hk1].
    clear - Hs Hlt Hk0 Hk1.
    assert (Ha : 0 < ((5 # 2) - s) * k) by (apply Qmult_lt_0_compat; lra).
    set (a := ((5 # 2) - s) * k) in *. clearbody a. nra.
  - rewrite Hmain. destruct Hk01 as [Hk0 Hk1]. clear - Hs Hlt Hk0 Hk1.
    assert (Ha : 0 < ((5 # 2) - s) * k) by (apply Qmult_lt_0_compat; lra).
    assert (Hb : ((5 # 2) - s) * k < (5 # 2) - s).
    { assert (Hc : ((5 # 2) - s) * k < ((5 # 2) - s) * 1) by (apply Qmult_lt_l; lra).
      lra. }
    set (a := ((5 # 2) - s) * k) in *. clearbody a. nra.
Qed.

End OnePush.



(** ** Determinism of the tick *)

(** The same store ticked with the same arguments gives the lone King the
    thinking offset 1 when [Math.random()] returns 0.75 and the offset 0
    when it returns 0.25. *)
Lemma tick_offset_follows_random :
  Store.aiThinkingOffset
    (fst (tick refMath (1 # 60) 16 loneKingStore (constWorld (3 # 4) 0 "n"))) !! "k1"
    = Some 1%Z ∧
  Store.aiThinkingOffset
    (fst (tick refMath (1 # 60) 16 loneKingStore (constWorld (1 # 4) 0 "n"))) !! "k1"
    = Some 0%Z.
Proof. split; vm_compute; reflexivity. Qed.


Lemma sameSources_eq w1 w2 : sameSources w1 w2 → w1 = w2.
Proof.
  destruct w1 as [r1 n1 i1 c1], w2 as [r2 n2 i2 c2]. simpl.
  intros (Hr & Hn & Hi & Hc). simpl in *.
  f_equal; [by apply functional_extensionality..|done].
Qed.



(** ** What the behavior pass preserves *)


Lemma map_essence_alter f ref (units : list Unit.t) :
  keepsEssence f → map essence (alter f ref units) = map essence units.
Proof.
  intros Hf. apply list_eq. intros i. rewrite !list_lookup_fmap.
  destruct (decide (i = ref)) as [->|Hne].
  - rewrite list_lookup_alter_eq. destruct (units !! ref); simpl; [|done]. by rewrite Hf.
  - by rewrite list_lookup_alter_ne.
Qed.

Section PassInvariant.
Variable M : MathLib.t.
Variables (dtSec nowMs : Q).
Variable us0 : list Unit.t.

Lemma passInv_setU ref f c :
  keepsEssence f → passInv us0 c → passInv us0 (setU ref f c).
Proof.
  intros Hf [He Hp]. split; [|done].
  unfold setU, Ctx.units, Ctx.mapDraft, modUnit. simpl.
  by rewrite map_essence_alter.
Qed.

Lemma passInv_mapDraft g c :
  (∀ d, Store.units (g d) = Store.units d) → passInv us0 c → passInv us0 (Ctx.mapDraft g c).
Proof.
  intros Hg [He Hp]. split; [|done].
  unfold Ctx.units, Ctx.mapDraft. simpl. by rewrite Hg.
Qed.

Lemma passInv_set_world w c : passInv us0 c → passInv us0 (Ctx.set_world w c).
Proof. by intros [He Hp]. Qed.

Lemma passInv_lookup c ref unit :
  passInv us0 c → Ctx.units c !! ref = Some unit →
  ∃ unit', us0 !! ref = Some unit' ∧ essence unit' = essence unit.
Proof.
  intros [He _] Hu.
  assert (H : map essence (Ctx.units c) !! ref = Some (essence unit))
    by (by rewrite list_lookup_fmap, Hu).
  rewrite He, list_lookup_fmap in H.
  destruct (us0 !! ref) as [unit'|]; [|done]. exists unit'. split; [done|].
  simpl in H. congruence.
Qed.

Lemma passInv_pushPair ref target unit targetUnit c :
  Ctx.units c !! ref = Some unit → Ctx.units c !! target = Some targetUnit →
  passInv us0 c →
  passInv us0 (Ctx.pushPair (CombatPair.mk ref target (Unit.attackDamage unit)) c).
Proof.
  intros Hr Ht Hc. pose proof Hc as [He Hp]. split; [done|].
  unfold Ctx.pushPair. simpl. apply Forall_app. split; [done|].
  apply Forall_singleton.
  destruct (passInv_lookup c ref unit Hc Hr) as (a & Ha & Ea).
  destruct (passInv_lookup c target targetUnit Hc Ht) as (t & Ht' & _).
  exists a, t. simpl. split_and!; [done|done|].
  unfold essence, traits in Ea. by injection Ea.
Qed.

Lemma checkCollision_essence newPosition unit allUnits r sel loc orders w :
  essence (snd (fst (checkCollision M newPosition unit allUnits r sel loc orders w)))
  = essence unit.
Proof.
  unfold checkCollision. cbv zeta.
  destruct (Push.hasCollision _); [|done].
  destruct (_ <=? _)%Z; [|done].
  by destruct (World.nextNow _).
Qed.

Lemma passInv_moveResolved ref newPosition c :
  passInv us0 c → passInv us0 (moveResolved M ref newPosition c).
Proof.
  intros Hc. unfold moveResolved.
  destruct (Ctx.units c !! ref) as [unit|] eqn:Hu; [|done].
  pose proof (checkCollision_essence newPosition unit (Store.units (Ctx.draft c)) (5 # 2)
    (Store.selectedUnitIds (Ctx.draft c)) (Store.localPlayerId (Ctx.draft c))
    (Store.unitOrders (Ctx.draft c)) (Ctx.world c)) as He.
  destruct (checkCollision _ _ _ _ _ _ _ _ _) as [[position unit'] w]. simpl in He.
  apply passInv_set_world.
  destruct Hc as [Hes Hp]. split; [|done].
  unfold setU, Ctx.units, Ctx.mapDraft, modUnit. simpl.
  rewrite <- Hes. unfold Ctx.units.
  apply list_eq. intros i. rewrite !list_lookup_fmap.
  destruct (decide (i = ref)) as [->|Hne].
  - rewrite list_lookup_alter_eq. unfold Ctx.units in Hu. rewrite Hu. simpl.
    f_equal. rewrite <- He. done.
  - by rewrite list_lookup_alter_ne.
Qed.



Lemma passInv2_pair c t : passInv us0 c → passInv2 us0 (c, t).
Proof. done. Qed.

End PassInvariant.

Ltac pass_essence :=
  let u := fresh "u" in
  intros u; unfold hop; repeat case_match; reflexivity.

(** Symbolic execution of a behavior function under the invariant: each
    [let] is run once and then forgotten up to the invariant. *)
Ltac pass :=
  lazymatch goal with
  | H : passInv ?us ?c |- passInv ?us ?c => exact H
  | |- passInv2 _ (_, _) => apply passInv2_pair; pass
  | |- passInv _ (setU _ _ _) => apply passInv_setU; [pass_essence | pass]
  | |- passInv _ (Ctx.mapDraft _ _) => apply passInv_mapDraft; [done | pass]
  | |- passInv _ (Ctx.set_world _ _) => apply passInv_set_world; pass
  | |- passInv _ (moveResolved _ _ _ _) => apply passInv_moveResolved; pass
  | |- ?P (let x := ?X in @?b x) =>
      let us := lazymatch P with
                | passInv ?u => constr:(u)
                | passInv2 ?u => constr:(u)
                end in
      lazymatch type of X with
      | Ctx.t =>
          let c := fresh "c" in
          let Hc := fresh "Hc" in
          cut (passInv us X);
          [ generalize X; intros c Hc; change (P (b c)); cbv beta; pass | pass ]
      | _ =>
          let v := fresh "v" in
          generalize X; intros v; change (P (b v)); cbv beta; pass
      end
  | |- _ (if ?b then _ else _) => destruct b; pass
  | |- _ (match ?x with _ => _ end) => destruct x; pass
  end.

Section BehaviorFrame.
Variable M : MathLib.t.
Variables (dtSec nowMs : Q).
Variable us0 : list Unit.t.

Lemma passInv_aiOrder ref unit0 order c :
  passInv us0 c → passInv us0 (aiOrder M dtSec nowMs ref unit0 order c).
Proof. intros Hc. unfold aiOrder. pass. Qed.

Lemma passInv_queenPatrol ref unit0 patrol c :
  passInv us0 c → passInv us0 (queenPatrol M dtSec ref unit0 patrol c).
Proof. intros Hc. unfold queenPatrol. pass. Qed.

Lemma passInv_playerOrder ref unit0 order c :
  passInv us0 c → passInv2 us0 (playerOrder M dtSec nowMs ref unit0 order c).
Proof. intros Hc. unfold playerOrder. pass. Qed.

Lemma passInv_playerIdle ref unit0 c :
  passInv us0 c → passInv2 us0 (playerIdle nowMs ref unit0 c).
Proof. intros Hc. unfold playerIdle. pass. Qed.

Lemma passInv_detectEnemy ref unit0 isPlayerUnit shouldThink c :
  passInv us0 c → passInv2 us0 (detectEnemy nowMs ref unit0 isPlayerUnit shouldThink c).
Proof. intros Hc. unfold detectEnemy. pass. Qed.

Lemma passInv_engage ref target c :
  passInv us0 c → passInv us0 (engage M dtSec nowMs ref target c).
Proof.
  intros Hc. unfold engage.
  destruct (Ctx.units c !! ref) as [unit|] eqn:Hr; [|done].
  destruct (Ctx.units c !! target) as [targetUnit|] eqn:Ht; [|done].
  cbv zeta.
  set (c1 := setU ref _ c).
  assert (H1 : passInv us0 c1) by (subst c1; pass).
  assert (Hr1 : ∃ unit1, Ctx.units c1 !! ref = Some unit1 ∧
                         Unit.attackDamage unit1 = Unit.attackDamage unit).
  { subst c1. unfold setU, Ctx.units, Ctx.mapDraft, modUnit. simpl.
    rewrite list_lookup_alter_eq. unfold Ctx.units in Hr. rewrite Hr. simpl. by eexists. }
  assert (Ht1 : ∃ target1, Ctx.units c1 !! target = Some target1).
  { subst c1. unfold setU, Ctx.units, Ctx.mapDraft, modUnit. simpl.
    unfold Ctx.units in Ht. destruct (decide (target = ref)) as [->|Hne].
    - rewrite list_lookup_alter_eq, Ht. by eexists.
    - rewrite list_lookup_alter_ne, Ht by done. by eexists. }
  clearbody c1. destruct Hr1 as (unit1 & Hr1 & Hd). destruct Ht1 as (target1 & Ht1).
  set (c2 := if _ && _ then _ else c1).
  assert (H2 : passInv us0 c2).
  { subst c2. destruct (_ && _); [|done].
    apply passInv_setU; [pass_essence|]. apply passInv_setU; [pass_essence|].
    rewrite <- Hd. by apply (passInv_pushPair us0 ref target unit1 target1). }
  clearbody c2. pass.
Qed.

Lemma passInv_behave c ref :
  passInv us0 c → passInv us0 (behave M dtSec nowMs c ref).
Proof.
  intros Hc. unfold behave.
  destruct (Ctx.units c !! ref) as [unit0|]; [|done]. cbv zeta.
  set (isPlayerUnit := from_option _ _ _). clearbody isPlayerUnit.
  set (shouldThink := _ || _ || _). clearbody shouldThink.
  set (c1 := if negb _ then _ else c).
  assert (H1 : passInv us0 c1).
  { subst c1. destruct (negb _); [|done]. destruct (World.nextRandom _). pass. }
  clearbody c1.
  set (X := if isPlayerUnit then _ else _).
  assert (HX : passInv2 us0 X).
  { subst X. destruct isPlayerUnit.
    - set (c2 := if bool_decide _ then _ else c1).
      assert (H2 : passInv us0 c2) by (subst c2; pass). clearbody c2.
      destruct (Store.unitOrders _ !! _).
      + by apply passInv_playerOrder.
      + by apply passInv_playerIdle.
    - destruct (Store.unitOrders _ !! _).
      + by apply passInv2_pair, passInv_aiOrder.
      + destruct (Store.queenPatrols _ !! _).
        * destruct (bool_decide _); [|done]. by apply passInv2_pair, passInv_queenPatrol.
        * by apply passInv_detectEnemy. }
  clearbody X. destruct X as [c2 [target|]]; [|done].
  by apply passInv_engage.
Qed.

Lemma passInv_behaviorPass refs c :
  passInv us0 c → passInv us0 (behaviorPass M dtSec nowMs refs c).
Proof.
  unfold behaviorPass. revert c.
  induction refs as [|ref refs IH]; intros c Hc; [done|].
  simpl. by apply IH, passInv_behave.
Qed.

End BehaviorFrame.

(** ** Applying the queued pairs *)

Section Combat.
Variable M : MathLib.t.
Variables (dtSec nowMs : Q).

Lemma setU_units ref f c :
  Ctx.units (setU ref f c) = alter f ref (Ctx.units c).
Proof. done. Qed.

Lemma setU_combatPairs ref f c : Ctx.combatPairs (setU ref f c) = Ctx.combatPairs c.
Proof. done. Qed.

Lemma setU_dead ref f c :
  Store.deadUnitsToRemove (Ctx.draft (setU ref f c)) = Store.deadUnitsToRemove (Ctx.draft c).
Proof. done. Qed.

(** [moveResolved] replaces the unit behind [ref] by one of the same
    essence, at the position the resolver returns. *)
Lemma moveResolved_spec ref newPosition c unit :
  Ctx.units c !! ref = Some unit →
  ∃ unit',
    essence unit' = essence unit ∧
    Unit.position unit' =
      resolved M newPosition unit (Ctx.units c) (Store.selectedUnitIds (Ctx.draft c))
        (Store.localPlayerId (Ctx.draft c)) (Store.unitOrders (Ctx.draft c)) (Ctx.world c) ∧
    Ctx.units (moveResolved M ref newPosition c) = <[ref := unit']> (Ctx.units c) ∧
    Ctx.combatPairs (moveResolved M ref newPosition c) = Ctx.combatPairs c ∧
    Store.deadUnitsToRemove (Ctx.draft (moveResolved M ref newPosition c))
    = Store.deadUnitsToRemove (Ctx.draft c).
Proof.
  intros Hu. unfold moveResolved, resolved. rewrite Hu. unfold Ctx.units.
  pose proof (checkCollision_essence M newPosition unit (Store.units (Ctx.draft c)) (5 # 2)
    (Store.selectedUnitIds (Ctx.draft c)) (Store.localPlayerId (Ctx.draft c))
    (Store.unitOrders (Ctx.draft c)) (Ctx.world c)) as He.
  destruct (checkCollision _ _ _ _ _ _ _ _ _) as [[position unit'] w]. simpl in He.
  exists (Unit.set_position position unit'). split_and!; [done|done| |done|done].
  unfold Ctx.set_world, setU, Ctx.mapDraft, modUnit. simpl.
  apply list_eq. intros i. destruct (decide (i = ref)) as [->|Hne].
  - rewrite list_lookup_alter_eq, list_lookup_insert_eq.
    + unfold Ctx.units in Hu. by rewrite Hu.
    + by apply lookup_lt_Some in Hu.
  - by rewrite list_lookup_alter_ne, list_lookup_insert_ne.
Qed.

Lemma unitOf_lookup c ref fallback unit :
  Ctx.units c !! ref = Some unit → unitOf c ref fallback = unit.
Proof. intros H. unfold unitOf. by rewrite H. Qed.

(** The effect of one queued pair. *)
Lemma applyPair_spec c pair attackerU targetU :
  Ctx.units c !! CombatPair.attacker pair = Some attackerU →
  Ctx.units c !! CombatPair.target pair = Some targetU →
  let direction :=
    normalize3D M (subtract3D (Unit.position targetU) (Unit.position attackerU)) in
  let hit := Unit.set_hp (Unit.hp targetU - CombatPair.damage pair) targetU in
  ∃ target',
    Ctx.units (applyPair M c pair) = <[CombatPair.target pair := target']> (Ctx.units c) ∧
    traits target' = traits targetU ∧
    Unit.hp target' = Unit.hp targetU - CombatPair.damage pair ∧
    Ctx.combatPairs (applyPair M c pair) = Ctx.combatPairs c ∧
    Store.deadUnitsToRemove (Ctx.draft (applyPair M c pair)) =
      Store.deadUnitsToRemove (Ctx.draft c)
      ++ (if Qle_bool (Unit.hp target') 0 then [Unit.id targetU] else []) ∧
    (Unit.position target' ≠ Unit.position targetU → 0 < Unit.hp target') ∧
    (0 < Unit.hp target' →
     ¬ (Position3D.x direction == 0 ∧ Position3D.z direction == 0) →
     Unit.position target' =
       resolved M (stepFrom (Unit.position targetU) direction knockbackDistance) hit
         (<[CombatPair.target pair := hit]> (Ctx.units c))
         (Store.selectedUnitIds (Ctx.draft c)) (Store.localPlayerId (Ctx.draft c))
         (Store.unitOrders (Ctx.draft c)) (Ctx.world c)).
Proof.
  intros Ha Ht direction hit. unfold applyPair. rewrite Ha, Ht. cbv zeta.
  set (c1 := setU (CombatPair.target pair) _ c).
  assert (Hu1 : Ctx.units c1 = <[CombatPair.target pair := hit]> (Ctx.units c)).
  { subst c1. rewrite setU_units. apply list_eq. intros i.
    destruct (decide (i = CombatPair.target pair)) as [->|Hne].
    - rewrite list_lookup_alter_eq, list_lookup_insert_eq, Ht; [done|].
      by apply lookup_lt_Some in Ht.
    - by rewrite list_lookup_alter_ne, list_lookup_insert_ne. }
  assert (Ht1 : Ctx.units c1 !! CombatPair.target pair = Some hit).
  { rewrite Hu1. apply list_lookup_insert_eq. by apply lookup_lt_Some in Ht. }
  assert (Hd1 : Ctx.draft c1 = modUnit (CombatPair.target pair)
                  (fun t => Unit.set_hp (Unit.hp t - CombatPair.damage pair) t) (Ctx.draft c))
    by done.
  assert (Hw1 : Ctx.world c1 = Ctx.world c) by done.
  assert (Hp1 : Ctx.combatPairs c1 = Ctx.combatPairs c) by done.
  rewrite !(unitOf_lookup c1 (CombatPair.target pair) targetU hit Ht1).
  change (Unit.hp hit) with (Unit.hp targetU - CombatPair.damage pair).
  change (Unit.id hit) with (Unit.id targetU).
  change (Unit.position hit) with (Unit.position targetU).
  set (hp' := Unit.hp targetU - CombatPair.damage pair).
  set (c2 := if Qle_bool hp' 0 then _ else c1).
  assert (Hu2 : Ctx.units c2 = Ctx.units c1) by (subst c2; by destruct (Qle_bool hp' 0)).
  assert (Hw2 : Ctx.world c2 = Ctx.world c) by (subst c2; by destruct (Qle_bool hp' 0)).
  assert (Hp2 : Ctx.combatPairs c2 = Ctx.combatPairs c) by (subst c2; by destruct (Qle_bool hp' 0)).
  assert (Hs2 : Store.selectedUnitIds (Ctx.draft c2) = Store.selectedUnitIds (Ctx.draft c) ∧
                Store.localPlayerId (Ctx.draft c2) = Store.localPlayerId (Ctx.draft c) ∧
                Store.unitOrders (Ctx.draft c2) = Store.unitOrders (Ctx.draft c))
    by (subst c2; by destruct (Qle_bool hp' 0)).
  assert (Hdead2 : Store.deadUnitsToRemove (Ctx.draft c2) =
                   Store.deadUnitsToRemove (Ctx.draft c)
                   ++ (if Qle_bool hp' 0 then [Unit.id targetU] else [])).
  { subst c2. destruct (Qle_bool hp' 0); simpl; [done|]. by rewrite app_nil_r. }
  assert (Hatt : Unit.position (unitOf c2 (CombatPair.attacker pair) targetU)
                 = Unit.position attackerU).
  { unfold unitOf. rewrite Hu2, Hu1.
    destruct (decide (CombatPair.attacker pair = CombatPair.target pair)) as [E|Hne].
    - rewrite E, list_lookup_insert_eq by (by apply lookup_lt_Some in Ht).
      simpl. rewrite E, Ht in Ha. by injection Ha as ->.
    - by rewrite list_lookup_insert_ne, Ha. }
  rewrite Hatt. fold direction. clearbody c2.
  destruct (Qgtb hp' 0) eqn:Ehp; simpl andb.
  - apply Qgtb_true in Ehp.
    destruct (negb (Qeq_bool (Position3D.x direction) 0)
              || negb (Qeq_bool (Position3D.z direction) 0)) eqn:Edir.
    + assert (Ht2 : Ctx.units c2 !! CombatPair.target pair = Some hit) by (by rewrite Hu2).
      destruct (moveResolved_spec (CombatPair.target pair)
                  (stepFrom (Unit.position targetU) direction knockbackDistance) c2 hit Ht2)
        as (t' & He & Hpos & Hu & Hp & Hd).
      exists t'. destruct Hs2 as (Hsel & Hloc & Hord).
      rewrite Hu, Hp, Hd, Hu2, Hu1, Hp2, Hdead2.
      pose proof (f_equal fst He) as Htr. pose proof (f_equal snd He) as Hhp.
      simpl in Htr, Hhp. change (Unit.hp targetU - CombatPair.damage pair) with hp' in Hhp.
      rewrite Hhp. split_and!; try done.
      * by rewrite list_insert_insert_eq.
      * intros _. rewrite Hpos. by rewrite Hu2, Hu1, Hsel, Hloc, Hord, Hw2.
    + exists hit. rewrite Hu2, Hu1, Hp2, Hdead2. split_and!; try done.
      intros _ Hnz. exfalso. apply Hnz.
      apply orb_false_iff in Edir as [Ex Ez].
      apply negb_false_iff in Ex, Ez. by split; apply Qeq_bool_iff.
  - apply Qgtb_false in Ehp.
    exists hit. rewrite Hu2, Hu1, Hp2, Hdead2. split_and!; try done.
    intros H. exfalso. change (Unit.hp hit) with hp' in H. lra.
Qed.


Lemma applyPair_step c pair :
  pairInRange (length (Ctx.units c)) pair →
  let c' := applyPair M c pair in
  length (Ctx.units c') = length (Ctx.units c) ∧
  Ctx.combatPairs c' = Ctx.combatPairs c ∧
  (deadListed c → deadListed c') ∧
  ∀ j u, Ctx.units c !! j = Some u →
    ∃ u', Ctx.units c' !! j = Some u' ∧ traits u' = traits u ∧
          Unit.hp u' = if decide (CombatPair.target pair = j)
                       then Unit.hp u - CombatPair.damage pair else Unit.hp u.
Proof.
  intros [Hra Hrt] c'.
  destruct (lookup_lt_is_Some_2 _ _ Hra) as [attackerU Ha].
  destruct (lookup_lt_is_Some_2 _ _ Hrt) as [targetU Ht].
  destruct (applyPair_spec c pair attackerU targetU Ha Ht)
    as (t' & Hu & Htr & Hhp & Hp & Hd & _ & _).
  fold c' in Hu, Hp, Hd. split_and!.
  - by rewrite Hu, length_insert.
  - done.
  - intros HJ j u Hj Hle. rewrite Hd. apply elem_of_app.
    rewrite Hu in Hj. destruct (decide (j = CombatPair.target pair)) as [->|Hne].
    + rewrite list_lookup_insert_eq in Hj by done. injection Hj as <-.
      right. rewrite (proj2 (Qle_bool_iff _ _) Hle). apply list_elem_of_singleton.
      pose proof (f_equal (fun x => x.1.1.1.1.1.1) Htr) as Hid. done.
    + rewrite list_lookup_insert_ne in Hj by done. left. by apply (HJ j).
  - intros j u Hj. rewrite Hu. destruct (decide (CombatPair.target pair = j)) as [<-|Hne].
    + rewrite list_lookup_insert_eq by done. exists t'.
      rewrite Ht in Hj. injection Hj as <-. done.
    + rewrite list_lookup_insert_ne by done. by exists u.
Qed.

Lemma applyPairs_fold pairs c :
  Forall (pairInRange (length (Ctx.units c))) pairs →
  let c' := fold_left (applyPair M) pairs c in
  length (Ctx.units c') = length (Ctx.units c) ∧
  (deadListed c → deadListed c') ∧
  ∀ j u, Ctx.units c !! j = Some u →
    ∃ u', Ctx.units c' !! j = Some u' ∧ traits u' = traits u ∧
          Unit.hp u' == Unit.hp u - damageTo j pairs.
Proof.
  revert c. induction pairs as [|pair pairs IH]; intros c Hr; simpl.
  - split_and!; [done|done|]. intros j u Hj. exists u. split_and!; [done|done|ring].
  - inversion Hr as [|? ? Hp Hps]; subst.
    destruct (applyPair_step c pair Hp) as (Hlen & _ & HJ & Hstep).
    destruct (IH (applyPair M c pair)) as (Hlen' & HJ' & Hrest).
    { by rewrite Hlen. }
    split_and!.
    + by rewrite Hlen'.
    + intros H. by apply HJ', HJ.
    + intros j u Hj. destruct (Hstep j u Hj) as (u1 & Hj1 & Htr1 & Hhp1).
      destruct (Hrest j u1 Hj1) as (u2 & Hj2 & Htr2 & Hhp2).
      exists u2. split_and!; [done|congruence|].
      rewrite Hhp2, Hhp1. destruct (decide (CombatPair.target pair = j)); ring.
Qed.

Lemma damageTo_nonneg j pairs :
  Forall (fun pair => 0 <= CombatPair.damage pair) pairs → 0 <= damageTo j pairs.
Proof.
  induction 1 as [|pair pairs Hp _ IH]; simpl; [lra|].
  destruct (decide _); lra.
Qed.

(** *** Queueing *)

Lemma moveResolved_combatPairs ref newPosition c :
  Ctx.combatPairs (moveResolved M ref newPosition c) = Ctx.combatPairs c.
Proof.
  unfold moveResolved. destruct (Ctx.units c !! ref); [|done].
  by destruct (checkCollision _ _ _ _ _ _ _ _ _) as [[? ?] ?].
Qed.

(** Whether [engage] queues a pair. *)
Lemma engage_combatPairs ref target c unit targetUnit :
  Ctx.units c !! ref = Some unit → Ctx.units c !! target = Some targetUnit →
  Ctx.combatPairs (engage M dtSec nowMs ref target c) =
  if Qle_bool (distanceSquared3D (Unit.position unit) (Unit.position targetUnit))
       ATTACK_RANGE_SQUARED
     && Qgeb (nowMs - Unit.lastAttackAtMs unit) (Unit.attackCooldownMs unit)
  then Ctx.combatPairs c ++ [CombatPair.mk ref target (Unit.attackDamage unit)]
  else Ctx.combatPairs c.
Proof.
  intros Hr Ht. unfold engage. rewrite Hr, Ht. cbv zeta.
  destruct (Qgtb _ ATTACK_RANGE_SQUARED).
  - rewrite setU_combatPairs, moveResolved_combatPairs. by destruct (_ && _).
  - by destruct (_ && _).
Qed.

Lemma spawnOne_combatPairs c ref :
  Ctx.combatPairs (spawnOne M nowMs c ref) = Ctx.combatPairs c.
Proof.
  unfold spawnOne. destruct (Ctx.units c !! ref); [|done]. cbv zeta.
  destruct (Qgeb _ _); [|done]. destruct (_ <? 20)%Z; [|done].
  destruct (createUnit _ _ _ _ _) as [tempUnit w].
  by destruct (checkCollision _ _ _ _ _ _ _ _ _) as [[? ?] ?].
Qed.

Lemma spawn_combatPairs queens c :
  Ctx.combatPairs (spawn M nowMs queens c) = Ctx.combatPairs c.
Proof.
  unfold spawn. revert c. induction queens as [|q queens IH]; intros c; [done|].
  simpl. by rewrite IH, spawnOne_combatPairs.
Qed.

Lemma afterSpawn_combatPairs prev w : Ctx.combatPairs (afterSpawn M nowMs prev w) = [].
Proof. unfold afterSpawn. by rewrite spawn_combatPairs. Qed.

(** The invariant of the behavior pass holds when the pass ends. *)
Lemma afterBehavior_passInv prev w :
  passInv (Ctx.units (afterSpawn M nowMs prev w)) (afterBehavior M dtSec nowMs prev w).
Proof.
  unfold afterBehavior. apply passInv_behaviorPass. split; [done|].
  rewrite afterSpawn_combatPairs. constructor.
Qed.

Lemma passInv_pairs_in_range us c :
  passInv us c → Forall (pairInRange (length (Ctx.units c))) (Ctx.combatPairs c).
Proof.
  intros [He Hp].
  assert (Hlen : length (Ctx.units c) = length us).
  { by rewrite <- (length_map essence), He, length_map. }
  rewrite Hlen. eapply Forall_impl; [exact Hp|].
  intros pair (a & t & Ha & Ht & _). split; by eapply lookup_lt_Some.
Qed.

End Combat.



(** ** Regeneration *)

(** *** The first wounded units *)

Lemma refsWhere_take (p : Unit.t → bool) (l : list Unit.t) (k m i : nat) :
  i ∈ take m (map fst (List.filter (fun iu => p (snd iu)) (zip (seq k (length l)) l))) ↔
  ∃ j u, i = (k + j)%nat ∧ l !! j = Some u ∧ p u = true ∧
         (length (List.filter p (take j l)) < m)%nat.
Proof.
  revert k m. induction l as [|a l IH]; intros k m.
  - simpl. rewrite take_nil. split; [by intros H%elem_of_nil|by intros (j & u & _ & H & _)].
  - simpl. destruct (p a) eqn:Ea; simpl.
    + destruct m as [|m].
      * simpl. split; [by intros H%elem_of_nil|].
        intros (j & u & _ & _ & _ & H). lia.
      * simpl. rewrite elem_of_cons, IH. split.
        -- intros [->|(j & u & -> & Hj & Hp & Hlen)].
           ++ exists 0%nat, a. simpl. split_and!; [lia|done|done|lia].
           ++ exists (S j), u. simpl. rewrite Ea. simpl. split_and!; [lia|done|done|lia].
        -- intros (j & u & -> & Hj & Hp & Hlen). destruct j as [|j].
           ++ left. lia.
           ++ right. exists j, u. simpl in Hj, Hlen. rewrite Ea in Hlen. simpl in Hlen.
              split_and!; [lia|done|done|lia].
    + rewrite IH. split.
      * intros (j & u & -> & Hj & Hp & Hlen).
        exists (S j), u. simpl. rewrite Ea. split_and!; [lia|done|done|done].
      * intros (j & u & -> & Hj & Hp & Hlen). destruct j as [|j].
        -- simpl in Hj. injection Hj as ->. congruence.
        -- exists j, u. simpl in Hj, Hlen. rewrite Ea in Hlen.
           split_and!; [lia|done|done|done].
Qed.

Lemma refsWhere_NoDup (p : Unit.t → bool) (l : list Unit.t) (k : nat) :
  NoDup (map fst (List.filter (fun iu => p (snd iu)) (zip (seq k (length l)) l))).
Proof.
  revert k. induction l as [|a l IH]; intros k; simpl; [constructor|].
  destruct (p a); simpl; [|apply IH].
  constructor; [|apply IH].
  intros Hin. rewrite <- (take_ge _ (length l)) in Hin.
  - apply refsWhere_take in Hin as (j & u & E & _). lia.
  - rewrite length_map. etransitivity; [apply List.filter_length_le|].
    rewrite length_zip, length_seq. lia.
Qed.

(** The references the regeneration loop visits: the wounded units with
    fewer than 30 wounded units before them. *)
Lemma healing_refs units i :
  i ∈ take 30 (Categories.unitsNeedingHealing (categorize units)) ↔
  ∃ u, units !! i = Some u ∧ Qltb (Unit.hp u) (Unit.maxHp u) = true ∧
       (woundedBefore units i < 30)%nat.
Proof.
  pose proof (refsWhere_take (fun u => Qltb (Unit.hp u) (Unit.maxHp u)) units 0 30 i) as H.
  unfold categorize, indexed. cbn [Categories.unitsNeedingHealing].
  etransitivity; [exact H|]. unfold woundedBefore. split.
  - intros (j & u & -> & H'). by exists u.
  - intros (u & H'). by exists i, u.
Qed.

Lemma healing_refs_NoDup units :
  NoDup (take 30 (Categories.unitsNeedingHealing (categorize units))).
Proof.
  unfold categorize, indexed. cbn [Categories.unitsNeedingHealing].
  eapply sublist_NoDup; [|apply sublist_take].
  exact (refsWhere_NoDup (fun u => Qltb (Unit.hp u) (Unit.maxHp u)) units 0).
Qed.

(** *** The Queen test through the grid *)

Lemma filter_nonempty {A} (P : A → bool) (l : list A) :
  (0 <? length (List.filter P l))%nat = true ↔ ∃ x, x ∈ l ∧ P x = true.
Proof.
  rewrite Nat.ltb_lt. split.
  - intros H. destruct (List.filter P l) as [|x l'] eqn:E; [simpl in H; lia|].
    exists x. assert (Hin : In x (List.filter P l)) by (rewrite E; by left).
    apply filter_In in Hin as [Hin Hp]. split; [by apply list_elem_of_In|done].
  - intros (x & Hin & Hp).
    assert (Hx : In x (List.filter P l)) by (apply filter_In; split; [by apply list_elem_of_In|done]).
    destruct (List.filter P l); [done|simpl; lia].
Qed.

Lemma getNearbyUnits_positions heap1 heap2 g pos r :
  map Unit.position heap1 = map Unit.position heap2 →
  SpatialGrid.getNearbyUnits heap1 g pos r = SpatialGrid.getNearbyUnits heap2 g pos r.
Proof.
  intros H. unfold SpatialGrid.getNearbyUnits. cbv zeta.
  assert (Hw : ∀ ref, SpatialGrid.refWithin heap1 pos r ref = SpatialGrid.refWithin heap2 pos r ref).
  { intros ref. unfold SpatialGrid.refWithin.
    pose proof (f_equal (fun l => l !! ref) H) as Hl. simpl in Hl.
    rewrite !list_lookup_fmap in Hl.
    destruct (heap1 !! ref), (heap2 !! ref); simpl in Hl; try done. by injection Hl as ->. }
  apply flat_map_ext. intros dx. apply flat_map_ext. intros dz.
  destruct (SpatialGrid.grid g !! _); [|done].
  apply List.filter_ext. intros ref. apply Hw.
Qed.


Lemma findNearbyQueens_geo heap1 heap2 g unit r :
  map geo heap1 = map geo heap2 →
  SpatialGrid.findNearbyQueens heap1 g unit r = SpatialGrid.findNearbyQueens heap2 g unit r.
Proof.
  intros H. unfold SpatialGrid.findNearbyQueens.
  assert (Hp : map Unit.position heap1 = map Unit.position heap2).
  { apply (f_equal (map (fun x => x.1.1))) in H. by rewrite !map_map in H. }
  rewrite (getNearbyUnits_positions heap1 heap2 g _ r Hp).
  apply List.filter_ext. intros ref.
  pose proof (f_equal (fun l => l !! ref) H) as Hl. simpl in Hl.
  rewrite !list_lookup_fmap in Hl.
  destruct (heap1 !! ref) as [a|], (heap2 !! ref) as [b|]; simpl in Hl; try done.
  injection Hl as Hpos Hk Ho. by rewrite Hpos, Hk, Ho.
Qed.

Lemma within_spec a b r :
  within a b r = true ↔ 0 <= r ∧ distanceSquared a b <= r * r.
Proof. unfold within. apply sqrt_le_spec. Qed.

(** On a grid freshly built from [units], the Queen test succeeds exactly
    when a friendly Queen is within the radius. *)
Lemma findNearbyQueens_spec g units unit r :
  0 < SpatialGrid.cellSize g →
  (0 <? length (SpatialGrid.findNearbyQueens units (SpatialGrid.buildFromUnits g units)
                  unit r))%nat = true
  ↔ friendlyQueenNear units unit r.
Proof.
  intros Hs. unfold SpatialGrid.findNearbyQueens. rewrite filter_nonempty.
  pose proof (getNearbyUnits_refs g units (Unit.position unit) r Hs) as Hperm.
  unfold friendlyQueenNear. split.
  - intros (ref & Hin & Hp). rewrite Hperm in Hin.
    destruct (units !! ref) as [q|] eqn:Hq; [|done].
    apply andb_true_iff in Hp as [Hp Hw]. apply andb_true_iff in Hp as [Hk Ho].
    exists q. apply bool_decide_eq_true in Hk. apply String.eqb_eq in Ho.
    apply within_spec in Hw as [Hr Hd].
    split_and!; try done. by eapply list_elem_of_lookup_2.
  - intros (q & Hin & Hk & Ho & Hr & Hd).
    apply list_elem_of_lookup in Hin as [ref Hq]. exists ref.
    assert (Hw : within (Unit.position unit) (Unit.position q) r = true)
      by (by apply within_spec).
    split.
    + rewrite Hperm. apply list_elem_of_In, filter_In. split.
      * apply list_elem_of_In, elem_of_seq. apply lookup_lt_Some in Hq. lia.
      * unfold SpatialGrid.refWithin. by rewrite Hq.
    + rewrite Hq. rewrite Hw, andb_true_r. apply andb_true_iff.
      split; [by apply bool_decide_eq_true|by apply String.eqb_eq].
Qed.

(** *** The regeneration loop *)

Lemma NoDup_ids_eq (units : list Unit.t) i j u v :
  NoDup (map Unit.id units) → units !! i = Some u → units !! j = Some v →
  Unit.id u = Unit.id v → i = j.
Proof.
  intros Hnd Hi Hj E.
  eapply (NoDup_lookup (map Unit.id units)); [done| |].
  - by rewrite list_lookup_fmap, Hi.
  - rewrite list_lookup_fmap, Hj. simpl. by rewrite E.
Qed.

Lemma regenInv_geo nowMs d0 grid L d :
  regenInv nowMs d0 grid L d → map geo (Store.units d) = map geo (Store.units d0).
Proof.
  intros (_ & _ & Hu & _). apply list_eq. intros i.
  rewrite !list_lookup_fmap, Hu. destruct (Store.units d0 !! i) as [u|]; [|done]. simpl.
  by destruct (_ && _).
Qed.

Lemma regenOne_step nowMs d0 grid L d r u :
  NoDup (map Unit.id (Store.units d0)) →
  regenInv nowMs d0 grid L d → r ∉ L → Store.units d0 !! r = Some u →
  regenInv nowMs d0 grid (L ++ [r]) (regenOne nowMs d r).
Proof.
  intros Hnd Hinv Hr Hu. pose proof Hinv as (Hg & Hc & Hunits & Hstamp & Hkeep).
  assert (Hur : Store.units d !! r = Some u).
  { rewrite Hunits, Hu. simpl. by rewrite bool_decide_false. }
  assert (Hlast : Store.lastRegenAtMsByUnitId d !! Unit.id u
                  = Store.lastRegenAtMsByUnitId d0 !! Unit.id u).
  { apply Hkeep. intros i u' Hi Hu' _ E. apply Hr.
    by rewrite <- (NoDup_ids_eq _ i r u' u Hnd Hu' Hu E). }
  assert (Hq : SpatialGrid.findNearbyQueens (Store.units d) grid u
                 (GameConfig.regenRadius (Store.config d))
               = SpatialGrid.findNearbyQueens (Store.units d0) grid u
                   (GameConfig.regenRadius (Store.config d0))).
  { rewrite Hc. apply findNearbyQueens_geo. by eapply regenInv_geo. }
  assert (Hin : ∀ i, i ∈ L ++ [r] ↔ i ∈ L ∨ i = r).
  { intros i. rewrite elem_of_app, list_elem_of_singleton. tauto. }
  unfold regenOne. rewrite Hur, Hg, Hlast, Hq.
  destruct (heals nowMs d0 grid u) eqn:Eh.
  - (* the unit heals *)
    pose proof Eh as Eh'. unfold heals in Eh'.
    apply andb_true_iff in Eh' as [Eh' E3]. apply andb_true_iff in Eh' as [E1 E2].
    apply negb_true_iff in E1, E2. rewrite E1, E2, E3.
    split_and!; simpl.
    + done.
    + done.
    + intros i. destruct (decide (i = r)) as [->|Hne].
      * rewrite list_lookup_alter_eq, Hur, Hu. simpl.
        rewrite bool_decide_true by (apply Hin; by right). by rewrite Eh.
      * rewrite list_lookup_alter_ne by done. rewrite Hunits.
        destruct (Store.units d0 !! i) as [v|]; [|done]. simpl.
        destruct (decide (i ∈ L)).
        -- rewrite (bool_decide_true (i ∈ L)) by done.
           by rewrite (bool_decide_true (i ∈ L ++ [r])) by (apply Hin; by left).
        -- rewrite (bool_decide_false (i ∈ L)) by done.
           by rewrite (bool_decide_false (i ∈ L ++ [r])) by (rewrite Hin; tauto).
    + intros i v Hi Hv Hh. destruct (decide (Unit.id v = Unit.id u)) as [E|Hne].
      * rewrite E. apply lookup_insert_eq.
      * rewrite lookup_insert_ne by done. apply Hin in Hi as [Hi | ->].
        -- by apply (Hstamp i).
        -- rewrite Hu in Hv. by injection Hv as ->.
    + intros id Hid. rewrite lookup_insert_ne.
      * apply Hkeep. intros i v Hi. apply Hid, Hin. by left.
      * apply (Hid r u); [apply Hin; by right|done|done].
  - (* it does not *)
    assert (Hsame : (if Qle_bool (Unit.hp u) 0 then d
                     else if Qltb (nowMs - default 0 (Store.lastRegenAtMsByUnitId d0 !! Unit.id u))
                               REGEN_INTERVAL_MS then d
                     else if (0 <? length (SpatialGrid.findNearbyQueens (Store.units d0) grid u
                                             (GameConfig.regenRadius (Store.config d0))))%nat
                     then Store.set_lastRegenAtMsByUnitId
                            (<[Unit.id u := nowMs]> (Store.lastRegenAtMsByUnitId d))
                            (modUnit r (Unit.set_hp (Math_min (Unit.maxHp u)
                                                       (Unit.hp u + REGEN_AMOUNT))) d)
                     else d) = d).
    { unfold heals in Eh. destruct (Qle_bool (Unit.hp u) 0); [done|].
      destruct (Qltb _ REGEN_INTERVAL_MS); [done|]. simpl in Eh. by rewrite Eh. }
    rewrite Hsame. split_and!; [done|done| | |].
    + intros i. rewrite Hunits. destruct (Store.units d0 !! i) as [v|] eqn:Hv; [|done]. simpl.
      destruct (decide (i = r)) as [->|Hne].
      * rewrite Hu in Hv. injection Hv as <-. rewrite Eh, !andb_false_r. done.
      * destruct (decide (i ∈ L)).
        -- rewrite (bool_decide_true (i ∈ L)) by done.
           by rewrite (bool_decide_true (i ∈ L ++ [r])) by (apply Hin; by left).
        -- rewrite (bool_decide_false (i ∈ L)) by done.
           by rewrite (bool_decide_false (i ∈ L ++ [r])) by (rewrite Hin; tauto).
    + intros i v Hi Hv Hh. apply Hin in Hi as [Hi | ->]; [by apply (Hstamp i)|].
      rewrite Hu in Hv. injection Hv as <-. congruence.
    + intros id Hid. apply Hkeep. intros i v Hi. apply Hid, Hin. by left.
Qed.

Lemma regen_fold nowMs d0 grid L :
  NoDup (map Unit.id (Store.units d0)) →
  Store.spatialGrid d0 = Some grid →
  NoDup L → (∀ i, i ∈ L → is_Some (Store.units d0 !! i)) →
  regenInv nowMs d0 grid L (fold_left (regenOne nowMs) L d0).
Proof.
  intros Hnd Hg. induction L as [|r L IH] using rev_ind; intros HL Hvalid.
  - split_and!; simpl.
    + done.
    + done.
    + intros i. by destruct (Store.units d0 !! i).
    + intros i u Hi. by apply elem_of_nil in Hi.
    + done.
  - rewrite fold_left_app. simpl. apply NoDup_app in HL as (HL & Hdisj & _).
    destruct (Hvalid r) as [u Hu]; [apply elem_of_app; right; by apply list_elem_of_singleton|].
    apply regenOne_step with (u := u); [done| | |done].
    + apply IH; [done|]. intros i Hi. apply Hvalid, elem_of_app. by left.
    + intros Hr. apply (Hdisj r Hr). by apply list_elem_of_singleton.
Qed.

(** *** The regeneration of a tick *)

Lemma heals_spec nowMs prev u :
  gridUsable prev →
  GameConfig.regenRadius (Store.config prev) = 8 →
  let d0 := beginTick prev in
  let grid := SpatialGrid.buildFromUnits
                (default (SpatialGrid.new 1000 50) (Store.spatialGrid prev))
                (Store.units prev) in
  heals nowMs d0 grid u = true ↔
  0 < Unit.hp u ∧
  3000 <= nowMs - default 0 (Store.lastRegenAtMsByUnitId prev !! Unit.id u) ∧
  friendlyQueenNear (Store.units prev) u 8.
Proof.
  intros Hg Hr d0 grid. unfold heals.
  change (Store.units d0) with (Store.units prev).
  change (Store.config d0) with (Store.config prev).
  change (Store.lastRegenAtMsByUnitId d0) with (Store.lastRegenAtMsByUnitId prev).
  rewrite Hr. rewrite !andb_true_iff, !negb_true_iff.
  rewrite Qle_bool_false, Qltb_false. subst grid.
  rewrite findNearbyQueens_spec; [unfold REGEN_INTERVAL_MS; tauto|].
  unfold gridUsable in Hg. destruct (Store.spatialGrid prev); [done|]. reflexivity.
Qed.



(** ** Production *)

(** *** The unit count cache *)

Lemma cachedCount_countUnit cache u ownerId animal :
  cachedCount (countUnit cache u) ownerId animal =
  (cachedCount cache ownerId animal
   + if isOf KUnit ownerId animal u then 1 else 0)%Z.
Proof.
  unfold countUnit, isOf, cachedCount.
  destruct (bool_decide (Unit.kind u = KUnit)); simpl; [|lia].
  destruct (String.eqb (Unit.ownerId u) ownerId) eqn:Eo; simpl.
  - apply String.eqb_eq in Eo. subst ownerId. rewrite lookup_insert_eq. simpl.
    destruct (decide (Unit.animal u = animal)) as [<-|Hne].
    + rewrite lookup_insert_eq, bool_decide_true by done. simpl. lia.
    + rewrite lookup_insert_ne, bool_decide_false by done. lia.
  - apply String.eqb_neq in Eo. rewrite lookup_insert_ne by done. lia.
Qed.

Lemma cachedCount_fold units cache ownerId animal :
  cachedCount (fold_left countUnit units cache) ownerId animal =
  (cachedCount cache ownerId animal + Z.of_nat (countOf KUnit ownerId animal units))%Z.
Proof.
  revert cache. induction units as [|u units IH]; intros cache.
  - simpl. unfold countOf. simpl. lia.
  - simpl fold_left. rewrite IH, cachedCount_countUnit. unfold countOf. simpl.
    destruct (isOf KUnit ownerId animal u); simpl; lia.
Qed.

(** The cache built at the start of a tick holds the number of units. *)
Lemma cachedCount_newUnitCountCache units ownerId animal :
  cachedCount (newUnitCountCache units) ownerId animal
  = Z.of_nat (countOf KUnit ownerId animal units).
Proof.
  unfold newUnitCountCache. rewrite cachedCount_fold. unfold cachedCount.
  rewrite lookup_empty. simpl. rewrite lookup_empty. simpl. lia.
Qed.

(** *** Counting *)

Lemma isOf_traits kind ownerId animal u v :
  traits u = traits v → isOf kind ownerId animal u = isOf kind ownerId animal v.
Proof.
  intros H. unfold isOf.
  pose proof (f_equal (fun x => x.1.1.1.2) H) as Hk.
  pose proof (f_equal (fun x => x.1.1.1.1.2) H) as Ha.
  pose proof (f_equal (fun x => x.1.1.1.1.1.2) H) as Ho.
  simpl in Hk, Ha, Ho. by rewrite Hk, Ha, Ho.
Qed.

Lemma countOf_traits kind ownerId animal units units' :
  map traits units = map traits units' →
  countOf kind ownerId animal units = countOf kind ownerId animal units'.
Proof.
  unfold countOf. revert units'.
  induction units as [|u units IH]; intros [|v units'] H; try done.
  assert (Hu : traits u = traits v).
  { apply (f_equal head) in H. simpl in H. congruence. }
  assert (Hrest : map traits units = map traits units')
    by (by apply (f_equal tail) in H).
  simpl. rewrite (isOf_traits _ _ _ u v Hu).
  destruct (isOf kind ownerId animal v); simpl; by rewrite (IH units').
Qed.

Lemma countOf_app kind ownerId animal l1 l2 :
  countOf kind ownerId animal (l1 ++ l2)
  = (countOf kind ownerId animal l1 + countOf kind ownerId animal l2)%nat.
Proof. unfold countOf. by rewrite List.filter_app, length_app. Qed.

Lemma countOf_filter kind ownerId animal (p : Unit.t → bool) units :
  (countOf kind ownerId animal (List.filter p units) ≤ countOf kind ownerId animal units)%nat.
Proof.
  unfold countOf. induction units as [|u units IH]; simpl; [done|].
  destruct (p u); simpl; destruct (isOf kind ownerId animal u); simpl; lia.
Qed.

(** *** One Queen's turn *)

Section Spawn.
Variable M : MathLib.t.
Variable nowMs : Q.

Lemma baseStats_positive animal :
  0 < Stats.baseHp (baseStats animal) ∧ 0 < Stats.dmg (baseStats animal).
Proof. by destruct animal. Qed.

Lemma presetAngles_lookup n :
  (0 <= n < 8)%Z → is_Some (presetAngles M !! Z.to_nat n).
Proof.
  intros H. apply lookup_lt_is_Some. unfold presetAngles. simpl. lia.
Qed.

Lemma spawnOne_not_due c ref q :
  Ctx.units c !! ref = Some q →
  nowMs - default 0 (Store.lastSpawnAtMsByQueenId (Ctx.draft c) !! Unit.id q)
    < GameConfig.spawnIntervalMs (Store.config (Ctx.draft c)) →
  spawnOne M nowMs c ref = c.
Proof.
  intros Hq Hlt. unfold spawnOne. rewrite Hq. cbv zeta.
  by rewrite (proj2 (Qgeb_false _ _) Hlt).
Qed.

(** A Queen whose spawn interval has elapsed: the timestamp is reset, and a
    unit is appended exactly when the cached count is below 20. *)
Lemma spawnOne_due c ref q :
  Ctx.units c !! ref = Some q →
  GameConfig.spawnIntervalMs (Store.config (Ctx.draft c))
    <= nowMs - default 0 (Store.lastSpawnAtMsByQueenId (Ctx.draft c) !! Unit.id q) →
  let draft := Ctx.draft c in
  let count := cachedCount (Store.unitCountCache draft) (Unit.ownerId q) (Unit.animal q) in
  let c' := spawnOne M nowMs c ref in
  Store.lastSpawnAtMsByQueenId (Ctx.draft c') !! Unit.id q = Some nowMs ∧
  ((20 <= count)%Z → Ctx.units c' = Ctx.units c) ∧
  ((0 <= count < 20)%Z →
     ∃ angle v,
       presetAngles M !! Z.to_nat (Z.rem count 8) = Some angle ∧
       Ctx.units c' = Ctx.units c ++ [v] ∧
       Unit.kind v = KUnit ∧ Unit.ownerId v = Unit.ownerId q ∧
       Unit.animal v = Unit.animal q ∧
       Unit.hp v = Stats.baseHp (baseStats (Unit.animal q)) ∧
       Unit.maxHp v = Stats.baseHp (baseStats (Unit.animal q)) ∧
       Unit.attackDamage v = Stats.dmg (baseStats (Unit.animal q)) ∧
       Unit.attackCooldownMs v = 1500 ∧
       Unit.position v =
         resolved M (spawnPosition M q angle) (spawnedUnit M draft q angle (Ctx.world c))
           (Ctx.units c) (Store.selectedUnitIds draft) (Store.localPlayerId draft)
           (Store.unitOrders draft) (snd (World.nextId (Ctx.world c)))).
Proof.
  intros Hq Hdue draft count c'. subst c'. unfold spawnOne. rewrite Hq. cbv zeta.
  rewrite (proj2 (Qgeb_true _ _) Hdue). fold draft. fold (cachedCount (Store.unitCountCache draft)
    (Unit.ownerId q) (Unit.animal q)). fold count.
  destruct (count <? 20)%Z eqn:Ec.
  - apply Z.ltb_lt in Ec.
    split_and!.
    + destruct (createUnit _ _ _ _ _) as [tempUnit w].
      destruct (checkCollision _ _ _ _ _ _ _ _ _) as [[pos tempUnit'] w']. simpl.
      apply lookup_insert_eq.
    + intros Hge. lia.
    + intros [Hge _].
      destruct (presetAngles_lookup (Z.rem count 8)) as [angle Hangle].
      { pose proof (Z.rem_bound_pos count 8). lia. }
      rewrite Hangle. simpl default. fold (spawnPosition M q angle).
      unfold resolved, spawnedUnit.
      set (rot := if bool_decide _ then MathLib.PI M else 0).
      unfold createUnit. cbv zeta. unfold World.nextId at 1 2 3. cbn [fst snd].
      set (temp := newUnit _ _ _ KUnit _ _ _ _ _).
      set (w1 := World.mk _ _ _ _).
      change (Ctx.units c) with (Store.units draft).
      pose proof (checkCollision_essence M (spawnPosition M q angle) temp (Store.units draft)
        (5 # 2) (Store.selectedUnitIds draft) (Store.localPlayerId draft)
        (Store.unitOrders draft) w1) as He.
      destruct (checkCollision M (spawnPosition M q angle) temp (Store.units draft)
        (5 # 2) (Store.selectedUnitIds draft) (Store.localPlayerId draft)
        (Store.unitOrders draft) w1) as [[pos tempUnit'] w'] eqn:Hcc. simpl in He.
      exists angle, (Unit.set_position pos tempUnit').
      pose proof (f_equal fst He) as Htr. pose proof (f_equal snd He) as Hhp.
      simpl in Hhp.
      pose proof (f_equal (fun x => x.1.1.1.2) Htr) as Hk.
      pose proof (f_equal (fun x => x.1.1.1.1.2) Htr) as Ha.
      pose proof (f_equal (fun x => x.1.1.1.1.1.2) Htr) as Ho.
      pose proof (f_equal (fun x => x.1.1.2) Htr) as Hm.
      pose proof (f_equal (fun x => x.1.2) Htr) as Hd.
      pose proof (f_equal (fun x => x.2) Htr) as Hcd.
      simpl in Hk, Ha, Ho, Hm, Hd, Hcd.
      split_and!; try done.
      change (pos = (checkCollision M (spawnPosition M q angle) temp (Store.units draft)
        (5 # 2) (Store.selectedUnitIds draft) (Store.localPlayerId draft)
        (Store.unitOrders draft) w1).1.1).
      by rewrite Hcc.
  - apply Z.ltb_ge in Ec. split_and!.
    + simpl. apply lookup_insert_eq.
    + done.
    + intros [_ Hlt]. lia.
Qed.

(** What any turn of the spawn loop does to the units. *)
Lemma spawnOne_step c ref :
  let c' := spawnOne M nowMs c ref in
  Store.unitCountCache (Ctx.draft c') = Store.unitCountCache (Ctx.draft c) ∧
  Store.deadUnitsToRemove (Ctx.draft c') = Store.deadUnitsToRemove (Ctx.draft c) ∧
  (Ctx.units c' = Ctx.units c ∨
   ∃ q v, Ctx.units c !! ref = Some q ∧ Ctx.units c' = Ctx.units c ++ [v] ∧
     Unit.kind v = KUnit ∧ Unit.ownerId v = Unit.ownerId q ∧ Unit.animal v = Unit.animal q ∧
     (cachedCount (Store.unitCountCache (Ctx.draft c)) (Unit.ownerId q) (Unit.animal q) < 20)%Z ∧
     Unit.hp v = Unit.maxHp v ∧ 0 < Unit.hp v ∧ 0 <= Unit.attackDamage v).
Proof.
  unfold spawnOne. destruct (Ctx.units c !! ref) as [q|] eqn:Hq; [|by split_and!; [..|left]].
  cbv zeta. destruct (Qgeb _ _); [|by split_and!; [..|left]].
  fold (cachedCount (Store.unitCountCache (Ctx.draft c)) (Unit.ownerId q) (Unit.animal q)).
  destruct (_ <? 20)%Z eqn:Ec; [|by split_and!; [..|left]].
  apply Z.ltb_lt in Ec.
  unfold createUnit. cbv zeta. unfold World.nextId. cbn [fst snd].
  set (temp := newUnit _ _ _ KUnit _ _ _ _ _).
  set (w1 := World.mk _ _ _ _).
  pose proof (checkCollision_essence M (Position3D.mk
      (Position3D.x (Unit.position q) + MathLib.cos M
         (default 0 (presetAngles M !! Z.to_nat (Z.rem (cachedCount (Store.unitCountCache (Ctx.draft c))
            (Unit.ownerId q) (Unit.animal q)) 8))) * (5 # 2)) 0
      (Position3D.z (Unit.position q) + MathLib.sin M
         (default 0 (presetAngles M !! Z.to_nat (Z.rem (cachedCount (Store.unitCountCache (Ctx.draft c))
            (Unit.ownerId q) (Unit.animal q)) 8))) * (5 # 2)))
    temp (Store.units (Ctx.draft c))
    (5 # 2) (Store.selectedUnitIds (Ctx.draft c)) (Store.localPlayerId (Ctx.draft c))
    (Store.unitOrders (Ctx.draft c)) w1) as He.
  destruct (checkCollision _ _ _ _ _ _ _ _ _) as [[pos tempUnit'] w'] eqn:Hcc. simpl in He.
  pose proof (f_equal fst He) as Htr. pose proof (f_equal snd He) as Hhp.
  simpl in Hhp.
  pose proof (f_equal (fun x => x.1.1.1.2) Htr) as Hk.
  pose proof (f_equal (fun x => x.1.1.1.1.2) Htr) as Ha.
  pose proof (f_equal (fun x => x.1.1.1.1.1.2) Htr) as Ho.
  pose proof (f_equal (fun x => x.1.1.2) Htr) as Hm.
  pose proof (f_equal (fun x => x.1.2) Htr) as Hd.
  simpl in Hk, Ha, Ho, Hm, Hd.
  destruct (baseStats_positive (Unit.animal q)) as [Hb1 Hb2].
  split_and!; [done|done|]. right.
  exists q, (Unit.set_position pos tempUnit'). simpl.
  split_and!; try done.
  - congruence.
  - by rewrite Hhp.
  - rewrite Hd. lra.
Qed.

End Spawn.

(** *** The spawn loop *)

Section SpawnLoop.
Variable M : MathLib.t.
Variable nowMs : Q.

Lemma queensAmong_snoc units ownerId animal refs r :
  queensAmong units ownerId animal (refs ++ [r])
  = (queensAmong units ownerId animal refs
     + if from_option (isOf KQueen ownerId animal) false (units !! r) then 1 else 0)%nat.
Proof.
  unfold queensAmong. rewrite List.filter_app, length_app. simpl.
  by destruct (from_option _ _ _).
Qed.

Lemma spawnOne_inv units cache refs c r q :
  units !! r = Some q → Unit.kind q = KQueen →
  spawnInv units cache refs c → spawnInv units cache (refs ++ [r]) (spawnOne M nowMs c r).
Proof.
  intros Hq Hk (Hcache & new & Hunits & Hnew & Hcount).
  destruct (spawnOne_step M nowMs c r) as (Hc' & _ & Hstep).
  split; [by rewrite Hc'|].
  destruct Hstep as [Hsame | (q' & v & Hq' & Happ & Hkv & Hov & Hav & Hlt & Hhp & Hpos & Hdmg)].
  - exists new. rewrite Hsame. split_and!; [done|done|].
    intros o a. specialize (Hcount o a). rewrite queensAmong_snoc.
    destruct (_ <? 20)%Z; lia.
  - assert (q' = q) as ->.
    { rewrite Hunits, lookup_app_l in Hq' by (by eapply lookup_lt_Some). congruence. }
    exists (new ++ [v]). split_and!.
    + by rewrite Happ, Hunits, app_assoc.
    + apply Forall_app. split; [done|]. by apply Forall_singleton.
    + intros o a. specialize (Hcount o a). rewrite countOf_app, queensAmong_snoc, Hq.
      simpl from_option. unfold countOf at 2. simpl.
      destruct (isOf KUnit o a v) eqn:Ev; simpl; [|destruct (_ <? 20)%Z; lia].
      unfold isOf in Ev. apply andb_true_iff in Ev as [Ev Ea]. apply andb_true_iff in Ev as [_ Eo].
      apply String.eqb_eq in Eo. apply bool_decide_eq_true in Ea.
      assert (Hq1 : isOf KQueen o a q = true).
      { unfold isOf. rewrite bool_decide_true by done.
        rewrite (proj2 (String.eqb_eq _ _)) by congruence.
        by rewrite bool_decide_true by congruence. }
      rewrite Hq1. rewrite Hcache in Hlt.
      assert (Hlt' : (cachedCount cache o a <? 20)%Z = true).
      { apply Z.ltb_lt. by rewrite <- Eo, <- Ea, Hov, Hav. }
      rewrite Hlt' in *. lia.
Qed.

Lemma spawn_inv units cache refs c :
  (∀ r, r ∈ refs → ∃ q, units !! r = Some q ∧ Unit.kind q = KQueen) →
  spawnInv units cache [] c → spawnInv units cache refs (spawn M nowMs refs c).
Proof.
  intros Hrefs Hc. unfold spawn.
  induction refs as [|r refs IH] using rev_ind; [done|].
  rewrite fold_left_app. simpl.
  destruct (Hrefs r) as (q & Hq & Hk); [apply elem_of_app; right; by apply list_elem_of_singleton|].
  apply spawnOne_inv with (q := q); [done|done|].
  apply IH. intros r' Hr'. apply Hrefs, elem_of_app. by left.
Qed.

End SpawnLoop.

(** ** The units through the phases of a tick *)

Lemma evolves_refl u : evolves u u.
Proof. by split. Qed.

Lemma evolves_trans u2 u1 u0 : evolves u2 u1 → evolves u1 u0 → evolves u2 u0.
Proof. intros [E2 H2] [E1 H1]. split; [congruence|auto]. Qed.

Lemma Forall2_evolves_refl l : Forall2 evolves l l.
Proof. induction l; constructor; [apply evolves_refl|done]. Qed.

Lemma Forall2_evolves_trans l2 l1 l0 :
  Forall2 evolves l2 l1 → Forall2 evolves l1 l0 → Forall2 evolves l2 l0.
Proof.
  intros H. revert l0. induction H as [|u2 u1 l2 l1 Hu _ IH]; intros l0 H0.
  - by inversion H0.
  - inversion H0; subst. constructor; [by eapply evolves_trans|by apply IH].
Qed.

Lemma Forall2_evolves_traits l' l : Forall2 evolves l' l → map traits l' = map traits l.
Proof. induction 1 as [|u' u l' l [E _] _ IH]; simpl; [done|by rewrite E, IH]. Qed.

Lemma Forall2_evolves_alter (f : Unit.t → Unit.t) ref l :
  (∀ u, l !! ref = Some u → evolves (f u) u) → Forall2 evolves (alter f ref l) l.
Proof.
  intros Hf. apply Forall2_same_length_lookup_2; [by rewrite length_alter|].
  intros i u' u Hu' Hu. destruct (decide (i = ref)) as [->|Hne].
  - rewrite list_lookup_alter_eq, Hu in Hu'. injection Hu' as <-. by apply Hf.
  - rewrite list_lookup_alter_ne, Hu in Hu' by done. injection Hu' as <-. apply evolves_refl.
Qed.

Lemma essence_evolves l' l : map essence l' = map essence l → Forall2 evolves l' l.
Proof.
  revert l. induction l' as [|u' l' IH]; intros [|u l] E; try discriminate E.
  { constructor. }
  assert (Eu : essence u' = essence u) by (simpl in E; congruence).
  assert (El : map essence l' = map essence l) by (simpl in E; congruence).
  constructor; [|by apply IH].
  split; [exact (f_equal fst Eu)|].
  pose proof (f_equal snd Eu) as Ehp. pose proof (f_equal (fun x => x.1.1.1.2) Eu) as Emax.
  simpl in Ehp, Emax. unfold hpInRange. by rewrite Ehp, Emax.
Qed.

(** *** Regeneration *)

Lemma regenOne_evolves nowMs d ref :
  Forall2 evolves (Store.units (regenOne nowMs d ref)) (Store.units d) ∧
  Store.unitCountCache (regenOne nowMs d ref) = Store.unitCountCache d ∧
  Store.deadUnitsToRemove (regenOne nowMs d ref) = Store.deadUnitsToRemove d.
Proof.
  unfold regenOne.
  destruct (Store.units d !! ref) as [unit|] eqn:Hu;
    [|split_and!; [apply Forall2_evolves_refl|done|done]].
  destruct (Store.spatialGrid d) as [grid|];
    [|split_and!; [apply Forall2_evolves_refl|done|done]].
  destruct (Qle_bool (Unit.hp unit) 0); [split_and!; [apply Forall2_evolves_refl|done|done]|].
  destruct (Qltb _ REGEN_INTERVAL_MS); [split_and!; [apply Forall2_evolves_refl|done|done]|].
  destruct (0 <? _)%nat; [|split_and!; [apply Forall2_evolves_refl|done|done]].
  split_and!; [|done|done]. cbn [Store.units Store.set_lastRegenAtMsByUnitId modUnit Store.set_units].
  apply Forall2_evolves_alter. intros u Hu'. rewrite Hu in Hu'. injection Hu' as <-.
  split; [done|]. intros [Hpos Hle]. unfold hpInRange. cbn [Unit.hp Unit.maxHp Unit.set_hp].
  unfold REGEN_AMOUNT. split; [|apply Math_min_le_l].
  destruct (Math_min_cases (Unit.maxHp unit) (Unit.hp unit + 1)) as [E|E];
    rewrite E; lra.
Qed.

Lemma regenerate_evolves nowMs refs d :
  Forall2 evolves (Store.units (regenerate nowMs refs d)) (Store.units d) ∧
  Store.unitCountCache (regenerate nowMs refs d) = Store.unitCountCache d ∧
  Store.deadUnitsToRemove (regenerate nowMs refs d) = Store.deadUnitsToRemove d.
Proof.
  unfold regenerate. destruct (_ || _); [|split_and!; [apply Forall2_evolves_refl|done|done]].
  generalize (take 30 refs) as L. intros L.
  induction L as [|r L IH] using rev_ind; [split_and!; [apply Forall2_evolves_refl|done|done]|].
  rewrite fold_left_app. simpl. destruct IH as (H1 & H2 & H3).
  destruct (regenOne_evolves nowMs (fold_left (regenOne nowMs) L d) r) as (G1 & G2 & G3).
  split_and!; [by eapply Forall2_evolves_trans|congruence|congruence].
Qed.

Lemma beginTick_spec prev :
  Store.units (beginTick prev) = Store.units prev ∧
  Store.unitCountCache (beginTick prev) = newUnitCountCache (Store.units prev) ∧
  Store.deadUnitsToRemove (beginTick prev) = Store.deadUnitsToRemove prev.
Proof. done. Qed.

Lemma afterRegen_evolves nowMs prev :
  Forall2 evolves (Store.units (afterRegen nowMs prev)) (Store.units prev) ∧
  Store.unitCountCache (afterRegen nowMs prev) = newUnitCountCache (Store.units prev) ∧
  Store.deadUnitsToRemove (afterRegen nowMs prev) = Store.deadUnitsToRemove prev.
Proof.
  unfold afterRegen.
  destruct (regenerate_evolves nowMs
              (Categories.unitsNeedingHealing (categorize (Store.units (beginTick prev))))
              (beginTick prev)) as (H1 & H2 & H3).
  split_and!; [exact H1|by rewrite H2|by rewrite H3].
Qed.

(** *** Removing the dead and the last phases *)

Lemma forgetDead_essence deadId u : essence (forgetDead deadId u) = essence u.
Proof.
  unfold forgetDead. cbv zeta.
  repeat case_bool_decide; (destruct (Unit.currentAttackers _); done).
Qed.

Lemma forgetDeadEverywhere_fold dead d :
  ∃ F, keepsEssence F ∧
    Store.units (fold_left forgetDeadEverywhere dead d) = map F (Store.units d) ∧
    Store.deadUnitsToRemove (fold_left forgetDeadEverywhere dead d)
    = Store.deadUnitsToRemove d ∧
    Store.spatialGrid (fold_left forgetDeadEverywhere dead d) = Store.spatialGrid d.
Proof.
  revert d. induction dead as [|deadId dead IH]; intros d; simpl.
  - exists (fun u => u). split_and!; [done|by rewrite map_id|done|done].
  - destruct (IH (forgetDeadEverywhere d deadId)) as (F & HF & Hu & Hd & Hg).
    exists (fun u => F (forgetDead deadId u)). split_and!.
    + intros u. rewrite HF. apply forgetDead_essence.
    + rewrite Hu. simpl. by rewrite map_map.
    + by rewrite Hd.
    + by rewrite Hg.
Qed.

Lemma survives_essence dead u v : essence u = essence v → survives dead u = survives dead v.
Proof.
  intros E. pose proof (f_equal snd E) as Ehp.
  pose proof (f_equal (fun x => x.1.1.1.1.1.1.1) E) as Eid. simpl in Ehp, Eid.
  unfold survives. by rewrite Ehp, Eid.
Qed.

Lemma filter_survives_map dead (F : Unit.t → Unit.t) l :
  keepsEssence F →
  List.filter (survives dead) (map F l) = map F (List.filter (survives dead) l).
Proof.
  intros HF. induction l as [|u l IH]; [done|]. simpl.
  rewrite (survives_essence dead (F u) u (HF u)). destruct (survives dead u); simpl; by rewrite IH.
Qed.

Lemma removeDead_units d :
  ∃ F, keepsEssence F ∧
    Store.units (removeDead d) =
      map F (if (0 <? length (Store.deadUnitsToRemove d))%nat
             then List.filter (survives (Store.deadUnitsToRemove d)) (Store.units d)
             else Store.units d).
Proof.
  unfold removeDead. destruct (0 <? _)%nat.
  - cbv zeta.
    destruct (forgetDeadEverywhere_fold (Store.deadUnitsToRemove d) d) as (F & HF & Hu & Hd & Hg).
    exists F. split; [done|].
    rewrite <- filter_survives_map by done. rewrite <- Hu.
    cbn [Store.spatialGrid Store.set_deadUnitsToRemove Store.set_units].
    by destruct (Store.spatialGrid _).
  - exists (fun u => u). split; [done|]. by rewrite map_id.
Qed.

Lemma pruneAttackers_essence units u : essence (pruneAttackers units u) = essence u.
Proof.
  unfold pruneAttackers. destruct (Unit.currentAttackers u) as [[|a rest]|]; try done.
  by destruct (List.filter _ _).
Qed.

Lemma winCheck_units nowMs d : Store.units (winCheck nowMs d) = Store.units d.
Proof.
  unfold winCheck, checkWinConditions. cbv zeta. destruct (_ && _); [|done].
  destruct (findWinner _ _ _); by destruct (Optimizations.winCheckThrottling _).
Qed.

(** The units a running tick ends with: the units left when every queued
    pair is applied, without the dead, up to behavioral fields. *)
Lemma tick_units M dtSec nowMs prev w :
  Store.matchStarted prev = true → Store.isPaused prev = false →
  let d := Ctx.draft (afterCombat M dtSec nowMs prev w) in
  ∃ G, keepsEssence G ∧
    Store.units (tick M dtSec nowMs prev w).1 =
      map G (if (0 <? length (Store.deadUnitsToRemove d))%nat
             then List.filter (survives (Store.deadUnitsToRemove d)) (Store.units d)
             else Store.units d).
Proof.
  intros Hs Hp d. unfold tick. rewrite Hs, Hp. cbv zeta. cbn [negb orb fst].
  rewrite winCheck_units. fold d. destruct (removeDead_units d) as (F & HF & Hu).
  exists (fun u => pruneAttackers (Store.units (removeDead d)) (F u)). split.
  - intros u. rewrite pruneAttackers_essence. apply HF.
  - unfold updateBridgeAnimations, cleanUpAttackers. cbn [Store.units Store.set_bridgeState Store.set_units].
    rewrite Hu at 2. by rewrite map_map.
Qed.

(** ** The production cap *)

Lemma refs_elem (p : Unit.t → bool) (l : list Unit.t) r :
  r ∈ map fst (List.filter (fun iu => p (snd iu)) (indexed l)) ↔
  ∃ u, l !! r = Some u ∧ p u = true.
Proof.
  rewrite list_elem_of_fmap. split.
  - intros ([i u] & -> & Hin). apply list_elem_of_In, filter_In in Hin as [Hin Hp].
    apply list_elem_of_In, indexed_lookup in Hin. eauto.
  - intros (u & Hu & Hp). exists (r, u). split; [done|].
    apply list_elem_of_In, filter_In. split; [|done]. by apply list_elem_of_In, indexed_lookup.
Qed.

Lemma count_refs (p : Unit.t → bool) pre l :
  length (List.filter (fun r => from_option p false ((pre ++ l) !! r))
            (seq (length pre) (length l)))
  = length (List.filter p l).
Proof.
  revert pre. induction l as [|u l IH]; intros pre; [done|].
  simpl. rewrite lookup_app_r, Nat.sub_diag by lia. simpl.
  specialize (IH (pre ++ [u])). rewrite <- app_assoc, length_app in IH. simpl in IH.
  rewrite Nat.add_1_r in IH. destruct (p u); simpl; by rewrite IH.
Qed.

Lemma NoDup_List_filter {A} (f : A → bool) (l : list A) : NoDup l → NoDup (List.filter f l).
Proof.
  induction 1 as [|x l Hx Hl IH]; simpl; [constructor|].
  destruct (f x); [|done]. constructor; [|done].
  intros Hin. apply Hx. by apply list_elem_of_In, filter_In in Hin as [Hin%list_elem_of_In _].
Qed.

(** References without repetition point to no more Queens than there are. *)
Lemma queensAmong_le units ownerId animal refs :
  NoDup refs → (queensAmong units ownerId animal refs ≤ countOf KQueen ownerId animal units)%nat.
Proof.
  intros Hnd. unfold queensAmong, countOf.
  rewrite <- (count_refs (isOf KQueen ownerId animal) [] units). simpl.
  apply submseteq_length, NoDup_submseteq.
  - by apply NoDup_List_filter.
  - intros r Hr. apply list_elem_of_In, filter_In in Hr as [_ Hr].
    apply list_elem_of_In, filter_In. split; [|done].
    apply in_seq. destruct (units !! r) eqn:E; [|done]. apply lookup_lt_Some in E. lia.
Qed.

Lemma traits_pointwise (l' l : list Unit.t) :
  length l' = length l →
  (∀ j u, l !! j = Some u → ∃ u', l' !! j = Some u' ∧ traits u' = traits u) →
  map traits l' = map traits l.
Proof.
  intros Hlen H. apply list_eq. intros j. rewrite !list_lookup_fmap.
  destruct (l !! j) as [u|] eqn:E.
  - destruct (H j u E) as (u' & -> & Htr). simpl. by rewrite Htr.
  - apply lookup_ge_None in E. rewrite (proj2 (lookup_ge_None l' j)) by lia. done.
Qed.

Lemma essence_traits (l' l : list Unit.t) :
  map essence l' = map essence l → map traits l' = map traits l.
Proof. intros E. apply Forall2_evolves_traits. by apply essence_evolves. Qed.

Section Cap.
Variable M : MathLib.t.
Variables (dtSec nowMs : Q).

Lemma regenerate_config refs d :
  Store.config (regenerate nowMs refs d) = Store.config d.
Proof.
  unfold regenerate. destruct (_ || _); [|done]. generalize (take 30 refs) as L. intros L.
  revert d. induction L as [|r L IH]; intros d; [done|]. simpl. rewrite IH.
  unfold regenOne. destruct (Store.units d !! r); [|done]. destruct (Store.spatialGrid d); [|done].
  destruct (Qle_bool _ 0); [done|]. destruct (Qltb _ _); [done|]. by destruct (0 <? _)%nat.
Qed.

Lemma spawnOne_config c ref :
  Store.config (Ctx.draft (spawnOne M nowMs c ref)) = Store.config (Ctx.draft c).
Proof.
  unfold spawnOne. destruct (Ctx.units c !! ref); [|done]. cbv zeta.
  destruct (Qgeb _ _); [|done]. destruct (_ <? 20)%Z; [|done].
  destruct (createUnit _ _ _ _ _) as [tempUnit w].
  by destruct (checkCollision _ _ _ _ _ _ _ _ _) as [[? ?] ?].
Qed.

Lemma spawn_config queens c :
  Store.config (Ctx.draft (spawn M nowMs queens c)) = Store.config (Ctx.draft c).
Proof.
  unfold spawn. revert c. induction queens as [|q queens IH]; intros c; [done|].
  simpl. by rewrite IH, spawnOne_config.
Qed.

(** The spawn loop of a tick after [k] of its Queens, seen from the units
    the tick started with. *)
Lemma spawn_prefix_inv prev w k :
  let queens := Categories.queens (categorize (Store.units (beginTick prev))) in
  spawnInv (Store.units (afterRegen nowMs prev)) (newUnitCountCache (Store.units prev))
    (take k queens) (spawn M nowMs (take k queens) (Ctx.mk (afterRegen nowMs prev) w [])).
Proof.
  intros queens. destruct (afterRegen_evolves nowMs prev) as (Hev & Hcache & _).
  apply spawn_inv.
  - intros r Hr%elem_of_take. destruct Hr as (i & Hr & _).
    apply list_elem_of_lookup_2 in Hr.
    apply refs_elem in Hr as (u & Hu & Hk). apply bool_decide_eq_true in Hk.
    destruct (Forall2_lookup_r _ _ _ _ _ Hev Hu) as (q & Hq & [Htr _]).
    exists q. split; [done|].
    pose proof (f_equal (fun x => x.1.1.1.2) Htr) as Ek. simpl in Ek. congruence.
  - split; [done|]. exists []. split_and!; [by rewrite app_nil_r|constructor|].
    intros o a. unfold countOf. simpl. lia.
Qed.

Lemma afterSpawn_inv prev w :
  spawnInv (Store.units (afterRegen nowMs prev)) (newUnitCountCache (Store.units prev))
    (Categories.queens (categorize (Store.units (beginTick prev))))
    (afterSpawn M nowMs prev w).
Proof.
  pose proof (spawn_prefix_inv prev w
    (length (Categories.queens (categorize (Store.units (beginTick prev)))))) as H.
  cbv zeta in H. by rewrite firstn_all in H.
Qed.

Lemma queens_NoDup units : NoDup (Categories.queens (categorize units)).
Proof.
  unfold categorize, indexed. cbn [Categories.queens].
  exact (refsWhere_NoDup (fun u => bool_decide (Unit.kind u = KQueen)) units 0).
Qed.

Lemma afterCombat_traits prev w :
  map traits (Ctx.units (afterCombat M dtSec nowMs prev w))
  = map traits (Ctx.units (afterSpawn M nowMs prev w)).
Proof.
  pose proof (afterBehavior_passInv M dtSec nowMs prev w) as Hinv.
  pose proof (passInv_pairs_in_range _ _ Hinv) as Hr.
  destruct (applyPairs_fold M _ _ Hr) as (Hlen & _ & Hpt).
  destruct Hinv as [He _]. rewrite <- (essence_traits _ _ He).
  apply traits_pointwise; [exact Hlen|].
  intros j u Hj. destruct (Hpt j u Hj) as (u' & Hu' & Htr & _). eauto.
Qed.

(** A running tick ends with no more units of a kind, owner and species
    than the spawn loop left. *)
Lemma tick_countOf prev w kind ownerId animal :
  Store.matchStarted prev = true → Store.isPaused prev = false →
  (countOf kind ownerId animal (Store.units (tick M dtSec nowMs prev w).1)
   ≤ countOf kind ownerId animal (Ctx.units (afterSpawn M nowMs prev w)))%nat.
Proof.
  intros Hs Hp. destruct (tick_units M dtSec nowMs prev w Hs Hp) as (G & HG & ->).
  rewrite <- (countOf_traits kind ownerId animal _ _ (afterCombat_traits prev w)).
  set (d := Ctx.draft (afterCombat M dtSec nowMs prev w)).
  change (Ctx.units (afterCombat M dtSec nowMs prev w)) with (Store.units d).
  assert (Hmap : ∀ l, countOf kind ownerId animal (map G l) = countOf kind ownerId animal l).
  { intros l. apply countOf_traits. rewrite map_map. apply map_ext.
    intros u. exact (f_equal fst (HG u)). }
  rewrite Hmap. destruct (0 <? _)%nat; [apply countOf_filter|done].
Qed.

Lemma countOf_sound_new kind ownerId animal (new : list Unit.t) :
  Forall (fun v => Unit.kind v = KUnit ∧ Unit.hp v = Unit.maxHp v ∧ 0 < Unit.hp v
                   ∧ 0 <= Unit.attackDamage v) new →
  kind ≠ KUnit → countOf kind ownerId animal new = 0%nat.
Proof.
  intros Hnew Hk. unfold countOf. induction Hnew as [|v new (Hv & _) _ IH]; [done|].
  simpl. unfold isOf at 1. rewrite bool_decide_false by congruence. exact IH.
Qed.

Lemma afterRegen_countOf prev kind ownerId animal :
  countOf kind ownerId animal (Store.units (afterRegen nowMs prev))
  = countOf kind ownerId animal (Store.units prev).
Proof.
  apply countOf_traits, Forall2_evolves_traits. apply (afterRegen_evolves nowMs prev).
Qed.

(** The spawn loop adds no Queen, and at most one unit per owner and
    species when no owner holds two Queens of one species, none at the cap. *)
Lemma afterSpawn_queens prev w ownerId animal :
  countOf KQueen ownerId animal (Ctx.units (afterSpawn M nowMs prev w))
  = countOf KQueen ownerId animal (Store.units prev).
Proof.
  destruct (afterSpawn_inv prev w) as (_ & new & -> & Hnew & _).
  rewrite countOf_app, afterRegen_countOf, (countOf_sound_new _ _ _ _ Hnew) by done. lia.
Qed.

Lemma afterSpawn_units prev w ownerId animal :
  oneQueenPerSpecies (Store.units prev) →
  let n := countOf KUnit ownerId animal (Store.units prev) in
  (countOf KUnit ownerId animal (Ctx.units (afterSpawn M nowMs prev w))
   ≤ n + if (n <? 20)%nat then 1 else 0)%nat.
Proof.
  intros Hone n. destruct (afterSpawn_inv prev w) as (_ & new & -> & _ & Hcount).
  rewrite countOf_app, afterRegen_countOf. fold n.
  specialize (Hcount ownerId animal). rewrite cachedCount_newUnitCountCache in Hcount. fold n in Hcount.
  pose proof (queensAmong_le (Store.units (afterRegen nowMs prev)) ownerId animal _
                (queens_NoDup (Store.units (beginTick prev)))) as Hq.
  rewrite afterRegen_countOf in Hq. specialize (Hone ownerId animal).
  destruct (n <? 20)%nat eqn:En.
  - apply Nat.ltb_lt in En. destruct (Z.of_nat n <? 20)%Z; lia.
  - apply Nat.ltb_ge in En. rewrite (proj2 (Z.ltb_ge _ _)) in Hcount by lia. lia.
Qed.

Lemma tick_withinCap prev w :
  oneQueenPerSpecies (Store.units prev) → withinCap (Store.units prev) →
  withinCap (Store.units (tick M dtSec nowMs prev w).1).
Proof.
  intros Hone Hcap ownerId animal.
  destruct (negb (Store.matchStarted prev) || Store.isPaused prev) eqn:Erun.
  - unfold tick. rewrite Erun. apply Hcap.
  - apply orb_false_iff in Erun as [Hs%negb_false_iff Hp].
    etransitivity; [by apply tick_countOf|].
    pose proof (afterSpawn_units prev w ownerId animal Hone) as H. cbv zeta in H.
    specialize (Hcap ownerId animal).
    destruct (_ <? 20)%nat eqn:En; [apply Nat.ltb_lt in En|]; lia.
Qed.

Lemma tick_oneQueenPerSpecies prev w :
  oneQueenPerSpecies (Store.units prev) →
  oneQueenPerSpecies (Store.units (tick M dtSec nowMs prev w).1).
Proof.
  intros Hone ownerId animal.
  destruct (negb (Store.matchStarted prev) || Store.isPaused prev) eqn:Erun.
  - unfold tick. rewrite Erun. apply Hone.
  - apply orb_false_iff in Erun as [Hs%negb_false_iff Hp].
    etransitivity; [by apply tick_countOf|]. rewrite afterSpawn_queens. apply Hone.
Qed.

(** At the turn of a Queen, when no owner holds two Queens of one species,
    the units of her owner and species are those the tick started with. *)
Lemma countOf_at_turn prev w k ref q :
  let queens := Categories.queens (categorize (Store.units (beginTick prev))) in
  let c := spawn M nowMs (take k queens) (Ctx.mk (afterRegen nowMs prev) w []) in
  oneQueenPerSpecies (Store.units prev) →
  queens !! k = Some ref → Ctx.units c !! ref = Some q →
  countOf KUnit (Unit.ownerId q) (Unit.animal q) (Ctx.units c)
  = countOf KUnit (Unit.ownerId q) (Unit.animal q) (Store.units prev).
Proof.
  intros queens c Hone Hk Hq.
  destruct (spawn_prefix_inv prev w k) as (_ & new & Hunits & _ & Hcount). fold queens c in Hunits.
  fold queens in Hcount. specialize (Hcount (Unit.ownerId q) (Unit.animal q)).
  set (us0 := Store.units (afterRegen nowMs prev)) in *.
  assert (Hq0 : ∃ q0, us0 !! ref = Some q0 ∧ Unit.kind q0 = KQueen).
  { apply list_elem_of_lookup_2, refs_elem in Hk as (u & Hu & Hkind).
    apply bool_decide_eq_true in Hkind.
    destruct (afterRegen_evolves nowMs prev) as (Hev & _).
    destruct (Forall2_lookup_r _ _ _ _ _ Hev Hu) as (q0 & Hq0 & [Htr _]).
    exists q0. split; [done|].
    pose proof (f_equal (fun x => x.1.1.1.2) Htr) as Ek. simpl in Ek. congruence. }
  destruct Hq0 as (q0 & Hq0 & Hkind).
  assert (q0 = q) as ->.
  { rewrite Hunits, lookup_app_l in Hq by (by eapply lookup_lt_Some). congruence. }
  pose proof (queensAmong_le us0 (Unit.ownerId q) (Unit.animal q) (take (S k) queens)) as Hle.
  rewrite (take_S_r _ _ _ Hk), queensAmong_snoc, Hq0 in Hle. simpl from_option in Hle.
  assert (Hself : isOf KQueen (Unit.ownerId q) (Unit.animal q) q = true).
  { unfold isOf. rewrite !bool_decide_true by done. by rewrite String.eqb_refl. }
  rewrite Hself in Hle. rewrite <- (take_S_r _ _ _ Hk) in Hle.
  specialize (Hle (sublist_NoDup _ _ (queens_NoDup _) (sublist_take _ _))).
  subst us0. rewrite afterRegen_countOf in Hle.
  specialize (Hone (Unit.ownerId q) (Unit.animal q)).
  rewrite Hunits, countOf_app, afterRegen_countOf.
  destruct (_ <? 20)%Z; lia.
Qed.

End Cap.



(** ** Hit points *)

Lemma sound_evolves u' u : evolves u' u → sound u → sound u'.
Proof.
  intros [Htr Hhp] [Hr Hd]. split; [by apply Hhp|].
  pose proof (f_equal (fun x => x.1.2) Htr) as E. simpl in E. by rewrite E.
Qed.

Lemma Forall_sound_evolves l' l : Forall2 evolves l' l → Forall sound l → Forall sound l'.
Proof.
  induction 1 as [|u' u l' l Hu _ IH]; [done|]. intros Hl. inversion Hl; subst.
  constructor; [by eapply sound_evolves|by apply IH].
Qed.

Section HitPoints.
Variable M : MathLib.t.
Variables (dtSec nowMs : Q).

(** Regeneration never overshoots. *)
Lemma afterRegen_sound prev :
  Forall sound (Store.units prev) → Forall sound (Store.units (afterRegen nowMs prev)).
Proof. apply Forall_sound_evolves, (afterRegen_evolves nowMs prev). Qed.

Lemma afterSpawn_sound prev w :
  Forall sound (Store.units prev) → Forall sound (Ctx.units (afterSpawn M nowMs prev w)).
Proof.
  intros Hs. destruct (afterSpawn_inv M nowMs prev w) as (_ & new & -> & Hnew & _).
  apply Forall_app. split; [by apply afterRegen_sound|].
  eapply Forall_impl; [exact Hnew|]. intros v (_ & Hmax & Hpos & Hd).
  split; [|done]. split; [done|]. rewrite Hmax. lra.
Qed.

Lemma afterBehavior_sound prev w :
  Forall sound (Store.units prev) →
  Forall sound (Ctx.units (afterBehavior M dtSec nowMs prev w)) ∧
  Forall (fun pair => 0 <= CombatPair.damage pair)
    (Ctx.combatPairs (afterBehavior M dtSec nowMs prev w)).
Proof.
  intros Hs. pose proof (afterSpawn_sound prev w Hs) as H1.
  destruct (afterBehavior_passInv M dtSec nowMs prev w) as [He Hp]. split.
  - eapply Forall_sound_evolves; [by apply essence_evolves|done].
  - eapply Forall_impl; [exact Hp|]. intros pair (a & t & Ha & _ & ->).
    rewrite Forall_forall in H1. apply (H1 a). by eapply list_elem_of_lookup_2.
Qed.

(** After the queued damage: nothing above the maximum, and every unit at
    or below 0 listed for removal. *)
Lemma afterCombat_sound prev w :
  Forall sound (Store.units prev) →
  deadListed (afterCombat M dtSec nowMs prev w) ∧
  Forall (fun u => Unit.hp u <= Unit.maxHp u ∧ 0 <= Unit.attackDamage u)
    (Ctx.units (afterCombat M dtSec nowMs prev w)).
Proof.
  intros Hs. destruct (afterBehavior_sound prev w Hs) as [H2 Hdmg].
  pose proof (afterBehavior_passInv M dtSec nowMs prev w) as Hinv.
  pose proof (passInv_pairs_in_range _ _ Hinv) as Hr.
  destruct (applyPairs_fold M _ _ Hr) as (Hlen & Hdead & Hpt).
  fold (applyCombat M (afterBehavior M dtSec nowMs prev w)) in Hlen, Hdead, Hpt.
  fold (afterCombat M dtSec nowMs prev w) in Hlen, Hdead, Hpt.
  rewrite Forall_forall in H2. split.
  - apply Hdead. intros j u Hj Hle.
    destruct (H2 u (list_elem_of_lookup_2 _ _ _ Hj)) as [[Hpos _] _]. lra.
  - apply Forall_forall. intros u3 Hin. apply list_elem_of_lookup in Hin as [j Hj].
    assert (is_Some (Ctx.units (afterBehavior M dtSec nowMs prev w) !! j)) as [u2 Hj2].
    { apply lookup_lt_is_Some. rewrite <- Hlen. by eapply lookup_lt_Some. }
    destruct (Hpt j u2 Hj2) as (u3' & Hj3 & Htr & Hhp). rewrite Hj in Hj3. injection Hj3 as <-.
    destruct (H2 u2 (list_elem_of_lookup_2 _ _ _ Hj2)) as [[Hpos Hmax] Hd].
    pose proof (damageTo_nonneg j _ Hdmg) as Hnn.
    pose proof (f_equal (fun x => x.1.1.2) Htr) as Emax.
    pose proof (f_equal (fun x => x.1.2) Htr) as Edmg. simpl in Emax, Edmg.
    rewrite Emax, Edmg. split; [lra|done].
Qed.

End HitPoints.

(** C3. Start a tick from units that all have [0 < hp <= maxHp] and a
    non-negative attack damage. Then the regeneration of the tick leaves
    every unit within [0 < hp <= maxHp]; every unit of the store the tick
    ends with has [0 < hp <= maxHp] (and a non-negative attack damage, so
    the property holds tick after tick); and, when the tick runs, every unit
    that stands at 0 hit points or below once the queued damage of the tick
    is applied is absent from the units the tick ends with: no unit there
    carries its id. *)
Theorem tick_keeps_hit_points_in_range M dtSec nowMs prev w :
  Forall sound (Store.units prev) →
  Forall sound (Store.units (afterRegen nowMs prev)) ∧
  Forall sound (Store.units (tick M dtSec nowMs prev w).1) ∧
  (Store.matchStarted prev = true → Store.isPaused prev = false →
   ∀ u, u ∈ Ctx.units (afterCombat M dtSec nowMs prev w) → Unit.hp u <= 0 →
     ∀ u', u' ∈ Store.units (tick M dtSec nowMs prev w).1 → Unit.id u' ≠ Unit.id u).
Proof.
  intros Hs. split; [by apply afterRegen_sound|].
  destruct (negb (Store.matchStarted prev) || Store.isPaused prev) eqn:Erun.
  { split.
    - unfold tick. by rewrite Erun.
    - intros Hstart Hpause. by rewrite Hstart, Hpause in Erun. }
  apply orb_false_iff in Erun as [Hstart%negb_false_iff Hpause].
  destruct (afterCombat_sound M dtSec nowMs prev w Hs) as [Hdead Hmax].
  destruct (tick_units M dtSec nowMs prev w Hstart Hpause) as (G & HG & Hunits).
  cbv zeta in Hunits. rewrite Hunits. clear Hunits.
  set (c := afterCombat M dtSec nowMs prev w) in *.
  change (Store.units (Ctx.draft c)) with (Ctx.units c).
  rewrite Forall_forall in Hmax.
  assert (Hid : ∀ u, Unit.id (G u) = Unit.id u).
  { intros u. exact (f_equal (fun x => x.1.1.1.1.1.1.1) (HG u)). }
  split.
  - apply Forall_forall. intros u' Hin. apply list_elem_of_fmap in Hin as (u & -> & Hin).
    assert (Hu : u ∈ Ctx.units c ∧ 0 < Unit.hp u).
    { destruct (0 <? _)%nat eqn:Elen.
      - apply list_elem_of_In, filter_In in Hin as [Hin%list_elem_of_In Hsurv].
        split; [done|]. unfold survives in Hsurv. apply andb_true_iff in Hsurv as [Hpos _].
        by apply Qgtb_true in Hpos.
      - split; [done|]. destruct (Qlt_le_dec 0 (Unit.hp u)) as [Hpos|Hle]; [done|].
        apply list_elem_of_lookup in Hin as [j Hj]. pose proof (Hdead j u Hj Hle) as Hl.
        apply Nat.ltb_ge in Elen. destruct (Store.deadUnitsToRemove (Ctx.draft c)); [|simpl in Elen; lia].
        by apply elem_of_nil in Hl. }
    destruct Hu as [Hu Hpos]. destruct (Hmax u Hu) as [Hle Hd].
    pose proof (f_equal snd (HG u)) as Ehp.
    pose proof (f_equal (fun x => x.1.1.1.2) (HG u)) as Emax.
    pose proof (f_equal (fun x => x.1.1.2) (HG u)) as Edmg. simpl in Ehp, Emax, Edmg.
    unfold sound, hpInRange. by rewrite Ehp, Emax, Edmg.
  - intros _ _ u Hu Hle u' Hin. apply list_elem_of_lookup in Hu as [j Hj].
    pose proof (Hdead j u Hj Hle) as Hlisted.
    destruct (0 <? _)%nat eqn:Elen.
    + apply list_elem_of_fmap in Hin as (v & -> & Hin).
      apply list_elem_of_In, filter_In in Hin as [_ Hsurv].
      unfold survives in Hsurv. apply andb_true_iff in Hsurv as [_ Hnot].
      apply negb_true_iff, bool_decide_eq_false in Hnot. rewrite Hid. congruence.
    + apply Nat.ltb_ge in Elen. destruct (Store.deadUnitsToRemove (Ctx.draft c)); [|simpl in Elen; lia].
      by apply elem_of_nil in Hlisted.
Qed.

Lemma tick_keeps_hit_points_in_range_witness :
  Forall sound (Store.units woundedQueenStore) ∧
  Forall sound (Store.units (tick refMath (1 # 20) 5000 woundedQueenStore
                               (constWorld (1 # 2) 5000 "u1")).1).
Proof.
  assert (Hs : Forall sound (Store.units woundedQueenStore)).
  { repeat constructor; simpl; lra. }
  split; [exact Hs|].
  exact (proj1 (proj2 (tick_keeps_hit_points_in_range refMath (1 # 20) 5000 woundedQueenStore
                         (constWorld (1 # 2) 5000 "u1") Hs))).
Defined.
